(** * PDF OCR System Pro: the document-processing pipeline of [ocr_app.py]

    A shallow embedding of the pure and the effectful helpers of
    [src/ocr_app.py] together with the properties the specification states
    about them.

    Conventions of the embedding:
    - a Python [str] is the list of its Unicode code points ([pystr]);
    - a Python [int] is a [Z];
    - a Python [float] is an IEEE-754 binary64 number ([spec_float] with
      precision 53 and maximal exponent 1024);
    - the Unicode character database ([str.isspace], [str.isalnum],
      [str.lower], ...) is an interface ([UnicodeDB]); the general theorems
      hold for every database, the worked examples use the ASCII tables;
    - [try]/[except Exception] blocks are written in a small exception monad;
    - the external collaborators (PDF rasterizer, OCR engine, image library)
      are interfaces whose operations may raise. *)

From Stdlib Require Import String Ascii.
From Stdlib Require Import ZArith NArith List Bool Lia.
From Stdlib Require Import Sorting.Permutation Sorting.Sorted.
From Stdlib Require Import Floats.SpecFloat.
Import ListNotations.

Set Implicit Arguments.
Local Open Scope Z_scope.

(* ================================================================== *)
(** * Part I: definitions *)
(* ================================================================== *)

(** ** Python strings *)

Definition codepoint := N.
Definition pystr := list codepoint.

(** [u s] is the Python string whose code points are the bytes of the
    literal [s]; it is only used for ASCII literals. *)
Definition u (s : string) : pystr := map N_of_ascii (list_ascii_of_string s).

Definition LF : codepoint := 10%N.
Definition underscore : codepoint := 95%N.

(** [len(s)] *)
Definition len (A : Type) (s : list A) : Z := Z.of_nat (length s).

(** [c * n] for a one-character string [c] *)
Definition str_mul (c : codepoint) (n : nat) : pystr := repeat c n.

(** [str(n)] for an [int] *)
Definition digit_char (d : Z) : codepoint := Z.to_N (48 + d).

Fixpoint str_of_pos_aux (fuel : nat) (n : Z) (acc : pystr) : pystr :=
  match fuel with
  | O => acc
  | S fuel' =>
      let acc' := digit_char (n mod 10) :: acc in
      if n / 10 =? 0 then acc' else str_of_pos_aux fuel' (n / 10) acc'
  end.

Definition str_of_int (n : Z) : pystr :=
  if n <? 0 then 45%N :: str_of_pos_aux (S (Z.to_nat (Z.log2 (- n)))) (- n) []
  else str_of_pos_aux (S (Z.to_nat (Z.log2 n))) n [].

(** [q == s] on strings *)
Fixpoint str_eqb (a b : pystr) : bool :=
  match a, b with
  | [], [] => true
  | x :: a', y :: b' => (x =? y)%N && str_eqb a' b'
  | _, _ => false
  end.

(** [s.startswith(q)] *)
Fixpoint startswith (q s : pystr) : bool :=
  match q, s with
  | [], _ => true
  | a :: q', b :: s' => (a =? b)%N && startswith q' s'
  | _ :: _, [] => false
  end.

(** [q in s]: the substring test *)
Fixpoint contains (q s : pystr) : bool :=
  startswith q s || match s with [] => false | _ :: s' => contains q s' end.

(** [s.split(sep)] for a one-character separator: every occurrence of the
    separator ends a field, empty fields are kept, the result is never
    empty. [cur] is the field being read, reversed. *)
Fixpoint split_on_aux (sep : codepoint) (cur : pystr) (s : pystr) : list pystr :=
  match s with
  | [] => [rev cur]
  | c :: s' =>
      if (c =? sep)%N then rev cur :: split_on_aux sep [] s'
      else split_on_aux sep (c :: cur) s'
  end.

Definition split_on (sep : codepoint) (s : pystr) : list pystr :=
  split_on_aux sep [] s.

(** [enumerate(xs, start)] *)
Fixpoint enumerate (A : Type) (xs : list A) (start : Z) : list (Z * A) :=
  match xs with
  | [] => []
  | x :: xs' => (start, x) :: enumerate xs' (start + 1)
  end.

(** ** The Unicode character database

    [str.isspace], [str.isalnum] and [str.isdecimal] on one character,
    and [str.lower] on a whole string (lowering is not character-wise in
    Python: it may change the length and depends on the context). *)
Class UnicodeDB := {
  py_isspace : codepoint -> bool;
  py_isalnum : codepoint -> bool;
  py_isdecimal : codepoint -> bool;
  py_lower : pystr -> pystr
}.

Section Strings.
Context {UDB : UnicodeDB}.

Fixpoint lstrip (s : pystr) : pystr :=
  match s with
  | c :: s' => if py_isspace c then lstrip s' else s
  | [] => []
  end.

Definition rstrip (s : pystr) : pystr := rev (lstrip (rev s)).

(** [s.strip()] *)
Definition strip (s : pystr) : pystr := rstrip (lstrip s).

(** [s.split()]: fields are the maximal runs of non-whitespace
    characters. [cur] is the run being read, reversed. *)
Fixpoint split_ws_aux (cur : pystr) (s : pystr) : list pystr :=
  match s with
  | [] => match cur with [] => [] | _ => [rev cur] end
  | c :: s' =>
      if py_isspace c then
        match cur with
        | [] => split_ws_aux [] s'
        | _ => rev cur :: split_ws_aux [] s'
        end
      else split_ws_aux (c :: cur) s'
  end.

Definition split_ws (s : pystr) : list pystr := split_ws_aux [] s.
End Strings.

(** The ASCII part of the database: the classification CPython gives to
    the code points below 128. Code points from 128 on are classified as
    neither space nor alphanumeric and are left alone by [lower]; the
    worked examples only contain code points below 128. *)
Module AsciiDB.
Definition in_range (lo hi c : N) : bool := ((lo <=? c) && (c <=? hi))%N.

Definition isspace (c : codepoint) : bool :=
  in_range 9 13 c || in_range 28 32 c.
Definition isdecimal (c : codepoint) : bool := in_range 48 57 c.
Definition isupper (c : codepoint) : bool := in_range 65 90 c.
Definition islower (c : codepoint) : bool := in_range 97 122 c.
Definition isalnum (c : codepoint) : bool :=
  isdecimal c || isupper c || islower c.
Definition lower_char (c : codepoint) : codepoint :=
  if isupper c then (c + 32)%N else c.
Definition lower (s : pystr) : pystr := map lower_char s.

Definition db : UnicodeDB :=
  {| py_isspace := isspace; py_isalnum := isalnum;
     py_isdecimal := isdecimal; py_lower := lower |}.
End AsciiDB.

(** ** Python floats: IEEE-754 binary64 *)
Module PyFloat.
Definition prec : Z := 53.
Definition emax : Z := 1024.
Definition float := spec_float.

(** [float(n)] for an [int]; exact for [|n| <= 2^53]. *)
Definition of_int (n : Z) : float := binary_normalize prec emax n 0 false.

Definition sub (x y : float) : float := SFsub prec emax x y.
Definition div (x y : float) : float := SFdiv prec emax x y.
Definition ltb (x y : float) : bool := SFltb x y.
Definition leb (x y : float) : bool := SFleb x y.
Definition gtb (x y : float) : bool := SFltb y x.

(** An [int] as an unrounded binary number (mantissa [n], exponent 0). *)
Definition exact_int (n : Z) : float :=
  match n with
  | Z0 => S754_zero false
  | Zpos p => S754_finite false p 0
  | Zneg p => S754_finite true p 0
  end.

(** [a / b] on two [int]s: CPython rounds the exact quotient of the two
    integers once, to nearest-even, whatever their size. A zero divisor
    raises [ZeroDivisionError] in Python; the callers below only divide
    by [max(len(text), 1)] and by the length of a non-empty list. *)
Definition int_true_div (a b : Z) : float := div (exact_int a) (exact_int b).

(** The literal [0.7]: the binary64 number nearest to 7/10. *)
Definition lit_0_7 : float := S754_finite false 6305039478318694 (-53).
(** The literals [2.0] and [1.5]. *)
Definition lit_2_0 : float := S754_finite false 4503599627370496 (-51).
Definition lit_1_5 : float := S754_finite false 6755399441055744 (-52).

(** The builtins [min(a, b)] and [max(a, b)]: the first argument wins
    unless the second is strictly smaller (resp. larger). *)
Definition py_min (a b : float) : float := if ltb b a then b else a.
Definition py_max (a b : float) : float := if gtb b a then b else a.
End PyFloat.

Declare Scope pyfloat_scope.
Delimit Scope pyfloat_scope with pf.
Notation "x - y" := (PyFloat.sub x y) : pyfloat_scope.
Notation "x <? y" := (PyFloat.ltb x y) : pyfloat_scope.
Notation "x >? y" := (PyFloat.gtb x y) : pyfloat_scope.
Notation "x <=? y" := (PyFloat.leb x y) : pyfloat_scope.

(** ** Quality assessment: [calculate_quality_score] *)
Section Quality.
Context {UDB : UnicodeDB}.
Import PyFloat.

(** [sum(c.isalnum() or c.isspace() for c in text)] *)
Fixpoint sum_alnum_or_space (text : pystr) : Z :=
  match text with
  | [] => 0
  | c :: text' =>
      (if py_isalnum c || py_isspace c then 1 else 0) + sum_alnum_or_space text'
  end.

(** [sum(len(w) for w in words)] *)
Fixpoint sum_len (words : list pystr) : Z :=
  match words with
  | [] => 0
  | w :: words' => len w + sum_len words'
  end.

Definition calculate_quality_score (text : pystr) : float :=
  let score := of_int 100 in
  (* Check text length *)
  let score :=
    if len (strip text) <? 10 then (score - of_int 50)%pf else score in
  (* Check alphanumeric ratio *)
  let alphanumeric_ratio :=
    int_true_div (sum_alnum_or_space text) (Z.max (len text) 1) in
  let score :=
    if (alphanumeric_ratio <? lit_0_7)%pf then (score - of_int 30)%pf
    else score in
  (* Check word formation *)
  let words := split_ws text in
  let score :=
    match words with
    | [] => score
    | _ :: _ =>
        let avg_word_length := int_true_div (sum_len words) (len words) in
        if (avg_word_length <? of_int 2)%pf || (avg_word_length >? of_int 15)%pf
        then (score - of_int 20)%pf
        else score
    end in
  py_max (of_int 0) (py_min (of_int 100) score).

(** *** The scoring rule as the specification words it

    Three independent conditions, each with a fixed deduction; the score
    is 100 minus the sum of the deductions that apply, clamped to
    [0, 100]. *)
Definition too_short (text : pystr) : bool := len (strip text) <? 10.

Definition low_alnum_ratio (text : pystr) : bool :=
  (int_true_div (sum_alnum_or_space text) (Z.max (len text) 1) <? lit_0_7)%pf.

Definition odd_word_length (text : pystr) : bool :=
  let tokens := split_ws text in
  (0 <? len tokens) &&
  let mean := int_true_div (sum_len tokens) (len tokens) in
  ((mean <? of_int 2)%pf || (mean >? of_int 15)%pf).

Definition deduction (applies : bool) (amount : Z) : Z :=
  if applies then amount else 0.

Definition deductions (text : pystr) : Z :=
  deduction (too_short text) 50
  + deduction (low_alnum_ratio text) 30
  + deduction (odd_word_length text) 20.

Definition clamp (lo hi x : Z) : Z := Z.max lo (Z.min hi x).

Definition quality_score_spec (text : pystr) : Z :=
  clamp 0 100 (100 - deductions text).
End Quality.

(** *** The float tests against exact arithmetic

    The two ratio tests compare a correctly rounded quotient with a
    binary64 constant. On small operands they can be checked one by one
    against the comparison of the exact fractions. *)
Definition ratio_test_exact (n a : Z) : bool :=
  Bool.eqb (PyFloat.int_true_div a n <? PyFloat.lit_0_7)%pf (10 * a <? 7 * n).

Definition mean_test_exact (k s : Z) : bool :=
  Bool.eqb ((PyFloat.int_true_div s k <? PyFloat.of_int 2)%pf
            || (PyFloat.int_true_div s k >? PyFloat.of_int 15)%pf)
           ((s <? 2 * k) || (15 * k <? s)).

(** [test n a] for every [1 <= n <= bound] and [0 <= a <= per * n]. *)
Definition checked_up_to (test : Z -> Z -> bool) (bound per : nat) : bool :=
  forallb (fun n => forallb (fun a => test (Z.of_nat n) (Z.of_nat a))
                            (seq 0 (S (per * n))))
          (seq 1 bound).

(** ** Exceptions

    A Python call either returns a value or raises; [exn_str e] is
    [str(e)]. Only [Exception] and its subclasses are modelled: they are
    what [except Exception] catches. *)
Record exn := Exception { exn_str : pystr }.

Inductive result (A : Type) : Type :=
| Ok (a : A)
| Raise (e : exn).
Arguments Ok {A} a.
Arguments Raise {A} e.

(** A block of statements that assigns to local variables (of type [S])
    and may raise: the values of the locals survive the exception, so the
    handler sees the last assignment that succeeded. *)
Section Blocks.
Variable S : Type.

Definition block (A : Type) : Type := S -> result A * S.

Definition ret {A : Type} (a : A) : block A := fun s => (Ok a, s).

Definition bind {A B : Type} (m : block A) (f : A -> block B) : block B :=
  fun s =>
    match m s with
    | (Ok a, s') => f a s'
    | (Raise e, s') => (Raise e, s')
    end.

(** [x = call(x)]: the local is assigned only if the call returns. *)
Definition assign (call : S -> result S) : block unit :=
  fun s =>
    match call s with
    | Ok s' => (Ok tt, s')
    | Raise e => (Raise e, s)
    end.

(** [y = call(x)] for a fresh name [y]. *)
Definition eval {A : Type} (call : S -> result A) : block A :=
  fun s => (call s, s).

(** The value of the local. *)
Definition read : block S := fun s => (Ok s, s).

(** [try: body / except Exception as e: handler] *)
Definition try_except {A : Type} (body : block A) (handler : exn -> block A)
  : block A :=
  fun s =>
    match body s with
    | (Ok a, s') => (Ok a, s')
    | (Raise e, s') => handler e s'
    end.
End Blocks.
Arguments ret {S A} a.
Arguments bind {S A B} m f.
Arguments assign {S} call.
Arguments eval {S A} call.
Arguments read {S}.
Arguments try_except {S A} body handler.

Declare Scope block_scope.
Delimit Scope block_scope with block.
Notation "x <- m ;; k" := (bind m (fun x => k))
  (at level 61, m at next level, right associativity) : block_scope.
Notation "m ;; k" := (bind m (fun _ => k))
  (at level 61, right associativity) : block_scope.

(** ** Image preprocessing: [preprocess_image]

    The image library (PIL) is an interface; each operation may raise. *)
Class ImageLib (Image : Type) := {
  Enhancer : Type;
  (** [image.convert(mode)] *)
  image_convert : Image -> pystr -> result Image;
  (** [ImageEnhance.Contrast(image)] and [ImageEnhance.Sharpness(image)] *)
  ImageEnhance_Contrast : Image -> result Enhancer;
  ImageEnhance_Sharpness : Image -> result Enhancer;
  (** [enhancer.enhance(factor)] *)
  enhancer_enhance : Enhancer -> PyFloat.float -> result Image;
  (** [image.filter(ImageFilter.MedianFilter(size=n))] *)
  image_filter_median : Image -> Z -> result Image
}.

Section Preprocess.
Context {Image : Type} {PIL : ImageLib Image}.
Local Open Scope block_scope.

Definition preprocess_body (enhance denoise : bool) : block Image Image :=
  (if enhance then
     (* Convert to grayscale *)
     assign (fun image => image_convert image (u "L")) ;;
     (* Enhance contrast *)
     enhancer <- eval ImageEnhance_Contrast ;;
     assign (fun _ => enhancer_enhance enhancer PyFloat.lit_2_0) ;;
     (* Enhance sharpness *)
     enhancer <- eval ImageEnhance_Sharpness ;;
     assign (fun _ => enhancer_enhance enhancer PyFloat.lit_1_5) ;;
     (* Reduce noise *)
     (if denoise then assign (fun image => image_filter_median image 3)
      else ret tt)
   else ret tt) ;;
  read.

Definition preprocess_image (image : Image) (enhance denoise : bool) : Image :=
  match try_except (preprocess_body enhance denoise)
                   (fun _ => read) image with
  | (Ok image', _) => image'
  | (Raise _, image') => image'
  end.

(** *** The stages as the specification lists them

    Each stage maps an image to a new one or fails; the pipeline keeps
    the image of the last stage that succeeded. *)
Definition stage := Image -> result Image.

Definition grayscale : stage := fun image => image_convert image (u "L").
Definition contrast (factor : PyFloat.float) : stage :=
  fun image =>
    match ImageEnhance_Contrast image with
    | Ok e => enhancer_enhance e factor
    | Raise x => Raise x
    end.
Definition sharpness (factor : PyFloat.float) : stage :=
  fun image =>
    match ImageEnhance_Sharpness image with
    | Ok e => enhancer_enhance e factor
    | Raise x => Raise x
    end.
Definition median (size : Z) : stage := fun image => image_filter_median image size.

Fixpoint best_so_far (stages : list stage) (image : Image) : Image :=
  match stages with
  | [] => image
  | st :: rest =>
      match st image with
      | Ok image' => best_so_far rest image'
      | Raise _ => image
      end
  end.

Definition stages_of (enhance denoise : bool) : list stage :=
  if enhance then
    [grayscale; contrast PyFloat.lit_2_0; sharpness PyFloat.lit_1_5]
      ++ (if denoise then [median 3] else [])
  else [].
End Preprocess.

(** ** Core OCR function: [extract_text_from_pdf]

    The rasterizer ([pdf2image.convert_from_bytes]) and the OCR engine
    ([pytesseract.image_to_string]) are interfaces; both may raise. An
    [Image] stands for one page-image object. *)
Class OcrEngine (Image : Type) := {
  (** [convert_from_bytes(pdf_bytes, dpi=dpi, fmt=fmt)] *)
  convert_from_bytes : list Byte.byte -> Z -> pystr -> result (list Image);
  (** [image_to_string(image, lang=lang, config=config)] *)
  image_to_string : Image -> pystr -> pystr -> result pystr
}.

Section Extract.
Context {UDB : UnicodeDB} {Image : Type} {PIL : ImageLib Image}
        {OCR : OcrEngine Image}.

(** ['=' * 60] *)
Definition rule : pystr := str_mul 61%N 60.

(** [f"\n{'='*60}\nPAGE {n}\n{'='*60}\n\n"] *)
Definition page_banner (n : Z) : pystr :=
  [LF] ++ rule ++ [LF] ++ u "PAGE " ++ str_of_int n ++ [LF] ++ rule ++ [LF; LF].

(** [f"\n{'='*60}\nPAGE {n} - ERROR\n{'='*60}\n\n"] *)
Definition error_banner (n : Z) : pystr :=
  [LF] ++ rule ++ [LF] ++ u "PAGE " ++ str_of_int n ++ u " - ERROR"
       ++ [LF] ++ rule ++ [LF; LF].

(** The body of the [for idx, image in enumerate(images)] loop; the
    accumulator is [extracted_text]. *)
Definition process_page (ocr_lang custom_config : pystr) (enhance denoise : bool)
           (extracted_text : pystr) (page : Z * Image) : pystr :=
  let '(idx, image) := page in
  (* Preprocess *)
  let image :=
    if enhance then preprocess_image image true denoise else image in
  (* Extract text *)
  match image_to_string image ocr_lang custom_config with
  | Ok page_text =>
      let extracted_text := extracted_text ++ page_banner (idx + 1) in
      extracted_text ++ (strip page_text ++ [LF; LF])
  | Raise _ =>
      extracted_text ++ error_banner (idx + 1)
  end.

Definition extract_text_from_pdf (pdf_bytes : list Byte.byte) (ocr_lang : pystr)
           (dpi psm_mode : Z) (enhance denoise : bool)
  : pystr * Z * option pystr :=
  (* Convert PDF to images *)
  match convert_from_bytes pdf_bytes dpi (u "jpeg") with
  | Raise e => ([], 0, Some (exn_str e))
  | Ok images =>
      let extracted_text := [] in
      let custom_config := u "--oem 3 --psm " ++ str_of_int psm_mode in
      (* Process each page *)
      let extracted_text :=
        fold_left (process_page ocr_lang custom_config enhance denoise)
                  (enumerate images 0) extracted_text in
      (extracted_text, len images, None)
  end.

(** *** The pages as the specification describes them

    The image the engine sees, and the block of text page number [n]
    (1-based) contributes: it depends on that page alone. *)
Definition ocr_input (enhance denoise : bool) (image : Image) : Image :=
  if enhance then preprocess_image image true denoise else image.

Definition page_block (ocr_lang : pystr) (psm_mode : Z) (enhance denoise : bool)
           (n : Z) (image : Image) : pystr :=
  match image_to_string (ocr_input enhance denoise image) ocr_lang
                        (u "--oem 3 --psm " ++ str_of_int psm_mode) with
  | Ok page_text => page_banner n ++ strip page_text ++ [LF; LF]
  | Raise _ => error_banner n
  end.

Fixpoint page_blocks (ocr_lang : pystr) (psm_mode : Z) (enhance denoise : bool)
         (n : Z) (images : list Image) : pystr :=
  match images with
  | [] => []
  | image :: images' =>
      page_block ocr_lang psm_mode enhance denoise n image
        ++ page_blocks ocr_lang psm_mode enhance denoise (n + 1) images'
  end.
End Extract.

(** ** Search: [search_in_text] *)
Section Search.
Context {UDB : UnicodeDB}.

(** The body of the [for i, line in enumerate(lines, 1)] loop; the
    accumulator is [matches]. *)
Definition search_step (query : pystr) (case_sensitive : bool)
           (matches : list (Z * pystr)) (entry : Z * pystr) : list (Z * pystr) :=
  let '(i, line) := entry in
  let search_line := if case_sensitive then line else py_lower line in
  let search_query := if case_sensitive then query else py_lower query in
  if contains search_query search_line then matches ++ [(i, line)]
  else matches.

Definition search_in_text (text query : pystr) (case_sensitive : bool)
  : list (Z * pystr) :=
  match query with
  | [] => []
  | _ :: _ =>
      let matches := [] in
      let lines := split_on LF text in
      fold_left (search_step query case_sensitive) (enumerate lines 1) matches
  end.

(** *** The contract as the specification words it *)

(** [q] occurs in [s] as a literal substring. *)
Definition substring (q s : pystr) : Prop :=
  exists before after, s = before ++ q ++ after.

(** The line separator splits [text] into [lines]: joining the lines
    with the separator gives the text back, and no line contains it. *)
Fixpoint join_lines (lines : list pystr) : pystr :=
  match lines with
  | [] => []
  | [l] => l
  | l :: rest => l ++ LF :: join_lines rest
  end.

Definition lines_of (text : pystr) (lines : list pystr) : Prop :=
  lines <> [] /\ join_lines lines = text /\ Forall (fun l => ~ In LF l) lines.

(** What is compared under the case policy. *)
Definition fold_case (case_sensitive : bool) (s : pystr) : pystr :=
  if case_sensitive then s else py_lower s.

(** The test the loop applies to a numbered line. *)
Definition keeps (query : pystr) (case_sensitive : bool) (entry : Z * pystr)
  : bool :=
  contains (fold_case case_sensitive query)
           (fold_case case_sensitive (snd entry)).

(** Line [i] (1-based) of [lines] is [line] and matches the query. *)
Definition matching_line (lines : list pystr) (query : pystr)
           (case_sensitive : bool) (i : Z) (line : pystr) : Prop :=
  1 <= i /\ nth_error lines (Z.to_nat (i - 1)) = Some line
  /\ substring (fold_case case_sensitive query) (fold_case case_sensitive line).
End Search.

(** ** Python dictionaries with string keys

    A [dict] keeps its keys in insertion order; assigning to a key that is
    present replaces the value in place. *)
Definition dict (V : Type) : Type := list (pystr * V).

Fixpoint dict_get (V : Type) (d : dict V) (key : pystr) : option V :=
  match d with
  | [] => None
  | (k, v) :: d' => if str_eqb k key then Some v else dict_get d' key
  end.

Fixpoint dict_set (V : Type) (d : dict V) (key : pystr) (value : V) : dict V :=
  match d with
  | [] => [(key, value)]
  | (k, v) :: d' =>
      if str_eqb k key then (k, value) :: d'
      else (k, v) :: dict_set d' key value
  end.

Definition dict_keys (V : Type) (d : dict V) : list pystr := map fst d.

(** ** Regular expressions: the part of [re] the detectors use

    Patterns are matched the way [re] does: by backtracking, the greedy
    repetition trying one more iteration before it lets the rest of the
    pattern continue. The matcher is written with a continuation, which is
    what the rest of the pattern does from the position reached. *)
Module Re.
Inductive regex : Type :=
| Eps                                             (* the empty pattern *)
| Lit (accept : codepoint -> bool)                (* one character of a class *)
| Seq (r1 r2 : regex)                             (* r1 r2 *)
| Rep (r : regex) (lo : nat) (hi : option nat)    (* r{lo,hi}, greedy *)
| Boundary                                        (* \b *)
| Group (r : regex).                              (* the capturing group (r) *)

(** A position in the subject: the character to its left, the characters
    from it on, its offset, and the span of the group if it has matched. *)
Record cursor : Type := Cursor {
  before : option codepoint;
  rest : pystr;
  pos : nat;
  group1 : option (nat * nat)
}.

Definition kont : Type := cursor -> option cursor.

Definition advance (c : codepoint) (rest' : pystr) (cur : cursor) : cursor :=
  {| before := Some c; rest := rest'; pos := S (pos cur);
     group1 := group1 cur |}.

Definition set_group (span : nat * nat) (cur : cursor) : cursor :=
  {| before := before cur; rest := rest cur; pos := pos cur;
     group1 := Some span |}.

Definition may_repeat (hi : option nat) (count : nat) : bool :=
  match hi with
  | None => true
  | Some n => (count <? n)%nat
  end.

(** The greedy loop of [r{lo,hi}] after [count] iterations. An iteration
    that does not move the position ends the loop. [fuel] bounds the
    number of iterations; the length of the remaining subject plus one
    is enough, since every iteration moves the position. *)
Fixpoint rep_loop (body : kont -> kont) (lo : nat) (hi : option nat)
         (fuel count : nat) (k : kont) (cur : cursor) : option cursor :=
  match fuel with
  | O => None
  | S fuel' =>
      let again :=
        if may_repeat hi count then
          body (fun cur' =>
                  if (pos cur <? pos cur')%nat
                  then rep_loop body lo hi fuel' (S count) k cur'
                  else None) cur
        else None in
      match again with
      | Some final => Some final
      | None => if (lo <=? count)%nat then k cur else None
      end
  end.

(** [cur'] is a position of the same subject at or after [cur]. *)
Definition follows (cur cur' : cursor) : Prop :=
  exists n : nat,
    pos cur' = (pos cur + n)%nat /\ length (rest cur) = (length (rest cur') + n)%nat.

(** A matching step uses its continuation only at positions that follow
    the one it starts from. *)
Definition local (body : kont -> kont) : Prop :=
  forall (k1 k2 : kont) (cur : cursor),
    (forall cur', follows cur cur' -> k1 cur' = k2 cur') ->
    body k1 cur = body k2 cur.

Section Matcher.
Context {UDB : UnicodeDB}.

(** [\w] *)
Definition is_word (c : codepoint) : bool :=
  py_isalnum c || (c =? underscore)%N.

Definition word_before (cur : cursor) : bool :=
  match before cur with Some c => is_word c | None => false end.

Definition word_after (cur : cursor) : bool :=
  match rest cur with c :: _ => is_word c | [] => false end.

Fixpoint rmatch (r : regex) (k : kont) (cur : cursor) : option cursor :=
  match r with
  | Eps => k cur
  | Lit accept =>
      match rest cur with
      | c :: rest' => if accept c then k (advance c rest' cur) else None
      | [] => None
      end
  | Seq r1 r2 => rmatch r1 (rmatch r2 k) cur
  | Rep r' lo hi =>
      rep_loop (rmatch r') lo hi (S (length (rest cur))) 0 k cur
  | Boundary =>
      if xorb (word_before cur) (word_after cur) then k cur else None
  | Group r' =>
      rmatch r' (fun cur' => k (set_group (pos cur, pos cur') cur')) cur
  end.

(** One match: where it starts, where it ends, the span of the group. *)
Record found : Type := Found {
  m_start : nat;
  m_end : nat;
  m_group : option (nat * nat)
}.

Definition match_at (r : regex) (left : option codepoint) (subject : pystr)
           (at_ : nat) : option found :=
  match rmatch r Some {| before := left; rest := subject; pos := at_;
                         group1 := None |} with
  | Some cur => Some {| m_start := at_; m_end := pos cur;
                        m_group := group1 cur |}
  | None => None
  end.

(** [re.finditer]: the leftmost match, then the leftmost match that
    starts where it ended, and so on. [skip] counts the characters of
    the last match that are still to be passed over. None of the
    patterns below matches the empty string; after an empty match the
    scan simply resumes one character further. *)
Fixpoint finditer_from (r : regex) (left : option codepoint) (subject : pystr)
         (at_ skip : nat) : list found :=
  match skip, subject with
  | S skip', c :: subject' =>
      finditer_from r (Some c) subject' (S at_) skip'
  | S _, [] => []
  | O, _ =>
      match match_at r left subject at_ with
      | Some m =>
          m :: match subject with
               | [] => []
               | c :: subject' =>
                   finditer_from r (Some c) subject' (S at_)
                                 (m_end m - at_ - 1)
               end
      | None =>
          match subject with
          | [] => []
          | c :: subject' => finditer_from r (Some c) subject' (S at_) 0
          end
      end
  end.

Definition finditer (r : regex) (text : pystr) : list found :=
  finditer_from r None text 0 0.

(** [text[i:j]] *)
Definition slice (text : pystr) (i j : nat) : pystr :=
  firstn (j - i) (skipn i text).

Fixpoint has_group (r : regex) : bool :=
  match r with
  | Group _ => true
  | Seq r1 r2 => has_group r1 || has_group r2
  | Rep r' _ _ => has_group r'
  | _ => false
  end.

(** What [re.findall] reports for one match: the text of the group if
    the pattern has one (empty if it did not take part), else the
    text of the whole match. *)
Definition reported (r : regex) (text : pystr) (m : found) : pystr :=
  if has_group r then
    match m_group m with
    | Some (i, j) => slice text i j
    | None => []
    end
  else slice text (m_start m) (m_end m).

(** [re.findall(r, text)] *)
Definition findall (r : regex) (text : pystr) : list pystr :=
  map (reported r text) (finditer r text).

(** *** Pattern syntax *)
Definition chr (a : ascii) : regex := Lit (fun c => (c =? N_of_ascii a)%N).
Definition range (lo hi : ascii) (c : codepoint) : bool :=
  ((N_of_ascii lo <=? c) && (c <=? N_of_ascii hi))%N.
Definition one_of (chars : string) (c : codepoint) : bool :=
  existsb (fun a => (c =? N_of_ascii a)%N) (list_ascii_of_string chars).
Definition digit : regex := Lit py_isdecimal.          (* \d *)
Definition space : regex := Lit py_isspace.            (* \s *)
Definition plus (r : regex) : regex := Rep r 1 None.   (* r+ *)
Definition star (r : regex) : regex := Rep r 0 None.   (* r* *)
Definition opt (r : regex) : regex := Rep r 0 (Some 1%nat).   (* r? *)
Definition times (r : regex) (n : nat) : regex := Rep r n (Some n).
Definition between (r : regex) (lo hi : nat) : regex := Rep r lo (Some hi).
Definition at_least (r : regex) (lo : nat) : regex := Rep r lo None.
Definition seq_of (rs : list regex) : regex := fold_right Seq Eps rs.
End Matcher.
End Re.

(** ** Entity extraction: [extract_key_data] *)
Section KeyData.
Context {UDB : UnicodeDB}.
Import Re.
Local Open Scope char_scope.

(** [\b[A-Za-z0-9._%+-]+@[A-Za-z0-9.-]+\.[A-Z|a-z]{2,}\b] *)
Definition email_re : regex :=
  seq_of
    [ Boundary;
      plus (Lit (fun c => range "A" "Z" c || range "a" "z" c || range "0" "9" c
                          || one_of "._%+-" c));
      chr "@";
      plus (Lit (fun c => range "A" "Z" c || range "a" "z" c || range "0" "9" c
                          || one_of ".-" c));
      chr ".";
      at_least (Lit (fun c => range "A" "Z" c || one_of "|" c || range "a" "z" c)) 2;
      Boundary ].

(** [\b\d{3}[-.]?\d{3}[-.]?\d{4}\b] *)
Definition phone_re : regex :=
  seq_of
    [ Boundary; times digit 3; opt (Lit (one_of "-.")); times digit 3;
      opt (Lit (one_of "-.")); times digit 4; Boundary ].

(** [\d{1,2}[-/]\d{1,2}[-/]\d{2,4}] *)
Definition date_re : regex :=
  seq_of
    [ between digit 1 2; Lit (one_of "-/"); between digit 1 2;
      Lit (one_of "-/"); between digit 2 4 ].

(** [\$\s*(\d{1,3}(?:,\d{3})*(?:\.\d{2})?)] *)
Definition amount_re : regex :=
  seq_of
    [ chr "$"; star space;
      Group (seq_of [ between digit 1 3;
                      star (seq_of [chr ","; times digit 3]);
                      opt (seq_of [chr "."; times digit 2]) ]) ].

Definition extract_key_data (text : pystr) : dict (list pystr) :=
  let data := [] in
  (* Extract emails *)
  let emails := findall email_re text in
  let data :=
    match emails with
    | [] => data
    | _ :: _ => dict_set data (u "Emails") (firstn 3 emails)
    end in
  (* Extract phone numbers *)
  let phones := findall phone_re text in
  let data :=
    match phones with
    | [] => data
    | _ :: _ => dict_set data (u "Phones") (firstn 3 phones)
    end in
  (* Extract dates *)
  let dates := findall date_re text in
  let data :=
    match dates with
    | [] => data
    | _ :: _ => dict_set data (u "Dates") (firstn 3 dates)
    end in
  (* Extract amounts *)
  let amounts := findall amount_re text in
  let data :=
    match amounts with
    | [] => data
    | _ :: _ => dict_set data (u "Amounts") (firstn 5 amounts)
    end in
  data.

(** *** The result as the specification describes it

    A category and the entry it gets: none when nothing matched, else
    the first [cap] matches. *)
Definition capped (cap : nat) (found : list pystr) : option (list pystr) :=
  match found with
  | [] => None
  | _ :: _ => Some (firstn cap found)
  end.

Definition categories (text : pystr) : list (pystr * option (list pystr)) :=
  [ (u "Emails", capped 3 (findall email_re text));
    (u "Phones", capped 3 (findall phone_re text));
    (u "Dates", capped 3 (findall date_re text));
    (u "Amounts", capped 5 (findall amount_re text)) ].

(** The entries of the categories that matched, in category order. *)
Fixpoint present (cats : list (pystr * option (list pystr))) : dict (list pystr) :=
  match cats with
  | [] => []
  | (name, Some found) :: cats' => (name, found) :: present cats'
  | (_, None) :: cats' => present cats'
  end.
End KeyData.

(** ** Python values

    The values that reach the database and the JSON writer: [None],
    booleans, integers, floats, strings, lists, and dictionaries with
    string keys. *)
#[local] Unset Elimination Schemes.
Inductive pyval : Type :=
| PNone
| PBool (b : bool)
| PInt (n : Z)
| PFloat (x : PyFloat.float)
| PStr (s : pystr)
| PList (items : list pyval)
| PDict (entries : list (pystr * pyval)).
#[local] Set Elimination Schemes.

(** [d.get(key, default)] *)
Definition dict_get_default (V : Type) (d : dict V) (key : pystr) (default : V) : V :=
  match dict_get d key with
  | Some v => v
  | None => default
  end.

(** [a < b] on strings: code point by code point. SQLite compares the
    UTF-8 encodings byte by byte, which orders strings the same way. *)
Fixpoint str_ltb (a b : pystr) : bool :=
  match a, b with
  | _, [] => false
  | [], _ :: _ => true
  | x :: a', y :: b' => (x <? y)%N || ((x =? y)%N && str_ltb a' b')
  end.

(** ** The history store: the [extractions] table *)

(** What SQLite stores in a column. *)
Inductive sqlval : Type :=
| SqlNull
| SqlInteger (n : Z)
| SqlReal (x : PyFloat.float)
| SqlText (s : pystr).

Inductive affinity : Type := INTEGER | REAL | TEXT.

(** The conversion SQLite applies to a value stored in a column of a
    given affinity (an integer stored in a REAL column becomes a float,
    and so on). *)
Class SqliteEngine := {
  apply_affinity : affinity -> sqlval -> sqlval
}.

(** One row of
    [extractions(id INTEGER PRIMARY KEY AUTOINCREMENT, filename TEXT NOT
    NULL, timestamp TEXT NOT NULL, page_count INTEGER, word_count INTEGER,
    character_count INTEGER, language TEXT, extracted_text TEXT,
    processing_time REAL, quality_score REAL)].
    The timestamp is only ever written from [datetime.now().isoformat()],
    a string. *)
Record row : Type := Row {
  id : Z;
  filename : sqlval;
  timestamp : pystr;
  page_count : sqlval;
  word_count : sqlval;
  character_count : sqlval;
  language : sqlval;
  extracted_text : sqlval;
  processing_time : sqlval;
  quality_score : sqlval
}.

(** The table and the [sqlite_sequence] entry of the table: the largest
    id ever given out. *)
Record database : Type := Database {
  extractions : list row;
  sequence : Z
}.

Definition empty_database : database := {| extractions := []; sequence := 0 |}.

Definition INT64_MAX : Z := 9223372036854775807.
Definition INT64_MIN : Z := -9223372036854775808.

Section History.
Context {SQL : SqliteEngine}.

(** Binding a Python value to a [?] placeholder. *)
Definition bind_parameter (v : pyval) : result sqlval :=
  match v with
  | PNone => Ok SqlNull
  | PBool b => Ok (SqlInteger (if b then 1 else 0))
  | PInt n =>
      if (INT64_MIN <=? n) && (n <=? INT64_MAX) then Ok (SqlInteger n)
      else Raise (Exception (u "Python int too large to convert to SQLite INTEGER"))
  | PFloat x => Ok (SqlReal x)
  | PStr s => Ok (SqlText s)
  | PList _ | PDict _ =>
      Raise (Exception (u "Error binding parameter: type is not supported"))
  end.

(** A column value: the bound parameter after the column's affinity. *)
Definition column (a : affinity) (v : pyval) : result sqlval :=
  match bind_parameter v with
  | Ok s => Ok (apply_affinity a s)
  | Raise e => Raise e
  end.

Definition not_null (name : string) (s : sqlval) : result sqlval :=
  match s with
  | SqlNull => Raise (Exception (u "NOT NULL constraint failed: extractions." ++ u name))
  | _ => Ok s
  end.

Fixpoint max_id (rows : list row) : Z :=
  match rows with
  | [] => 0
  | r :: rows' => Z.max (id r) (max_id rows')
  end.

(** AUTOINCREMENT: one more than the largest id that ever existed. *)
Definition next_id (db : database) : result Z :=
  let largest := Z.max (sequence db) (max_id (extractions db)) in
  if largest <? INT64_MAX then Ok (largest + 1)
  else Raise (Exception (u "database or disk is full")).

(** [INSERT INTO extractions (filename, timestamp, page_count,
    word_count, character_count, language, extracted_text,
    processing_time, quality_score) VALUES (?, ?, ?, ?, ?, ?, ?, ?, ?)] *)
Definition insert_extraction (db : database)
           (p_filename : pyval) (p_timestamp : pystr)
           (p_page_count p_word_count p_character_count p_language
            p_extracted_text p_processing_time p_quality_score : pyval)
  : result database :=
  match column TEXT p_filename with Raise e => Raise e | Ok c_filename =>
  match column INTEGER p_page_count with Raise e => Raise e | Ok c_page_count =>
  match column INTEGER p_word_count with Raise e => Raise e | Ok c_word_count =>
  match column INTEGER p_character_count with Raise e => Raise e | Ok c_character_count =>
  match column TEXT p_language with Raise e => Raise e | Ok c_language =>
  match column TEXT p_extracted_text with Raise e => Raise e | Ok c_extracted_text =>
  match column REAL p_processing_time with Raise e => Raise e | Ok c_processing_time =>
  match column REAL p_quality_score with Raise e => Raise e | Ok c_quality_score =>
  match not_null "filename" c_filename with Raise e => Raise e | Ok _ =>
  match next_id db with Raise e => Raise e | Ok new_id =>
    Ok {| extractions :=
            extractions db ++
              [ {| id := new_id; filename := c_filename;
                   timestamp := p_timestamp;
                   page_count := c_page_count; word_count := c_word_count;
                   character_count := c_character_count;
                   language := c_language;
                   extracted_text := c_extracted_text;
                   processing_time := c_processing_time;
                   quality_score := c_quality_score |} ];
          sequence := new_id |}
  end end end end end end end end end end.

(** [save_to_database(conn, filename, text, metadata)]. [conn] is the
    shared connection, or [None] when the database could not be opened
    (then [conn.cursor()] raises); [now] is what
    [datetime.now().isoformat()] returns. The function returns its
    result and the state of the connection afterwards. *)
Definition save_to_database (conn : option database) (now : pystr)
           (filename text : pyval) (metadata : dict pyval)
  : bool * option database :=
  match conn with
  | None => (false, None)
  | Some db =>
      match insert_extraction db
              filename
              now
              (dict_get_default metadata (u "page_count") (PInt 0))
              (dict_get_default metadata (u "word_count") (PInt 0))
              (dict_get_default metadata (u "character_count") (PInt 0))
              (dict_get_default metadata (u "language") (PStr (u "eng")))
              text
              (dict_get_default metadata (u "processing_time") (PInt 0))
              (dict_get_default metadata (u "quality_score") (PInt 0))
      with
      | Ok db' => (true, Some db')
      | Raise _ => (false, Some db)
      end
  end.

(** [ORDER BY timestamp DESC], as an insertion sort. *)
Fixpoint insert_desc (r : row) (sorted : list row) : list row :=
  match sorted with
  | [] => [r]
  | x :: sorted' =>
      if str_ltb (timestamp x) (timestamp r) then r :: x :: sorted'
      else x :: insert_desc r sorted'
  end.

Definition order_by_timestamp_desc (rows : list row) : list row :=
  fold_right insert_desc [] rows.

(** The order of the sorted rows: a row is not older than the rows
    after it. *)
Definition newer_first (a b : row) : Prop :=
  str_ltb (timestamp a) (timestamp b) = false.

(** A row of the history listing: the eight selected columns. *)
Definition listed : Type :=
  (Z * sqlval * pystr * sqlval * sqlval * sqlval * sqlval * sqlval)%type.

Definition select_listed (r : row) : listed :=
  (id r, filename r, timestamp r, page_count r, word_count r,
   character_count r, language r, quality_score r).

(** [SELECT id, filename, timestamp, page_count, word_count,
    character_count, language, quality_score FROM extractions ORDER BY
    timestamp DESC] followed by [fetchall()] *)
Definition list_all (db : database) : list listed :=
  map select_listed (order_by_timestamp_desc (extractions db)).

(** [SELECT * FROM extractions WHERE id = ?] followed by [fetchone()] *)
Definition get (db : database) (i : Z) : option row :=
  find (fun r => id r =? i) (extractions db).

(** [DELETE FROM extractions WHERE id = ?] and [commit()] *)
Definition delete_one (db : database) (i : Z) : database :=
  {| extractions := filter (fun r => negb (id r =? i)) (extractions db);
     sequence := sequence db |}.

(** [DELETE FROM extractions] and [commit()] *)
Definition delete_all (db : database) : database :=
  {| extractions := []; sequence := sequence db |}.

(** *** Saving several records in a row *)
Record record : Type := Record_ {
  r_now : pystr;
  r_filename : pyval;
  r_text : pyval;
  r_metadata : dict pyval
}.

Definition save (conn : option database) (r : record) : bool * option database :=
  save_to_database conn (r_now r) (r_filename r) (r_text r) (r_metadata r).

(** Saves the records one after the other; the result is the list of
    the values returned and the final state of the connection. *)
Fixpoint save_each (conn : option database) (records : list record)
  : list bool * option database :=
  match records with
  | [] => ([], conn)
  | r :: records' =>
      let '(ok, conn') := save conn r in
      let '(oks, conn'') := save_each conn' records' in
      (ok :: oks, conn'')
  end.

(** The row a record is stored as, under a given id. *)
Definition stored_as (r : record) (stored : row) : Prop :=
  column TEXT (r_filename r) = Ok (filename stored)
  /\ timestamp stored = r_now r
  /\ column INTEGER (dict_get_default (r_metadata r) (u "page_count") (PInt 0))
     = Ok (page_count stored)
  /\ column INTEGER (dict_get_default (r_metadata r) (u "word_count") (PInt 0))
     = Ok (word_count stored)
  /\ column INTEGER (dict_get_default (r_metadata r) (u "character_count") (PInt 0))
     = Ok (character_count stored)
  /\ column TEXT (dict_get_default (r_metadata r) (u "language") (PStr (u "eng")))
     = Ok (language stored)
  /\ column TEXT (r_text r) = Ok (extracted_text stored)
  /\ column REAL (dict_get_default (r_metadata r) (u "processing_time") (PInt 0))
     = Ok (processing_time stored)
  /\ column REAL (dict_get_default (r_metadata r) (u "quality_score") (PInt 0))
     = Ok (quality_score stored).

(** The listing is in descending timestamp order: no row has a
    timestamp smaller than that of a row after it. *)
Definition timestamp_of (l : listed) : pystr :=
  let '(_, _, ts, _, _, _, _, _) := l in ts.

Definition descending (listing : list listed) : Prop :=
  StronglySorted (fun a b => str_ltb (timestamp_of a) (timestamp_of b) = false)
                 listing.
End History.

(** Induction on Python values: the items of a list and the values of a
    dictionary are covered by the induction hypothesis. *)
Section PyvalInduction.
Variable P : pyval -> Prop.
Hypothesis P_none : P PNone.
Hypothesis P_bool : forall b, P (PBool b).
Hypothesis P_int : forall n, P (PInt n).
Hypothesis P_float : forall x, P (PFloat x).
Hypothesis P_str : forall s, P (PStr s).
Hypothesis P_list : forall items, Forall P items -> P (PList items).
Hypothesis P_dict :
  forall entries, Forall (fun kv => P (snd kv)) entries -> P (PDict entries).

Fixpoint pyval_ind (v : pyval) : P v :=
  match v with
  | PNone => P_none
  | PBool b => P_bool b
  | PInt n => P_int n
  | PFloat x => P_float x
  | PStr s => P_str s
  | PList items =>
      P_list ((fix all (l : list pyval) : Forall P l :=
                 match l with
                 | [] => Forall_nil P
                 | x :: l' => Forall_cons x (pyval_ind x) (all l')
                 end) items)
  | PDict entries =>
      P_dict ((fix all (l : list (pystr * pyval))
                 : Forall (fun kv => P (snd kv)) l :=
                 match l with
                 | [] => Forall_nil _
                 | kv :: l' => Forall_cons kv (pyval_ind (snd kv)) (all l')
                 end) entries)
  end.
End PyvalInduction.

(** ** JSON export: [export_to_json]

    [json.dumps] and [json.loads] are modelled on the values of [pyval].
    [float.__repr__] and [float(s)] are an interface, like the Unicode
    database. The limits of the interpreter (recursion depth, the digit
    limit of the conversions between [int] and [str], memory) are not
    modelled. *)
Class FloatText := {
  float_repr : PyFloat.float -> pystr;
  float_of_str : pystr -> PyFloat.float
}.

Module Json.
Section Codec.
Context {FT : FloatText}.

(** *** [json.dumps(obj, indent=2)]: [ensure_ascii] is on, the item
    separator is [","] and the key separator [": "]. *)

(** One digit of ['{:04x}'.format(n)]. *)
Definition hex_digit (d : N) : codepoint :=
  if (d <? 10)%N then (48 + d)%N else (87 + d)%N.

(** ['\\u{0:04x}'.format(n)] *)
Definition u_escape (n : N) : pystr :=
  [ 92%N; 117%N;
    hex_digit (N.land (N.shiftr n 12) 15); hex_digit (N.land (N.shiftr n 8) 15);
    hex_digit (N.land (N.shiftr n 4) 15); hex_digit (N.land n 15) ].

(** What [ESCAPE_ASCII] and [ESCAPE_DCT] turn one character into:
    printable ASCII other than the quote and the backslash stays, the
    rest is escaped, code points from 0x10000 on as a surrogate pair. *)
Definition escape_char (c : codepoint) : pystr :=
  if (c =? 92)%N then [92%N; 92%N]                       (* backslash *)
  else if (c =? 34)%N then [92%N; 34%N]                  (* quote *)
  else if ((32 <=? c) && (c <=? 126))%N then [c]
  else if (c =? 8)%N then [92%N; 98%N]                   (* \b *)
  else if (c =? 12)%N then [92%N; 102%N]                 (* \f *)
  else if (c =? 10)%N then [92%N; 110%N]                 (* \n *)
  else if (c =? 13)%N then [92%N; 114%N]                 (* \r *)
  else if (c =? 9)%N then [92%N; 116%N]                  (* \t *)
  else if (c <? 0x10000)%N then u_escape c
  else
    let n := (c - 0x10000)%N in
    let s1 := N.lor 0xd800 (N.land (N.shiftr n 10) 0x3ff) in
    let s2 := N.lor 0xdc00 (N.land n 0x3ff) in
    u_escape s1 ++ u_escape s2.

Definition encode_str (s : pystr) : pystr :=
  [34%N] ++ flat_map escape_char s ++ [34%N].

(** [floatstr]: the three non-finite floats have names, the finite ones
    are written by [float.__repr__]. *)
Definition floatstr (x : PyFloat.float) : pystr :=
  match x with
  | S754_nan => u "NaN"
  | S754_infinity false => u "Infinity"
  | S754_infinity true => u "-Infinity"
  | _ => float_repr x
  end.

(** ['\n' + ' ' * (2 * level)] *)
Definition newline_indent (level : nat) : pystr :=
  LF :: repeat 32%N (2 * level).

Fixpoint encode (level : nat) (v : pyval) : pystr :=
  match v with
  | PNone => u "null"
  | PBool true => u "true"
  | PBool false => u "false"
  | PInt n => str_of_int n
  | PFloat x => floatstr x
  | PStr s => encode_str s
  | PList [] => u "[]"
  | PList (first :: others) =>
      [91%N] ++ newline_indent (S level) ++ encode (S level) first
        ++ (fix more (items : list pyval) : pystr :=
              match items with
              | [] => []
              | item :: items' =>
                  [44%N] ++ newline_indent (S level) ++ encode (S level) item
                    ++ more items'
              end) others
        ++ newline_indent level ++ [93%N]
  | PDict [] => u "{}"
  | PDict ((key, value) :: others) =>
      [123%N] ++ newline_indent (S level)
        ++ encode_str key ++ u ": " ++ encode (S level) value
        ++ (fix more (entries : list (pystr * pyval)) : pystr :=
              match entries with
              | [] => []
              | (k, x) :: entries' =>
                  [44%N] ++ newline_indent (S level)
                    ++ encode_str k ++ u ": " ++ encode (S level) x
                    ++ more entries'
              end) others
        ++ newline_indent level ++ [125%N]
  end.

Definition dumps (obj : pyval) : pystr := encode 0 obj.

(** The items after the first, each behind its separator. *)
Definition more_items (level : nat) (items : list pyval) : pystr :=
  flat_map (fun item => [44%N] ++ newline_indent (S level) ++ encode (S level) item)
           items.

Definition more_entries (level : nat) (entries : list (pystr * pyval)) : pystr :=
  flat_map (fun kv => [44%N] ++ newline_indent (S level)
                        ++ encode_str (fst kv) ++ u ": " ++ encode (S level) (snd kv))
           entries.

(** *** [json.loads] *)

Definition is_ws (c : codepoint) : bool :=
  ((c =? 32) || (c =? 9) || (c =? 10) || (c =? 13))%N.

Fixpoint skip_ws (s : pystr) : pystr :=
  match s with
  | c :: s' => if is_ws c then skip_ws s' else s
  | [] => []
  end.

Definition hex_value (c : codepoint) : option N :=
  if ((48 <=? c) && (c <=? 57))%N then Some (c - 48)%N
  else if ((97 <=? c) && (c <=? 102))%N then Some (c - 87)%N
  else if ((65 <=? c) && (c <=? 70))%N then Some (c - 55)%N
  else None.

(** [_decode_uXXXX] *)
Definition hex4 (h1 h2 h3 h4 : codepoint) : option N :=
  match hex_value h1, hex_value h2, hex_value h3, hex_value h4 with
  | Some a, Some b, Some c, Some d => Some (((a * 16 + b) * 16 + c) * 16 + d)%N
  | _, _, _, _ => None
  end.

(** The [BACKSLASH] table. *)
Definition unescape (esc : codepoint) : option codepoint :=
  if (esc =? 34)%N then Some 34%N
  else if (esc =? 92)%N then Some 92%N
  else if (esc =? 47)%N then Some 47%N
  else if (esc =? 98)%N then Some 8%N
  else if (esc =? 102)%N then Some 12%N
  else if (esc =? 110)%N then Some 10%N
  else if (esc =? 114)%N then Some 13%N
  else if (esc =? 116)%N then Some 9%N
  else None.

Definition is_high_surrogate (n : N) : bool := ((0xd800 <=? n) && (n <=? 0xdbff))%N.
Definition is_low_surrogate (n : N) : bool := ((0xdc00 <=? n) && (n <=? 0xdfff))%N.

Definition push (c : codepoint) (r : option (pystr * pystr)) : option (pystr * pystr) :=
  match r with
  | Some (str, rest) => Some (c :: str, rest)
  | None => None
  end.

(** [scanstring], from the character after the opening quote: the
    decoded string and what follows the closing quote. A high surrogate
    escape that is followed by a low surrogate escape is one character. *)
Fixpoint scanstring (s : pystr) : option (pystr * pystr) :=
  match s with
  | [] => None
  | c :: s1 =>
      if (c =? 34)%N then Some ([], s1)
      else if (c =? 92)%N then
        match s1 with
        | [] => None
        | esc :: s2 =>
            if (esc =? 117)%N then
              match s2 with
              | h1 :: h2 :: h3 :: h4 :: s3 =>
                  match hex4 h1 h2 h3 h4 with
                  | None => None
                  | Some uni =>
                      if is_high_surrogate uni && startswith [92%N; 117%N] s3 then
                        match s3 with
                        | _ :: _ :: l1 :: l2 :: l3 :: l4 :: s4 =>
                            match hex4 l1 l2 l3 l4 with
                            | None => None
                            | Some uni2 =>
                                if is_low_surrogate uni2 then
                                  push (0x10000 + N.lor (N.shiftl (uni - 0xd800) 10)
                                                        (uni2 - 0xdc00))%N
                                       (scanstring s4)
                                else push uni (scanstring s3)
                            end
                        | _ => None
                        end
                      else push uni (scanstring s3)
                  end
              | _ => None
              end
            else
              match unescape esc with
              | Some ch => push ch (scanstring s2)
              | None => None
              end
        end
      else if (c <? 32)%N then None
      else push c (scanstring s1)
  end.

Definition is_digit (c : codepoint) : bool := ((48 <=? c) && (c <=? 57))%N.

Fixpoint span_digits (s : pystr) : pystr * pystr :=
  match s with
  | c :: s' =>
      if is_digit c then let '(ds, rest) := span_digits s' in (c :: ds, rest)
      else ([], s)
  | [] => ([], [])
  end.

(** The integer part: an optional minus sign, then either [0] or a
    non-zero digit and the digits that follow it. *)
Definition scan_digits (sign : pystr) (s : pystr) : option (pystr * pystr) :=
  match s with
  | d :: s' =>
      if (d =? 48)%N then Some (sign ++ [d], s')
      else if is_digit d then
        let '(ds, rest) := span_digits s' in Some (sign ++ d :: ds, rest)
      else None
  | [] => None
  end.

Definition scan_integer (s : pystr) : option (pystr * pystr) :=
  match s with
  | c :: s' => if (c =? 45)%N then scan_digits [c] s' else scan_digits [] s
  | [] => None
  end.

(** [(\.\d+)?] *)
Definition scan_frac (s : pystr) : pystr * pystr :=
  match s with
  | c :: s' =>
      if (c =? 46)%N then
        match span_digits s' with
        | ([], _) => ([], s)
        | (ds, rest) => (c :: ds, rest)
        end
      else ([], s)
  | [] => ([], s)
  end.

(** [([eE][-+]?\d+)?] *)
Definition scan_exp (s : pystr) : pystr * pystr :=
  match s with
  | e :: s' =>
      if ((e =? 101) || (e =? 69))%N then
        let '(sign, s'') :=
          match s' with
          | c :: t => if ((c =? 45) || (c =? 43))%N then ([c], t) else ([], s')
          | [] => ([], s')
          end in
        match span_digits s'' with
        | ([], _) => ([], s)
        | (ds, rest) => (e :: sign ++ ds, rest)
        end
      else ([], s)
  | [] => ([], s)
  end.

Fixpoint digits_value (acc : Z) (ds : pystr) : Z :=
  match ds with
  | [] => acc
  | d :: ds' => digits_value (10 * acc + (Z.of_N d - 48)) ds'
  end.

(** [int(token)] *)
Definition int_of_token (token : pystr) : Z :=
  match token with
  | c :: ds => if (c =? 45)%N then - digits_value 0 ds else digits_value 0 token
  | [] => 0
  end.

(** [match_number] and the choice between [int] and [float]. *)
Definition scan_number (s : pystr) : option (pyval * pystr) :=
  match scan_integer s with
  | None => None
  | Some (integer, s1) =>
      let '(frac, s2) := scan_frac s1 in
      let '(exp, s3) := scan_exp s2 in
      match frac, exp with
      | [], [] => Some (PInt (int_of_token integer), s3)
      | _, _ => Some (PFloat (float_of_str (integer ++ frac ++ exp)), s3)
      end
  end.

(** [dict(pairs)]: a later pair with the same key replaces the value. *)
Definition dict_of_pairs (pairs : list (pystr * pyval)) : dict pyval :=
  fold_left (fun d kv => dict_set d (fst kv) (snd kv)) pairs [].

Definition keyword (word : string) (value : pyval) (s : pystr)
  : option (pyval * pystr) :=
  if startswith (u word) s then Some (value, skipn (String.length word) s)
  else None.

(** [scan_once], [JSONObject] (from the character after the opening
    quote of a key) and [JSONArray] (from the first character of an
    item). [fuel] bounds the number of values read. *)
Fixpoint scan_once (fuel : nat) (s : pystr) : option (pyval * pystr) :=
  match fuel with
  | O => None
  | S fuel' =>
      match s with
      | [] => None
      | c :: s1 =>
          if (c =? 34)%N then
            match scanstring s1 with
            | Some (str, rest) => Some (PStr str, rest)
            | None => None
            end
          else if (c =? 123)%N then
            match skip_ws s1 with
            | c1 :: s2 =>
                if (c1 =? 125)%N then Some (PDict [], s2)
                else if (c1 =? 34)%N then
                  match object_pairs fuel' s2 with
                  | Some (pairs, rest) => Some (PDict (dict_of_pairs pairs), rest)
                  | None => None
                  end
                else None
            | [] => None
            end
          else if (c =? 91)%N then
            match skip_ws s1 with
            | c1 :: s2 =>
                if (c1 =? 93)%N then Some (PList [], s2)
                else
                  match array_items fuel' (c1 :: s2) with
                  | Some (items, rest) => Some (PList items, rest)
                  | None => None
                  end
            | [] => None
            end
          else
            match keyword "null" PNone s with Some r => Some r | None =>
            match keyword "true" (PBool true) s with Some r => Some r | None =>
            match keyword "false" (PBool false) s with Some r => Some r | None =>
            match scan_number s with Some r => Some r | None =>
            match keyword "NaN" (PFloat S754_nan) s with Some r => Some r | None =>
            match keyword "Infinity" (PFloat (S754_infinity false)) s with
            | Some r => Some r
            | None => keyword "-Infinity" (PFloat (S754_infinity true)) s
            end end end end end end
      end
  end
with object_pairs (fuel : nat) (s : pystr)
  : option (list (pystr * pyval) * pystr) :=
  match fuel with
  | O => None
  | S fuel' =>
      match scanstring s with
      | None => None
      | Some (key, s1) =>
          match skip_ws s1 with
          | c :: s2 =>
              if (c =? 58)%N then
                match scan_once fuel' (skip_ws s2) with
                | None => None
                | Some (value, s3) =>
                    match skip_ws s3 with
                    | c3 :: s4 =>
                        if (c3 =? 125)%N then Some ([(key, value)], s4)
                        else if (c3 =? 44)%N then
                          match skip_ws s4 with
                          | c5 :: s5 =>
                              if (c5 =? 34)%N then
                                match object_pairs fuel' s5 with
                                | Some (pairs, rest) =>
                                    Some ((key, value) :: pairs, rest)
                                | None => None
                                end
                              else None
                          | [] => None
                          end
                        else None
                    | [] => None
                    end
                end
              else None
          | [] => None
          end
      end
  end
with array_items (fuel : nat) (s : pystr) : option (list pyval * pystr) :=
  match fuel with
  | O => None
  | S fuel' =>
      match scan_once fuel' s with
      | None => None
      | Some (value, s1) =>
          match skip_ws s1 with
          | c :: s2 =>
              if (c =? 93)%N then Some ([value], s2)
              else if (c =? 44)%N then
                match array_items fuel' (skip_ws s2) with
                | Some (items, rest) => Some (value :: items, rest)
                | None => None
                end
              else None
          | [] => None
          end
      end
  end.

(** [json.loads(s)]: one value between optional whitespace, and nothing
    after it. *)
Definition loads (s : pystr) : option pyval :=
  if startswith [0xfeff%N] s then None
  else
    match scan_once (S (length s)) (skip_ws s) with
    | Some (obj, rest) =>
        match skip_ws rest with
        | [] => Some obj
        | _ :: _ => None
        end
    | None => None
    end.
End Codec.
End Json.

(** *** What the round trip needs of its input

    A Python string has code points below 0x110000. The decoder reads a
    high surrogate escape followed by a low surrogate escape as one
    character, so a string round-trips only if it has no such pair. *)
Fixpoint no_surrogate_pair (s : pystr) : bool :=
  match s with
  | c :: s' =>
      match s' with
      | c2 :: _ =>
          negb (Json.is_high_surrogate c && Json.is_low_surrogate c2)
          && no_surrogate_pair s'
      | [] => true
      end
  | [] => true
  end.

Definition exact_text (s : pystr) : Prop :=
  forallb (fun c => (c <? 0x110000)%N) s = true /\ no_surrogate_pair s = true.

(** What follows a value in the output of [json.dumps]: nothing, a comma,
    or a line feed. *)
Definition delimited (rest : pystr) : Prop :=
  match rest with
  | [] => True
  | c :: _ => c = 44%N \/ c = 10%N
  end.

Section ExportJson.
Context {FT : FloatText}.

(** [float.__repr__] writes a finite float as a JSON number with a
    fraction or an exponent that [float] reads back as the same float
    (CPython documents both); the three non-finite floats do not go
    through [float.__repr__]. *)
Definition repr_round_trips (x : PyFloat.float) : Prop :=
  match x with
  | S754_nan | S754_infinity _ => True
  | _ =>
      forall rest, delimited rest ->
        Json.scan_number (float_repr x ++ rest) = Some (PFloat x, rest)
  end.

(** A value the round trip is exact on: strings and keys are exact texts,
    floats satisfy the law above, the keys of a dictionary are distinct
    (as they are in any Python dictionary). *)
Fixpoint exact_value (v : pyval) : Prop :=
  match v with
  | PNone | PBool _ | PInt _ => True
  | PFloat x => repr_round_trips x
  | PStr s => exact_text s
  | PList items =>
      (fix all (l : list pyval) : Prop :=
         match l with
         | [] => True
         | x :: l' => exact_value x /\ all l'
         end) items
  | PDict entries =>
      NoDup (map fst entries)
      /\ (fix all (l : list (pystr * pyval)) : Prop :=
            match l with
            | [] => True
            | (k, x) :: l' => exact_text k /\ exact_value x /\ all l'
            end) entries
  end.

(** The statement proved of every value by induction: if the value is
    exact, reading its encoding back gives the value and what followed. *)
Definition round_trips (v : pyval) : Prop :=
  exact_value v ->
  forall level fuel rest,
    (length (Json.encode level v) <= fuel)%nat -> delimited rest ->
    Json.scan_once fuel (Json.encode level v ++ rest) = Some (v, rest).

(** What the decoder sees after a high surrogate: if the text goes on with
    a [\u] escape, that escape is not a low surrogate. *)
Definition no_low_escape (t : pystr) : Prop :=
  startswith [92%N; 117%N] t = true ->
  exists l1 l2 l3 l4 t' uni2,
    t = 92%N :: 117%N :: l1 :: l2 :: l3 :: l4 :: t'
    /\ Json.hex4 l1 l2 l3 l4 = Some uni2
    /\ Json.is_low_surrogate uni2 = false.

Definition all_digits (ds : pystr) : Prop :=
  Forall (fun c => Json.is_digit c = true) ds.

Definition not_digit_first (rest : pystr) : Prop :=
  match rest with c :: _ => Json.is_digit c = false | [] => True end.

(** [export_to_json(text, filename, metadata)]; [now] is what
    [datetime.now().isoformat()] returns. [json.dumps] raises on none of
    the values of [pyval], so the [except] branch (which returns [None])
    is not taken. *)
Definition export_to_json (now : pystr) (text filename : pystr)
           (metadata : option (dict pyval)) : option pystr :=
  let data :=
    PDict [ (u "filename", PStr filename);
            (u "extracted_text", PStr text);
            (u "extraction_date", PStr now);
            (u "metadata", PDict (match metadata with
                                  | Some m => m
                                  | None => []
                                  end));
            (u "version", PStr (u "1.0")) ] in
  Some (Json.dumps data).

(** [json.loads(s)[key]] for a serialized object. *)
Definition parsed_field (s : option pystr) (key : pystr) : option pyval :=
  match s with
  | Some json =>
      match Json.loads json with
      | Some (PDict entries) => dict_get entries key
      | _ => None
      end
  | None => None
  end.
End ExportJson.

(** ** Test doubles

    Small concrete collaborators on which the functions above can be run:
    page images are numbered, every image operation succeeds except the
    grayscale conversion of image 0, the rasterizer rejects the empty byte
    string and otherwise yields pages 1, 2 and 3, and the OCR engine fails
    on page 2. *)
Module Demo.
Definition Image := nat.

Definition pil : ImageLib Image :=
  {| Enhancer := Image;
     image_convert := fun image _ =>
       match image with
       | O => Raise (Exception (u "cannot convert"))
       | _ => Ok image
       end;
     ImageEnhance_Contrast := fun image => Ok image;
     ImageEnhance_Sharpness := fun image => Ok image;
     enhancer_enhance := fun enhancer _ => Ok enhancer;
     image_filter_median := fun image _ => Ok image |}.

Definition page_text (image : Image) : pystr :=
  u "  text of page " ++ str_of_int (Z.of_nat image) ++ u " " ++ [LF].

Definition ocr : OcrEngine Image :=
  {| convert_from_bytes := fun pdf_bytes _ _ =>
       match pdf_bytes with
       | [] => Raise (Exception (u "Unable to get page count."))
       | _ :: _ => Ok [1%nat; 2%nat; 3%nat]
       end;
     image_to_string := fun image _ _ =>
       match image with
       | 2%nat => Raise (Exception (u "TesseractError"))
       | _ => Ok (page_text image)
       end |}.

Definition pdf : list Byte.byte := [Byte.x25; Byte.x50; Byte.x44; Byte.x46].
End Demo.

(** [float.__repr__] and [float] on the two floats of the examples,
    100.0 and 2.5. *)
Module DemoFloat.
Definition f_100_0 : PyFloat.float := S754_finite false 7036874417766400 (-46).
Definition f_2_5 : PyFloat.float := S754_finite false 5629499534213120 (-51).

Definition text : FloatText :=
  {| float_repr := fun x =>
       match x with
       | S754_finite false 7036874417766400 (-46) => u "100.0"
       | S754_finite false 5629499534213120 (-51) => u "2.5"
       | _ => u "0.0"
       end;
     float_of_str := fun s =>
       if str_eqb s (u "100.0") then f_100_0
       else if str_eqb s (u "2.5") then f_2_5
       else S754_zero false |}.

Definition metadata : dict pyval :=
  [ (u "page_count", PInt 3); (u "word_count", PInt 1250);
    (u "language", PStr (u "eng")); (u "processing_time", PFloat f_2_5);
    (u "quality_score", PFloat f_100_0) ].

(** "Total: 42" on one line, then an accented letter and an emoji. *)
Definition page : pystr := u "Total: 42" ++ [LF; 233%N; 128512%N].
End DemoFloat.

(** A storage engine whose REAL columns turn integers into floats and
    which otherwise stores values as they are bound, and two records. *)
Module DemoStore.
Definition sqlite : SqliteEngine :=
  {| apply_affinity := fun a v =>
       match a, v with
       | REAL, SqlInteger n => SqlReal (PyFloat.of_int n)
       | _, _ => v
       end |}.

Definition first : record :=
  {| r_now := u "2024-05-01T09:30:00.000123";
     r_filename := PStr (u "a.pdf");
     r_text := PStr (u "first document");
     r_metadata := [ (u "page_count", PInt 2); (u "word_count", PInt 2);
                     (u "language", PStr (u "eng")) ] |}.

Definition second : record :=
  {| r_now := u "2024-05-01T09:31:00";
     r_filename := PStr (u "b.pdf");
     r_text := PStr (u "second document");
     r_metadata := [ (u "page_count", PInt 1); (u "processing_time", PInt 0) ] |}.

(** The store after the two records were saved into the empty one. *)
Definition final : database :=
  match snd (save_each (SQL:=sqlite) (Some empty_database) [first; second]) with
  | Some db => db
  | None => empty_database
  end.
End DemoStore.

(** ** What a match looks like

    [shape r seg]: the text [seg] is made the way the pattern [r] asks,
    piece by piece. Word boundaries are not part of the shape: they
    constrain the neighbours of a match, not its text. *)
Fixpoint shape (r : Re.regex) (seg : pystr) : Prop :=
  match r with
  | Re.Eps | Re.Boundary => seg = []
  | Re.Lit accept => exists c, seg = [c] /\ accept c = true
  | Re.Seq r1 r2 => exists s1 s2, seg = s1 ++ s2 /\ shape r1 s1 /\ shape r2 s2
  | Re.Rep r' lo hi =>
      exists segs,
        seg = concat segs /\ Forall (shape r') segs /\ (lo <= length segs)%nat
        /\ match hi with Some h => (length segs <= h)%nat | None => True end
  | Re.Group r' => shape r' seg
  end.

(** The matcher went from [cur] to [cur'] over the text [seg]. *)
Definition consumed (cur : Re.cursor) (seg : pystr) (cur' : Re.cursor) : Prop :=
  Re.rest cur = seg ++ Re.rest cur'
  /\ Re.pos cur' = (Re.pos cur + length seg)%nat.

(** [n] characters of a class. *)
Definition run_of (accept : codepoint -> bool) (s : pystr) : Prop :=
  Forall (fun c => accept c = true) s.

(** What a successful step of the matcher did: it called its continuation
    at a position reached over a text of the pattern's shape; a pattern
    without a group leaves the recorded group alone. *)
Definition sound_step (body : Re.kont -> Re.kont) (P : pystr -> Prop) (grouped : bool)
  : Prop :=
  forall (k : Re.kont) (cur f : Re.cursor),
    body k cur = Some f ->
    exists cur' seg,
      k cur' = Some f /\ consumed cur seg cur' /\ P seg
      /\ (grouped = false -> Re.group1 cur' = Re.group1 cur).

(** A pattern that can match the empty text. *)
Fixpoint nullable (r : Re.regex) : bool :=
  match r with
  | Re.Eps | Re.Boundary => true
  | Re.Lit _ => false
  | Re.Seq r1 r2 => nullable r1 && nullable r2
  | Re.Rep r' lo _ => (lo =? 0)%nat || nullable r'
  | Re.Group r' => nullable r'
  end.

(** A pattern without word boundaries whose repetitions repeat
    something that cannot be empty: for such a pattern every text of
    its shape is matched. *)
Fixpoint plain (r : Re.regex) : bool :=
  match r with
  | Re.Eps | Re.Lit _ => true
  | Re.Boundary => false
  | Re.Seq r1 r2 => plain r1 && plain r2
  | Re.Rep r' _ _ => plain r' && negb (nullable r')
  | Re.Group r' => plain r'
  end.

(** A step of the matcher succeeds on every text in [P] after which its
    continuation succeeds. *)
Definition complete_step (body : Re.kont -> Re.kont) (P : pystr -> Prop) : Prop :=
  forall (seg : pystr) (k : Re.kont) (cur : Re.cursor) (tail : pystr),
    P seg -> Re.rest cur = seg ++ tail ->
    (forall cur', consumed cur seg cur' -> k cur' <> None) ->
    body k cur <> None.

(** ** Format detection: [detect_document_format]

    Two more queries of the Unicode database: [str.isdigit] on one
    character (it accepts more than [str.isdecimal], superscript digits
    for instance), and whether a character matches a cased letter of a
    pattern compiled with [re.IGNORECASE]. *)
Class FormatDB := {
  py_isdigit : codepoint -> bool;
  sre_ignore_case : codepoint -> codepoint -> bool
}.

(** The ASCII part: the digits 0 to 9, and a letter matches itself in
    either case. *)
Module AsciiFormatDB.
Definition ignore_case (letter c : codepoint) : bool :=
  (AsciiDB.lower_char c =? AsciiDB.lower_char letter)%N.

Definition db : FormatDB :=
  {| py_isdigit := AsciiDB.isdecimal; sre_ignore_case := ignore_case |}.
End AsciiFormatDB.

(** [sum(1 for x in xs if cond(x))] *)
Fixpoint count_if (A : Type) (cond : A -> bool) (xs : list A) : Z :=
  match xs with
  | [] => 0
  | x :: xs' => (if cond x then 1 else 0) + count_if cond xs'
  end.

Section Format.
Context {UDB : UnicodeDB} {FDB : FormatDB}.
Import Re.
Local Open Scope char_scope.

(** [re.search]: the leftmost match, if any. *)
Fixpoint search_from (r : regex) (left : option codepoint) (subject : pystr)
         (at_ : nat) : option found :=
  match match_at r left subject at_ with
  | Some m => Some m
  | None =>
      match subject with
      | [] => None
      | c :: subject' => search_from r (Some c) subject' (S at_)
      end
  end.

Definition search (r : regex) (text : pystr) : option found :=
  search_from r None text 0.

(** A letter of a pattern compiled with [re.IGNORECASE]; characters that
    have no case ([#], [:], [$]) and the classes [\s] and [\w] are
    matched as without the flag. *)
Definition ichr (a : ascii) : regex := Lit (sre_ignore_case (N_of_ascii a)).
Definition iword (w : string) : list regex := map ichr (list_ascii_of_string w).

(** [invoice\s*#?\s*:?\s*(\w+)], [total\s*:?\s*\$] and [amount\s*due] *)
Definition invoice_patterns : list regex :=
  [ seq_of (iword "invoice"
              ++ [ star space; opt (chr "#"); star space; opt (chr ":");
                   star space; Group (plus (Lit is_word)) ]);
    seq_of (iword "total" ++ [ star space; opt (chr ":"); star space; chr "$" ]);
    seq_of (iword "amount" ++ [ star space ] ++ iword "due") ].

(** [([A-Z][a-zA-Z\s]+):\s*[_\s]{2,}] *)
Definition form_pattern : regex :=
  seq_of
    [ Group (seq_of [ Lit (range "A" "Z");
                      plus (Lit (fun c => range "a" "z" c || range "A" "Z" c
                                          || py_isspace c)) ]);
      chr ":"; star space;
      at_least (Lit (fun c => (c =? underscore)%N || py_isspace c)) 2 ].

(** [len(line.split()) >= 3 and any(c.isdigit() for c in line)] *)
Definition table_row (line : pystr) : bool :=
  (3 <=? len (split_ws line))%Z && existsb py_isdigit line.

(** The three tags; the first character is the pictograph. *)
Definition table_tag (rows : Z) : pystr :=
  128202%N :: u " Table (" ++ str_of_int rows ++ u " rows)".
Definition invoice_tag : pystr := 128176%N :: u " Invoice".
Definition form_tag (fields : Z) : pystr :=
  128203%N :: u " Form (" ++ str_of_int fields ++ u " fields)".

Definition detect_document_format (text : pystr) : list pystr :=
  let formats_detected := [] in
  (* Detect tables (multiple columns with numbers) *)
  let lines := split_on LF text in
  let table_lines := count_if table_row lines in
  let formats_detected :=
    if (3 <=? table_lines)%Z then formats_detected ++ [table_tag table_lines]
    else formats_detected in
  (* Detect invoice patterns *)
  let formats_detected :=
    if existsb (fun pattern =>
                  match search pattern text with Some _ => true | None => false end)
               invoice_patterns
    then formats_detected ++ [invoice_tag]
    else formats_detected in
  (* Detect form fields *)
  let form_fields := findall form_pattern text in
  let formats_detected :=
    if (3 <=? len form_fields)%Z then formats_detected ++ [form_tag (len form_fields)]
    else formats_detected in
  formats_detected.

(** *** The phrases the patterns look for, in words *)

(** The letters of [w], each in any case the flag allows. *)
Definition ci_word (w : string) (s : pystr) : Prop :=
  Forall2 (fun a c => sre_ignore_case (N_of_ascii a) c = true)
          (list_ascii_of_string w) s.

(** Any number of whitespace characters. *)
Definition blanks (s : pystr) : Prop := run_of py_isspace s.

(** The character [a], or nothing. *)
Definition maybe (a : ascii) (s : pystr) : Prop := s = [] \/ s = [N_of_ascii a].

(** "invoice", then optionally [#] and [:] with whitespace around them,
    then an identifier. *)
Definition invoice_label (seg : pystr) : Prop :=
  exists w b1 h b2 c b3 ident,
    seg = w ++ b1 ++ h ++ b2 ++ c ++ b3 ++ ident
    /\ ci_word "invoice" w /\ blanks b1 /\ maybe "#" h /\ blanks b2
    /\ maybe ":" c /\ blanks b3 /\ ident <> [] /\ run_of is_word ident.

(** "total", optionally a colon, then a dollar sign. *)
Definition total_label (seg : pystr) : Prop :=
  exists w b1 c b2,
    seg = w ++ b1 ++ c ++ b2 ++ [N_of_ascii "$"]
    /\ ci_word "total" w /\ blanks b1 /\ maybe ":" c /\ blanks b2.

(** "amount due" *)
Definition amount_due (seg : pystr) : Prop :=
  exists w1 b w2,
    seg = w1 ++ b ++ w2 /\ ci_word "amount" w1 /\ blanks b /\ ci_word "due" w2.

(** A form field: a label that starts with a capital letter and goes on
    with letters and whitespace, a colon, and at least two blanks or
    underscores to write on. *)
Definition form_label (label : pystr) : Prop :=
  exists c others,
    label = c :: others /\ range "A" "Z" c = true /\ others <> []
    /\ run_of (fun c => range "a" "z" c || range "A" "Z" c || py_isspace c) others.

Definition fill_in (s : pystr) : Prop :=
  (2 <= length s)%nat /\ run_of (fun c => (c =? underscore)%N || py_isspace c) s.
End Format.

(** ** The entities in words *)
Section Entities.
Context {UDB : UnicodeDB}.
Import Re.
Local Open Scope char_scope.

(** Between [lo] and [hi] decimal digits. *)
Definition digits (lo hi : nat) (s : pystr) : Prop :=
  run_of py_isdecimal s /\ (lo <= length s <= hi)%nat.

(** One of the given characters. *)
Definition separator (chars : string) (s : pystr) : Prop :=
  exists c, s = [c] /\ one_of chars c = true.

(** A phone number: three, three and four digits; a hyphen or a dot may
    stand between the groups. *)
Definition phone_shape (p : pystr) : Prop :=
  exists a s1 b s2 c,
    p = a ++ s1 ++ b ++ s2 ++ c
    /\ digits 3 3 a /\ (s1 = [] \/ separator "-." s1)
    /\ digits 3 3 b /\ (s2 = [] \/ separator "-." s2)
    /\ digits 4 4 c.

(** A date: one or two digits, one or two digits and two to four digits,
    with a hyphen or a slash after the first and after the second part. *)
Definition date_shape (d : pystr) : Prop :=
  exists a s1 b s2 c,
    d = a ++ s1 ++ b ++ s2 ++ c
    /\ digits 1 2 a /\ separator "-/" s1
    /\ digits 1 2 b /\ separator "-/" s2
    /\ digits 2 4 c.

(** An e-mail address: a local part, [@], a domain, a dot, and a last
    label of at least two characters. The last label is made of ASCII
    letters and of vertical bars: the class is written [[A-Z|a-z]]. *)
Definition local_char (c : codepoint) : bool :=
  range "A" "Z" c || range "a" "z" c || range "0" "9" c || one_of "._%+-" c.
Definition domain_char (c : codepoint) : bool :=
  range "A" "Z" c || range "a" "z" c || range "0" "9" c || one_of ".-" c.
Definition label_char (c : codepoint) : bool :=
  range "A" "Z" c || one_of "|" c || range "a" "z" c.

Definition email_shape (e : pystr) : Prop :=
  exists local domain label,
    e = local ++ [N_of_ascii "@"] ++ domain ++ [N_of_ascii "."] ++ label
    /\ local <> [] /\ run_of local_char local
    /\ domain <> [] /\ run_of domain_char domain
    /\ (2 <= length label)%nat /\ run_of label_char label.

(** An amount: one to three digits, any number of groups of a comma and
    three digits, and optionally a dot and two digits. *)
Definition amount_shape (a : pystr) : Prop :=
  exists lead groups cents,
    a = lead ++ concat groups ++ cents
    /\ digits 1 3 lead
    /\ Forall (fun g => exists ds, g = N_of_ascii "," :: ds /\ digits 3 3 ds) groups
    /\ (cents = [] \/ exists ds, cents = N_of_ascii "." :: ds /\ digits 2 2 ds).
End Entities.

(** ** The extraction handlers of the two processing modes

    What runs when "Extract Text" (single mode) or "Process All" (batch
    mode) is clicked. The widgets that only display are left out; the
    values of the sidebar widgets are the variables of the section. *)

(** An uploaded file: its name and what [read()] gives. *)
Record UploadedFile : Type := Uploaded {
  file_name : pystr;
  file_read : result (list Byte.byte)
}.

(** [st.session_state] *)
Record session_state : Type := Session {
  current_text : pystr;
  processing_stats : dict pyval
}.

(** The state when the application starts. *)
Definition initial_session : session_state :=
  {| current_text := []; processing_stats := [] |}.

(** [if error:] on the third component of what
    [extract_text_from_pdf] returns: [None] and the empty string are
    both false. *)
Definition reported_error (error : option pystr) : option pystr :=
  match error with
  | Some (c :: message) => Some (c :: message)
  | _ => None
  end.

(** The value of one entry of [results] in batch mode:
    [{'text': text, 'pages': pages, 'words': len(text.split())}] *)
Record batch_entry : Type := Entry {
  entry_text : pystr;
  entry_pages : Z;
  entry_words : Z
}.

(** The locals [results] and [errors] of the batch handler, and the
    shared connection. *)
Record batch : Type := Batch {
  results : dict batch_entry;
  errors : dict pystr;
  batch_conn : option database
}.

(** [s.rsplit(sep, 1)[0]]: what precedes the last [sep], the whole
    string if there is none. *)
Fixpoint before_last (sep : codepoint) (s : pystr) : option pystr :=
  match s with
  | [] => None
  | c :: s' =>
      match before_last sep s' with
      | Some stem => Some (c :: stem)
      | None => if (c =? sep)%N then Some [] else None
      end
  end.

Definition rsplit1_first (sep : codepoint) (s : pystr) : pystr :=
  match before_last sep s with
  | Some stem => stem
  | None => s
  end.

(** The members written to the ZIP archive, in order: name and content. *)
Definition zip_members (results : dict batch_entry) : list (pystr * pystr) :=
  map (fun item : pystr * batch_entry =>
         let '(name, data) := item in
         let base := rsplit1_first 46%N name in
         (base ++ u ".txt", entry_text data))
      results.

Section Handlers.
Context {UDB : UnicodeDB} {Image : Type} {PIL : ImageLib Image}
        {OCR : OcrEngine Image} {SQL : SqliteEngine}.
Variables (ocr_lang : pystr) (dpi psm_mode : Z)
          (enhance_image denoise save_to_db : bool).

(** Single mode, "Extract Text". [elapsed] is
    [(datetime.now() - start_time).total_seconds()] and [now] what
    [datetime.now().isoformat()] returns when the record is saved. The
    handler raises if [read()] does; otherwise it gives the session
    state, the state of the connection and the error shown, if any. *)
Definition extract_clicked (uploaded_file : UploadedFile)
           (elapsed : PyFloat.float) (now : pystr)
           (state : session_state) (db_conn : option database)
  : result (session_state * option database * option pystr) :=
  match file_read uploaded_file with
  | Raise e => Raise e
  | Ok pdf_bytes =>
      let '(extracted_text, page_count, error) :=
        extract_text_from_pdf pdf_bytes ocr_lang dpi psm_mode enhance_image denoise in
      match reported_error error with
      | Some message => Ok (state, db_conn, Some message)
      | None =>
          let processing_time := elapsed in
          (* Calculate metadata *)
          let metadata :=
            [ (u "filename", PStr (file_name uploaded_file));
              (u "page_count", PInt page_count);
              (u "word_count", PInt (len (split_ws extracted_text)));
              (u "character_count", PInt (len extracted_text));
              (u "language", PStr ocr_lang);
              (u "processing_time", PFloat processing_time);
              (u "quality_score", PFloat (calculate_quality_score extracted_text)) ] in
          (* Store results *)
          let state :=
            {| current_text := extracted_text; processing_stats := metadata |} in
          (* Save to database *)
          let db_conn :=
            match save_to_db, db_conn with
            | true, Some _ =>
                snd (save_to_database db_conn now (PStr (file_name uploaded_file))
                                      (PStr extracted_text) metadata)
            | _, _ => db_conn
            end in
          Ok (state, db_conn, None)
      end
  end.

(** Batch mode: the body of the [for idx, file in
    enumerate(uploaded_files)] loop. [now] is what
    [datetime.now().isoformat()] returns when the record of this file is
    saved. *)
Definition process_file (now : pystr) (acc : batch) (file : UploadedFile) : batch :=
  match file_read file with
  | Raise e =>
      {| results := results acc;
         errors := dict_set (errors acc) (file_name file) (exn_str e);
         batch_conn := batch_conn acc |}
  | Ok pdf_bytes =>
      let '(text, pages, error) :=
        extract_text_from_pdf pdf_bytes ocr_lang dpi psm_mode enhance_image denoise in
      match reported_error error with
      | Some message =>
          {| results := results acc;
             errors := dict_set (errors acc) (file_name file) message;
             batch_conn := batch_conn acc |}
      | None =>
          {| results :=
               dict_set (results acc) (file_name file)
                        {| entry_text := text; entry_pages := pages;
                           entry_words := len (split_ws text) |};
             errors := errors acc;
             batch_conn :=
               match save_to_db, batch_conn acc with
               | true, Some _ =>
                   let metadata :=
                     [ (u "page_count", PInt pages);
                       (u "word_count", PInt (len (split_ws text)));
                       (u "character_count", PInt (len text));
                       (u "language", PStr ocr_lang);
                       (u "processing_time", PInt 0);
                       (u "quality_score", PFloat (calculate_quality_score text)) ] in
                   snd (save_to_database (batch_conn acc) now
                                         (PStr (file_name file)) (PStr text) metadata)
               | _, _ => batch_conn acc
               end |}
      end
  end.

(** Batch mode, "Process All". [clock idx] is the time at which the
    record of file number [idx] is saved. *)
Definition process_all_clicked (clock : Z -> pystr)
           (uploaded_files : list UploadedFile) (db_conn : option database)
  : batch :=
  fold_left (fun acc (item : Z * UploadedFile) =>
               let '(idx, file) := item in process_file (clock idx) acc file)
            (enumerate uploaded_files 0)
            {| results := []; errors := []; batch_conn := db_conn |}.

(** *** The outcome of one file, on its own *)
Definition outcome_of (file : UploadedFile) : batch_entry + pystr :=
  match file_read file with
  | Raise e => inr (exn_str e)
  | Ok pdf_bytes =>
      let '(text, pages, error) :=
        extract_text_from_pdf pdf_bytes ocr_lang dpi psm_mode enhance_image denoise in
      match reported_error error with
      | Some message => inr message
      | None => inl {| entry_text := text; entry_pages := pages;
                       entry_words := len (split_ws text) |}
      end
  end.

(** The record batch mode saves for a file that was extracted. *)
Definition batch_record (now : pystr) (name : pystr) (data : batch_entry) : record :=
  {| r_now := now;
     r_filename := PStr name;
     r_text := PStr (entry_text data);
     r_metadata :=
       [ (u "page_count", PInt (entry_pages data));
         (u "word_count", PInt (len (split_ws (entry_text data))));
         (u "character_count", PInt (len (entry_text data)));
         (u "language", PStr ocr_lang);
         (u "processing_time", PInt 0);
         (u "quality_score", PFloat (calculate_quality_score (entry_text data))) ] |}.

(** The records of the files that were extracted, in upload order. *)
Fixpoint batch_records (clock : Z -> pystr) (idx : Z) (files : list UploadedFile)
  : list record :=
  match files with
  | [] => []
  | file :: files' =>
      match outcome_of file with
      | inl data => batch_record (clock idx) (file_name file) data
                      :: batch_records clock (idx + 1) files'
      | inr _ => batch_records clock (idx + 1) files'
      end
  end.

(** The files that were extracted and the files that failed, each with
    its own outcome, in upload order. *)
Definition extracted (files : list UploadedFile) : dict batch_entry :=
  flat_map (fun file => match outcome_of file with
                        | inl data => [(file_name file, data)]
                        | inr _ => []
                        end) files.

Definition failed (files : list UploadedFile) : dict pystr :=
  flat_map (fun file => match outcome_of file with
                        | inl _ => []
                        | inr message => [(file_name file, message)]
                        end) files.
End Handlers.

(** Three uploads for the test doubles above: one that is extracted, one
    the rasterizer rejects, one that cannot be read. *)
Module DemoUpload.
Definition good : UploadedFile :=
  {| file_name := u "report.final.pdf"; file_read := Ok Demo.pdf |}.
Definition empty : UploadedFile :=
  {| file_name := u "empty.pdf"; file_read := Ok [] |}.
Definition unreadable : UploadedFile :=
  {| file_name := u "scan"; file_read := Raise (Exception (u "I/O operation on closed file.")) |}.
Definition files : list UploadedFile := [good; empty; unreadable].
Definition clock (idx : Z) : pystr := u "2024-05-01T09:30:0" ++ str_of_int idx.
End DemoUpload.

(** ** The application: what the clicks do to the session and the history

    The script runs again after every interaction; what survives from
    one run to the next is [st.session_state] and the database behind
    the shared connection. A click that changes either is one of: "Extract
    Text" (single mode), "Process All" (batch mode), "Delete" and "Clear
    All History" (history mode). The sidebar may be changed between two
    clicks, so every click comes with the values of the sidebar. *)
Record sidebar : Type := Sidebar {
  sb_ocr_lang : pystr;
  sb_dpi : Z;
  sb_psm_mode : Z;
  sb_enhance_image : bool;
  sb_denoise : bool;
  sb_save_to_db : bool
}.

Inductive click : Type :=
| Extract_Text (cfg : sidebar) (uploaded_file : UploadedFile)
               (elapsed : PyFloat.float) (now : pystr)
| Process_All (cfg : sidebar) (clock : Z -> pystr)
              (uploaded_files : list UploadedFile)
| Delete (selected_id : Z)
| Clear_All_History.

Record app_state : Type := AppState {
  session : session_state;
  db_conn : option database
}.

(** [db_conn = init_database()] and the defaults of the session state;
    [None] is what [init_database] returns when the database cannot be
    opened. *)
Definition started (conn : option database) : app_state :=
  {| session := initial_session; db_conn := conn |}.

Section Application.
Context {UDB : UnicodeDB} {Image : Type} {PIL : ImageLib Image}
        {OCR : OcrEngine Image} {SQL : SqliteEngine}.

(** One click. An exception that leaves the handler of "Extract Text"
    ends the run of the script with the state as it was. *)
Definition handle (a : app_state) (c : click) : app_state :=
  match c with
  | Extract_Text cfg uploaded_file elapsed now =>
      match extract_clicked (sb_ocr_lang cfg) (sb_dpi cfg) (sb_psm_mode cfg)
                            (sb_enhance_image cfg) (sb_denoise cfg)
                            (sb_save_to_db cfg)
                            uploaded_file elapsed now (session a) (db_conn a) with
      | Ok (state, conn, _) => {| session := state; db_conn := conn |}
      | Raise _ => a
      end
  | Process_All cfg clock uploaded_files =>
      {| session := session a;
         db_conn :=
           batch_conn
             (process_all_clicked (sb_ocr_lang cfg) (sb_dpi cfg) (sb_psm_mode cfg)
                                  (sb_enhance_image cfg) (sb_denoise cfg)
                                  (sb_save_to_db cfg)
                                  clock uploaded_files (db_conn a)) |}
  | Delete selected_id =>
      {| session := session a;
         db_conn :=
           match db_conn a with
           | Some db => Some (delete_one db selected_id)
           | None => None
           end |}
  | Clear_All_History =>
      {| session := session a;
         db_conn :=
           match db_conn a with
           | Some db => Some (delete_all db)
           | None => None
           end |}
  end.

Definition run (clicks : list click) (a : app_state) : app_state := fold_left handle clicks a.

(** *** What the specification asks of a persisted record

    The counts and the score of a row are those of the text of the row. *)
Definition row_consistent (r : row) : Prop :=
  exists (name text lang : pystr) (pages : Z),
    filename r = apply_affinity TEXT (SqlText name)
    /\ extracted_text r = apply_affinity TEXT (SqlText text)
    /\ language r = apply_affinity TEXT (SqlText lang)
    /\ page_count r = apply_affinity INTEGER (SqlInteger pages)
    /\ word_count r = apply_affinity INTEGER (SqlInteger (len (split_ws text)))
    /\ character_count r = apply_affinity INTEGER (SqlInteger (len text))
    /\ quality_score r
       = apply_affinity REAL (SqlReal (calculate_quality_score text)).

(** The statistics of the session are those of its text, or the session
    is as it was when the application started. *)
Definition session_consistent (s : session_state) : Prop :=
  s = initial_session
  \/ (dict_get (processing_stats s) (u "word_count")
      = Some (PInt (len (split_ws (current_text s))))
      /\ dict_get (processing_stats s) (u "character_count")
         = Some (PInt (len (current_text s)))
      /\ dict_get (processing_stats s) (u "quality_score")
         = Some (PFloat (calculate_quality_score (current_text s)))).

(** The ids of the rows grow in the order of insertion and none exceeds
    the largest id ever given out. *)
Definition ids_in_order (db : database) : Prop :=
  StronglySorted Z.lt (map id (extractions db))
  /\ Forall (fun r => 0 < id r <= sequence db) (extractions db).

(** What the handlers pass to [save_to_database]: a name, a text, and
    statistics computed from that text. *)
Definition record_consistent (r : record) : Prop :=
  exists (name text lang : pystr) (pages : Z),
    r_filename r = PStr name /\ r_text r = PStr text
    /\ dict_get_default (r_metadata r) (u "language") (PStr (u "eng")) = PStr lang
    /\ dict_get_default (r_metadata r) (u "page_count") (PInt 0) = PInt pages
    /\ dict_get_default (r_metadata r) (u "word_count") (PInt 0)
       = PInt (len (split_ws text))
    /\ dict_get_default (r_metadata r) (u "character_count") (PInt 0)
       = PInt (len text)
    /\ dict_get_default (r_metadata r) (u "quality_score") (PInt 0)
       = PFloat (calculate_quality_score text).

(** The invariant of the history, and what a later state of the history
    is to an earlier one: rows are only removed or added, and an added
    row has an id above every id given out before. *)
Definition history_invariant (conn : option database) : Prop :=
  match conn with
  | Some db => Forall row_consistent (extractions db) /\ ids_in_order db
               /\ 0 <= sequence db
  | None => True
  end.

Definition later (conn conn' : option database) : Prop :=
  match conn, conn' with
  | Some db, Some db' =>
      sequence db <= sequence db'
      /\ Forall (fun r => In r (extractions db) \/ sequence db < id r)
                (extractions db')
  | None, None => True
  | _, _ => False
  end.
End Application.

(** A session with the test doubles: a batch of three uploads, then the
    first record is deleted and one file is extracted in single mode. *)
Module DemoApp.
Definition cfg : sidebar :=
  {| sb_ocr_lang := u "eng"; sb_dpi := 300; sb_psm_mode := 3;
     sb_enhance_image := true; sb_denoise := true; sb_save_to_db := true |}.

Definition first : list click :=
  [ Process_All cfg DemoUpload.clock DemoUpload.files ].

Definition more : list click :=
  [ Delete 1;
    Extract_Text cfg DemoUpload.good DemoFloat.f_2_5 (u "2024-05-01T10:00:00") ].

Definition reached (clicks : list click) : app_state :=
  run (UDB:=AsciiDB.db) (PIL:=Demo.pil) (OCR:=Demo.ocr) (SQL:=DemoStore.sqlite)
      clicks (started (Some empty_database)).

Definition earlier : database :=
  match db_conn (reached first) with
  | Some db => db
  | None => empty_database
  end.
End DemoApp.

(** ** Word and Excel export: [export_to_word], [export_to_excel]

    Both functions build a document by a sequence of calls to a library
    (python-docx, openpyxl), save it to a buffer and return the buffer;
    any exception makes them return [None]. The library is an interface:
    a document can be created, modified by a call, and saved, and each
    of these may raise. The arguments of the calls are computed by the
    function; computing one may raise as well. *)
Class DocumentLib (Call Doc : Type) := {
  (** [Document()], [openpyxl.Workbook()] *)
  lib_new : result Doc;
  (** one call on the document *)
  lib_call : Doc -> Call -> result Doc;
  (** [doc.save(buffer)]: the content of the buffer *)
  lib_save : Doc -> result (list Byte.byte)
}.

Section Produce.
Context {Call Doc : Type} {LIB : DocumentLib Call Doc}.

(** The steps in order: a step is a call whose arguments were computed,
    or the exception raised while computing them. The first exception
    ends the sequence. *)
Fixpoint play (doc : Doc) (steps : list (result Call)) : result Doc :=
  match steps with
  | [] => Ok doc
  | Raise e :: _ => Raise e
  | Ok call :: steps' =>
      match lib_call doc call with
      | Ok doc' => play doc' steps'
      | Raise e => Raise e
      end
  end.

(** [try: doc = new(); steps; doc.save(buffer); return buffer
     except Exception: return None] *)
Definition produce (steps : list (result Call)) : option (list Byte.byte) :=
  match lib_new with
  | Raise _ => None
  | Ok doc =>
      match play doc steps with
      | Raise _ => None
      | Ok doc' =>
          match lib_save doc' with
          | Ok buffer => Some buffer
          | Raise _ => None
          end
      end
  end.
End Produce.

(** [s.split(sep)] for the two-character separator [a b]: the
    occurrences are found from left to right and do not overlap. *)
Fixpoint split_on2_aux (a b : codepoint) (cur : pystr) (s : pystr) : list pystr :=
  match s with
  | [] => [rev cur]
  | c :: s' =>
      match s' with
      | c' :: s'' =>
          if (c =? a)%N && (c' =? b)%N then rev cur :: split_on2_aux a b [] s''
          else split_on2_aux a b (c :: cur) s'
      | [] => [rev (c :: cur)]
      end
  end.

Definition split_on2 (a b : codepoint) (s : pystr) : list pystr :=
  split_on2_aux a b [] s.

(** Formatting in f-strings: [format(v, '')], which is [str(v)] for the
    values at hand, and [format(x, '.1f')] on a float are an interface,
    like [float.__repr__]. *)
Class Formatter := {
  py_str : pyval -> pystr;
  format_1f : PyFloat.float -> pystr
}.

(** The calls of python-docx in use. *)
Inductive docx_call : Type :=
| add_heading (text : pystr) (level : Z)
| add_paragraph (text : pystr).

Section Word.
Context {UDB : UnicodeDB} {FMT : Formatter}.

(** [format(v, '.1f')]: floats are formatted, integers and booleans are
    converted to a float first (which overflows on large integers), and
    every other type rejects the format. *)
Definition format_value_1f (v : pyval) : result pystr :=
  match v with
  | PFloat x => Ok (format_1f x)
  | PInt n =>
      match PyFloat.of_int n with
      | S754_infinity _ => Raise (Exception (u "int too large to convert to float"))
      | x => Ok (format_1f x)
      end
  | PBool b => Ok (format_1f (PyFloat.of_int (if b then 1 else 0)))
  | PStr _ =>
      Raise (Exception (u "Unknown format code 'f' for object of type 'str'"))
  | PNone =>
      Raise (Exception (u "unsupported format string passed to NoneType.__format__"))
  | PList _ =>
      Raise (Exception (u "unsupported format string passed to list.__format__"))
  | PDict _ =>
      Raise (Exception (u "unsupported format string passed to dict.__format__"))
  end.

(** A string without whitespace at its ends. *)
Definition no_space_first (s : pystr) : Prop :=
  match s with
  | c :: _ => py_isspace c = false
  | [] => True
  end.

Definition trimmed (s : pystr) : Prop :=
  no_space_first s /\ no_space_first (rev s).

(** The values [format(v, '.1f')] accepts. *)
Definition is_number (v : pyval) : bool :=
  match v with
  | PFloat _ | PInt _ | PBool _ => true
  | _ => false
  end.

(** The paragraphs of the content: [para.strip()] for every [para] of
    [text.split('\n\n')] for which it is not empty. *)
Fixpoint content_paragraphs (paras : list pystr) : list pystr :=
  match paras with
  | [] => []
  | para :: paras' =>
      match strip para with
      | [] => content_paragraphs paras'
      | stripped => stripped :: content_paragraphs paras'
      end
  end.

(** The steps of [export_to_word]; [now] is what
    [datetime.now().strftime("%Y-%m-%d %H:%M:%S")] returns. *)
Definition word_steps (text filename : pystr) (metadata : option (dict pyval))
           (now : pystr) : list (result docx_call) :=
  (* Title *)
  [ Ok (add_heading (u "OCR Extraction Results") 0);
  (* Metadata *)
    Ok (add_paragraph (u "Source: " ++ filename));
    Ok (add_paragraph (u "Date: " ++ now)) ]
  ++ match metadata with
     | Some (entry :: entries) =>
         let metadata := entry :: entries in
         [ Ok (add_paragraph
                 (u "Pages: "
                    ++ py_str (dict_get_default metadata (u "page_count")
                                                (PStr (u "N/A")))));
           Ok (add_paragraph
                 (u "Words: "
                    ++ py_str (dict_get_default metadata (u "word_count")
                                                (PStr (u "N/A")))));
           match format_value_1f (dict_get_default metadata (u "quality_score")
                                                   (PStr (u "N/A"))) with
           | Ok quality => Ok (add_paragraph (u "Quality: " ++ quality ++ u "%"))
           | Raise e => Raise e
           end ]
     | _ => []
     end
  ++ [ Ok (add_paragraph []);
       Ok (add_heading (u "Extracted Text") 1) ]
  (* Content *)
  ++ map (fun para => Ok (add_paragraph para))
         (content_paragraphs (split_on2 LF LF text)).

Definition export_to_word {Doc : Type} {DOCX : DocumentLib docx_call Doc}
           (text filename : pystr) (metadata : option (dict pyval)) (now : pystr)
  : option (list Byte.byte) :=
  produce (word_steps text filename metadata now).
End Word.

(** The calls of openpyxl in use. The two sheets are [ws1], the active
    sheet of the new workbook, and [ws2], the sheet created later. *)
Inductive sheet : Type := ws1 | ws2.

Inductive xlsx_call : Type :=
| set_title (ws : sheet) (title : pystr)                 (* ws.title = title *)
| set_cell (ws : sheet) (cell : pystr) (value : pyval)   (* ws[cell] = value *)
| set_font (ws : sheet) (cell : pystr) (bold : bool) (color : option pystr)
| set_fill (ws : sheet) (cell : pystr) (start_color end_color fill_type : pystr)
| set_width (ws : sheet) (column : pystr) (width : Z)
| create_sheet (title : pystr).                          (* ws2 = wb.create_sheet(title) *)

Section Excel.
Context {UDB : UnicodeDB}.

(** [len([l for l in lines if l.strip()])] *)
Definition non_empty_lines (lines : list pystr) : Z :=
  len (filter (fun l => match strip l with [] => false | _ => true end) lines).

(** The list [stats] *)
Definition excel_stats (text : pystr) : list (pystr * Z) :=
  let lines := split_on LF text in
  [ (u "Total Lines", len lines);
    (u "Total Words", len (split_ws text));
    (u "Total Characters", len text);
    (u "Non-empty Lines", non_empty_lines lines);
    (u "Average Line Length", len text / Z.max (len lines) 1) ].

Definition excel_steps (text : pystr) : list xlsx_call :=
  (* Text sheet *)
  [ set_title ws1 (u "Extracted Text");
    set_cell ws1 (u "A1") (PStr (u "Line"));
    set_cell ws1 (u "B1") (PStr (u "Content"));
    set_font ws1 (u "A1") true (Some (u "FFFFFF"));
    set_font ws1 (u "B1") true (Some (u "FFFFFF"));
    set_fill ws1 (u "A1") (u "4472C4") (u "4472C4") (u "solid");
    set_fill ws1 (u "B1") (u "4472C4") (u "4472C4") (u "solid") ]
  ++ flat_map (fun item : Z * pystr =>
                 let '(i, line) := item in
                 [ set_cell ws1 (u "A" ++ str_of_int i) (PInt (i - 1));
                   set_cell ws1 (u "B" ++ str_of_int i) (PStr line) ])
              (enumerate (split_on LF text) 2)
  ++ [ set_width ws1 (u "A") 10;
       set_width ws1 (u "B") 100;
  (* Analysis sheet *)
       create_sheet (u "Statistics");
       set_cell ws2 (u "A1") (PStr (u "Metric"));
       set_cell ws2 (u "B1") (PStr (u "Value"));
       set_font ws2 (u "A1") true None;
       set_font ws2 (u "B1") true None ]
  ++ flat_map (fun item : Z * (pystr * Z) =>
                 let '(i, (metric, value)) := item in
                 [ set_cell ws2 (u "A" ++ str_of_int i) (PStr metric);
                   set_cell ws2 (u "B" ++ str_of_int i) (PInt value) ])
              (enumerate (excel_stats text) 2)
  ++ [ set_width ws2 (u "A") 25;
       set_width ws2 (u "B") 15 ].

Definition export_to_excel {Doc : Type} {XLSX : DocumentLib xlsx_call Doc}
           (text filename : pystr) : option (list Byte.byte) :=
  produce (map Ok (excel_steps text)).
End Excel.

(** A library whose calls all succeed and which keeps the calls it
    received, and a formatter for a few values. *)
Module DemoDocx.
Definition lib (Call : Type) : DocumentLib Call (list Call) :=
  {| lib_new := Ok [];
     lib_call := fun doc call => Ok (doc ++ [call]);
     lib_save := fun doc => Ok [Byte.x50; Byte.x4b] |}.

Definition formatter : Formatter :=
  {| py_str := fun v =>
       match v with
       | PInt n => str_of_int n
       | PStr s => s
       | _ => u "None"
       end;
     format_1f := fun x => float_repr (FloatText:=DemoFloat.text) x |}.
End DemoDocx.

(** ** More words for the statements *)

(** The id of a row of the history listing. *)
Definition listed_id (l : listed) : Z :=
  let '(i, _, _, _, _, _, _, _) := l in i.

(** A character [json.dumps] may write: printable ASCII or a line feed. *)
Definition json_safe (c : codepoint) : bool :=
  (c =? 10)%N || ((32 <=? c) && (c <=? 126))%N.

Definition safe (s : pystr) : Prop := Forall (fun c => json_safe c = true) s.

(** The floats of a value. *)
Fixpoint floats_in (v : pyval) : list PyFloat.float :=
  match v with
  | PFloat x => [x]
  | PList items => flat_map floats_in items
  | PDict entries => flat_map (fun kv => floats_in (snd kv)) entries
  | _ => []
  end.

(* ================================================================== *)
(** * Part II: theorems *)
(* ================================================================== *)

(** ** Quality score *)
Section QualityFacts.
Context {UDB : UnicodeDB}.
Import PyFloat.

Lemma calculate_quality_score_cases (text : pystr) :
  calculate_quality_score text = of_int (quality_score_spec text).
Proof.
  unfold calculate_quality_score, quality_score_spec, deductions,
    too_short, low_alnum_ratio, odd_word_length.
  destruct (len (strip text) <? 10);
    destruct (int_true_div (sum_alnum_or_space text) (Z.max (len text) 1) <? lit_0_7)%pf;
    (destruct (split_ws text) as [|w ws] eqn:Hw;
     [ vm_compute; reflexivity | ]).
  all: replace (0 <? len (w :: ws)) with true
    by (symmetry; apply Z.ltb_lt; unfold len; simpl length; lia).
  all: cbv beta iota zeta delta [andb].
  all: destruct ((int_true_div (sum_len (w :: ws)) (len (w :: ws)) <? of_int 2)%pf
            || (int_true_div (sum_len (w :: ws)) (len (w :: ws)) >? of_int 15)%pf).
  all: vm_compute; reflexivity.
Qed.

Lemma checked_up_to_sound (test : Z -> Z -> bool) (bound per : nat) :
  checked_up_to test bound per = true ->
  forall n a, 1 <= n <= Z.of_nat bound -> 0 <= a <= Z.of_nat per * n ->
    test n a = true.
Proof.
  unfold checked_up_to. intros Hall n a Hn Ha.
  rewrite forallb_forall in Hall.
  assert (Hn' : n = Z.of_nat (Z.to_nat n)) by lia.
  assert (Ha' : a = Z.of_nat (Z.to_nat a)) by lia.
  revert Hn Ha. rewrite Hn', Ha'.
  generalize (Z.to_nat n) (Z.to_nat a). clear n a Hn' Ha'. intros n a Hn Ha.
  assert (Hle : (a <= per * n)%nat).
  { apply Nat2Z.inj_le. rewrite Nat2Z.inj_mul. lia. }
  specialize (Hall n). rewrite forallb_forall in Hall.
  apply Hall; apply in_seq; lia.
Qed.

(** For at most 150 characters, "ratio below 0.7" is the comparison of
    the exact fraction with 7/10. *)
Lemma ratio_test_small (a n : Z) :
  1 <= n <= 150 -> 0 <= a <= n ->
  (int_true_div a n <? lit_0_7)%pf = (10 * a <? 7 * n).
Proof.
  intros Hn Ha.
  assert (Hall : checked_up_to ratio_test_exact 150 1 = true)
    by (vm_compute; reflexivity).
  apply Bool.eqb_prop.
  apply (checked_up_to_sound _ _ _ Hall);
    [ change (Z.of_nat 150) with 150 | change (Z.of_nat 1) with 1 ]; lia.
Qed.

(** For at most 40 tokens of at most 20 characters on average, "mean
    length below 2 or above 15" is the comparison of the exact mean. *)
Lemma mean_test_small (s k : Z) :
  1 <= k <= 40 -> 0 <= s <= 20 * k ->
  (int_true_div s k <? of_int 2)%pf || (int_true_div s k >? of_int 15)%pf
  = (s <? 2 * k) || (15 * k <? s).
Proof.
  intros Hk Hs.
  assert (Hall : checked_up_to mean_test_exact 40 20 = true)
    by (vm_compute; reflexivity).
  apply Bool.eqb_prop.
  apply (checked_up_to_sound _ _ _ Hall);
    [ change (Z.of_nat 40) with 40 | change (Z.of_nat 20) with 20 ]; lia.
Qed.

Lemma sum_alnum_or_space_bound (text : pystr) :
  0 <= sum_alnum_or_space text <= len text.
Proof.
  unfold len. induction text as [| c text IH]; cbn [sum_alnum_or_space length].
  - lia.
  - destruct (py_isalnum c || py_isspace c); lia.
Qed.

(** On a text of at most 150 characters the second deduction applies
    exactly when fewer than 7 in 10 characters are alphanumeric or
    whitespace. *)
Lemma low_alnum_ratio_small (text : pystr) :
  len text <= 150 ->
  low_alnum_ratio text
  = (10 * sum_alnum_or_space text <? 7 * Z.max (len text) 1).
Proof.
  intros Hlen. unfold low_alnum_ratio.
  pose proof (sum_alnum_or_space_bound text).
  apply ratio_test_small; lia.
Qed.

(** The float literals of the source are the correctly rounded values of
    the decimals they are written as. *)
Example float_literals :
  lit_0_7 = int_true_div 7 10 /\ lit_2_0 = of_int 2 /\ lit_1_5 = int_true_div 3 2.
Proof. repeat split; vm_compute; reflexivity. Qed.

(** What the score is on the empty text, on a five-character text and on
    an ordinary sentence. *)
Example quality_score_examples :
  calculate_quality_score (UDB:=AsciiDB.db) [] = of_int 20
  /\ calculate_quality_score (UDB:=AsciiDB.db) (u "abcde") = of_int 50
  /\ calculate_quality_score (UDB:=AsciiDB.db)
       (u "The quick brown fox jumps over the lazy dog") = of_int 100.
Proof. repeat split; vm_compute; reflexivity. Qed.
End QualityFacts.

(** ** Image preprocessing *)
Section PreprocessFacts.
Context {Image : Type} {PIL : ImageLib Image}.

Lemma preprocess_image_disabled (image : Image) (denoise : bool) :
  preprocess_image image false denoise = image.
Proof. reflexivity. Qed.

Lemma preprocess_image_stages (image : Image) (enhance denoise : bool) :
  preprocess_image image enhance denoise
  = best_so_far (stages_of enhance denoise) image.
Proof.
  unfold preprocess_image, try_except, preprocess_body, bind, assign, eval,
    read, ret, stages_of.
  destruct enhance; [ | reflexivity ].
  cbn [app best_so_far]. unfold grayscale at 1.
  destruct (image_convert image (u "L")) as [gray | e]; [ | reflexivity ].
  unfold contrast at 1.
  destruct (ImageEnhance_Contrast gray) as [enh | e]; [ | reflexivity ].
  destruct (enhancer_enhance enh PyFloat.lit_2_0) as [contrasted | e];
    [ | reflexivity ].
  unfold sharpness at 1.
  destruct (ImageEnhance_Sharpness contrasted) as [enh' | e]; [ | reflexivity ].
  destruct (enhancer_enhance enh' PyFloat.lit_1_5) as [sharp | e];
    [ | reflexivity ].
  destruct denoise; cbn [best_so_far]; [ | reflexivity ].
  unfold median. destruct (image_filter_median sharp 3); reflexivity.
Qed.

Lemma preprocess_block_returns (image : Image) (enhance denoise : bool) :
  fst (try_except (preprocess_body enhance denoise) (fun _ => read) image)
  = Ok (preprocess_image image enhance denoise).
Proof.
  unfold preprocess_image.
  destruct (try_except (preprocess_body enhance denoise) (fun _ => read) image)
    as [[v | e] s] eqn:E; [ reflexivity | exfalso ].
  unfold try_except, read in E.
  destruct (preprocess_body enhance denoise image) as [[v' | e'] s'];
    discriminate E.
Qed.
End PreprocessFacts.

(** C7: [preprocess_image] never lets an exception out of its [try] block
    (the block always ends in a returned image); with [enhance] false the
    image comes back unchanged; otherwise the result is the image of the
    last transformation stage that succeeded (grayscale, contrast 2.0,
    sharpness 1.5, and the 3x3 median filter when [denoise] is set). *)
Theorem preprocess_image_never_raises :
  forall (Image : Type) (PIL : ImageLib Image) (image : Image)
         (enhance denoise : bool),
    fst (try_except (preprocess_body enhance denoise) (fun _ => read) image)
    = Ok (preprocess_image image enhance denoise)
    /\ preprocess_image image false denoise = image
    /\ preprocess_image image enhance denoise
       = best_so_far (stages_of enhance denoise) image.
Proof.
  intros. split; [ | split ].
  - apply preprocess_block_returns.
  - apply preprocess_image_disabled.
  - apply preprocess_image_stages.
Qed.

(** ** Core OCR function *)
Section ExtractFacts.
Context {UDB : UnicodeDB} {Image : Type} {PIL : ImageLib Image}
        {OCR : OcrEngine Image}.
Variables (ocr_lang : pystr) (psm_mode : Z) (enhance denoise : bool).

Let config : pystr := u "--oem 3 --psm " ++ str_of_int psm_mode.

Lemma process_page_block (acc : pystr) (idx : Z) (image : Image) :
  process_page ocr_lang config enhance denoise acc (idx, image)
  = acc ++ page_block ocr_lang psm_mode enhance denoise (idx + 1) image.
Proof.
  unfold process_page, page_block, ocr_input. fold config.
  destruct (image_to_string _ ocr_lang config); [ | reflexivity ].
  now rewrite <- app_assoc.
Qed.

Lemma process_pages_blocks (images : list Image) :
  forall (idx : Z) (acc : pystr),
    fold_left (process_page ocr_lang config enhance denoise)
              (enumerate images idx) acc
    = acc ++ page_blocks ocr_lang psm_mode enhance denoise (idx + 1) images.
Proof.
  induction images as [| image images IH]; intros idx acc; cbn [enumerate fold_left page_blocks].
  - now rewrite app_nil_r.
  - rewrite process_page_block, IH. now rewrite <- app_assoc.
Qed.

Lemma page_blocks_app (before after : list Image) :
  forall n : Z,
    page_blocks ocr_lang psm_mode enhance denoise n (before ++ after)
    = page_blocks ocr_lang psm_mode enhance denoise n before
      ++ page_blocks ocr_lang psm_mode enhance denoise (n + len before) after.
Proof.
  induction before as [| image before IH]; intros n; cbn [app page_blocks].
  - unfold len. cbn [length]. now rewrite Z.add_0_r.
  - rewrite IH, <- app_assoc. do 3 f_equal. unfold len. cbn [length]. lia.
Qed.

Lemma extract_text_from_pdf_pages (pdf_bytes : list Byte.byte) (dpi : Z)
      (images : list Image) :
  convert_from_bytes pdf_bytes dpi (u "jpeg") = Ok images ->
  extract_text_from_pdf pdf_bytes ocr_lang dpi psm_mode enhance denoise
  = (page_blocks ocr_lang psm_mode enhance denoise 1 images, len images, None).
Proof.
  intros Hraster. unfold extract_text_from_pdf. rewrite Hraster.
  fold config. now rewrite process_pages_blocks.
Qed.
End ExtractFacts.



(** C2: when the rasterization step raises, [extract_text_from_pdf]
    returns the empty text, zero pages and the message of the exception as
    a non-null error; and whenever the function returns an error at all,
    the text is empty and the page count zero. *)
Theorem extract_text_rasterization_failure :
  forall (UDB : UnicodeDB) (Image : Type) (PIL : ImageLib Image)
         (OCR : OcrEngine Image) (pdf_bytes : list Byte.byte)
         (ocr_lang : pystr) (dpi psm_mode : Z) (enhance denoise : bool)
         (e : exn),
    convert_from_bytes pdf_bytes dpi (u "jpeg") = Raise e ->
    extract_text_from_pdf pdf_bytes ocr_lang dpi psm_mode enhance denoise
    = ([], 0, Some (exn_str e))
    /\ (forall pdf_bytes' ocr_lang' dpi' psm_mode' enhance' denoise'
               text pages error,
           extract_text_from_pdf pdf_bytes' ocr_lang' dpi' psm_mode'
                                 enhance' denoise'
           = (text, pages, Some error) ->
           text = [] /\ pages = 0).
Proof.
  intros UDB Image PIL OCR pdf_bytes ocr_lang dpi psm_mode enhance denoise e
         Hraster.
  split.
  - unfold extract_text_from_pdf. now rewrite Hraster.
  - intros pdf_bytes' ocr_lang' dpi' psm_mode' enhance' denoise' text pages error.
    unfold extract_text_from_pdf.
    destruct (convert_from_bytes pdf_bytes' dpi' (u "jpeg")); intros H.
    + discriminate H.
    + injection H as <- <- _. now split.
Qed.

Lemma extract_text_rasterization_failure_witness :
  @convert_from_bytes _ Demo.ocr [] 300 (u "jpeg")
  = Raise (Exception (u "Unable to get page count."))
  /\ @extract_text_from_pdf AsciiDB.db _ Demo.pil Demo.ocr [] (u "eng")
       300 3 true true
     = ([], 0, Some (u "Unable to get page count.")).
Proof.
  split; [ reflexivity | ].
  exact (proj1 (@extract_text_rasterization_failure AsciiDB.db _ Demo.pil
                  Demo.ocr [] (u "eng") 300 3 true true _ eq_refl)).
Defined.

(** ** Search *)
Section StringFacts.
Lemma startswith_prefix (q : pystr) :
  forall s, startswith q s = true <-> exists after, s = q ++ after.
Proof.
  induction q as [| a q IH]; intros s; cbn [startswith].
  - split; [ intros _; now exists s | reflexivity ].
  - destruct s as [| b s].
    + split; [ discriminate | intros [after H]; discriminate H ].
    + rewrite andb_true_iff, N.eqb_eq, IH. split.
      * intros [-> [after ->]]. now exists after.
      * intros [after H]. injection H as -> ->. split; [ reflexivity | now exists after ].
Qed.

Lemma contains_substring (q : pystr) :
  forall s, contains q s = true <-> exists before after, s = before ++ q ++ after.
Proof.
  induction s as [| c s IH]; cbn [contains]; rewrite orb_true_iff, startswith_prefix.
  - split.
    + intros [[after H] | H]; [ | discriminate H ]. now exists [], after.
    + intros [before [after H]]. left. destruct before; [ now exists after | discriminate H ].
  - rewrite IH. split.
    + intros [[after H] | [before [after H]]].
      * now exists [], after.
      * exists (c :: before), after. now rewrite H.
    + intros [[| b before] [after H]].
      * left. now exists after.
      * right. injection H as _ H. now exists before, after.
Qed.

Lemma enumerate_In (A : Type) (xs : list A) :
  forall (start i : Z) (x : A),
    In (i, x) (enumerate xs start)
    <-> start <= i /\ nth_error xs (Z.to_nat (i - start)) = Some x.
Proof.
  induction xs as [| y xs IH]; intros start i x; cbn [enumerate In].
  - split; [ tauto | intros [_ H]; now destruct (Z.to_nat (i - start)) ].
  - rewrite IH. split.
    + intros [H | [Hle Hnth]].
      * injection H as -> ->. rewrite Z.sub_diag. split; [ lia | reflexivity ].
      * split; [ lia | ].
        replace (Z.to_nat (i - start)) with (S (Z.to_nat (i - (start + 1)))) by lia.
        exact Hnth.
    + intros [Hle Hnth]. destruct (Z.eq_dec i start) as [-> | Hne].
      * left. rewrite Z.sub_diag in Hnth. cbn in Hnth. now injection Hnth as ->.
      * right. split; [ lia | ].
        replace (Z.to_nat (i - start)) with (S (Z.to_nat (i - (start + 1)))) in Hnth by lia.
        exact Hnth.
Qed.

Lemma enumerate_filter_sorted (A : Type) (keep : Z * A -> bool) (xs : list A) :
  forall start : Z,
    StronglySorted Z.lt (map fst (filter keep (enumerate xs start))).
Proof.
  induction xs as [| y xs IH]; intros start; cbn [enumerate filter].
  - constructor.
  - destruct (keep (start, y)); [ | apply IH ].
    cbn [map fst]. constructor; [ apply IH | ].
    apply Forall_forall. intros i Hi.
    apply in_map_iff in Hi. destruct Hi as [[j x] [<- Hin]].
    apply filter_In in Hin. destruct Hin as [Hin _].
    apply enumerate_In in Hin. cbn [fst]. lia.
Qed.

Lemma split_on_aux_nonempty (sep : codepoint) (s : pystr) :
  forall cur, split_on_aux sep cur s <> [].
Proof.
  induction s as [| c s IH]; intros cur; cbn [split_on_aux].
  - discriminate.
  - destruct (c =? sep)%N; [ discriminate | apply IH ].
Qed.

Lemma join_lines_cons (l : pystr) (rest : list pystr) :
  rest <> [] -> join_lines (l :: rest) = l ++ LF :: join_lines rest.
Proof. destruct rest; [ congruence | reflexivity ]. Qed.

Lemma split_on_aux_join (s : pystr) :
  forall cur, join_lines (split_on_aux LF cur s) = rev cur ++ s.
Proof.
  induction s as [| c s IH]; intros cur; cbn [split_on_aux].
  - cbn. now rewrite app_nil_r.
  - destruct (c =? LF)%N eqn:E.
    + apply N.eqb_eq in E. subst c.
      rewrite join_lines_cons by apply split_on_aux_nonempty.
      now rewrite IH.
    + rewrite IH. cbn [rev]. now rewrite <- app_assoc.
Qed.

Lemma split_on_aux_no_sep (s : pystr) :
  forall cur, ~ In LF cur ->
    Forall (fun l => ~ In LF l) (split_on_aux LF cur s).
Proof.
  induction s as [| c s IH]; intros cur Hcur; cbn [split_on_aux].
  - constructor; [ | constructor ]. now rewrite <- in_rev.
  - destruct (c =? LF)%N eqn:E.
    + constructor; [ now rewrite <- in_rev | apply IH; intros [] ].
    + apply IH. intros [H | H]; [ | contradiction ].
      subst c. now rewrite N.eqb_refl in E.
Qed.
End StringFacts.

Section SearchFacts.
Context {UDB : UnicodeDB}.

Lemma split_on_lines (text : pystr) : lines_of text (split_on LF text).
Proof.
  unfold lines_of, split_on. split; [ apply split_on_aux_nonempty | split ].
  - apply split_on_aux_join.
  - apply split_on_aux_no_sep. intros [].
Qed.

Lemma search_fold_filter (query : pystr) (case_sensitive : bool)
      (entries : list (Z * pystr)) :
  forall matches,
    fold_left (search_step query case_sensitive) entries matches
    = matches ++ filter (keeps query case_sensitive) entries.
Proof.
  induction entries as [| [i line] entries IH]; intros matches;
    cbn [fold_left filter].
  - now rewrite app_nil_r.
  - rewrite IH. unfold search_step, keeps, fold_case. cbn [snd].
    destruct case_sensitive;
      match goal with |- context [contains ?q ?l] => destruct (contains q l) end;
      try reflexivity; now rewrite <- app_assoc.
Qed.

Lemma search_in_text_filter (text : pystr) (c : codepoint) (query : pystr)
      (case_sensitive : bool) :
  search_in_text text (c :: query) case_sensitive
  = filter (keeps (c :: query) case_sensitive) (enumerate (split_on LF text) 1).
Proof. unfold search_in_text. now rewrite search_fold_filter. Qed.

Lemma search_in_text_matching (text : pystr) (c : codepoint) (query : pystr)
      (case_sensitive : bool) (i : Z) (line : pystr) :
  In (i, line) (search_in_text text (c :: query) case_sensitive)
  <-> matching_line (split_on LF text) (c :: query) case_sensitive i line.
Proof.
  rewrite search_in_text_filter, filter_In, enumerate_In.
  unfold keeps, matching_line, substring. cbn [snd].
  rewrite contains_substring. tauto.
Qed.

Lemma search_in_text_sorted (text query : pystr) (case_sensitive : bool) :
  StronglySorted Z.lt (map fst (search_in_text text query case_sensitive)).
Proof.
  destruct query as [| c query]; [ constructor | ].
  rewrite search_in_text_filter. apply enumerate_filter_sorted.
Qed.
End SearchFacts.

(** C5 (as amended): [search_in_text] returns nothing for the empty query;
    otherwise it splits the text at line feeds into lines numbered from 1
    and returns, in increasing line order, exactly the pairs (line number,
    original line) of the lines that contain the query as a literal
    substring, both sides being lowercased when the search is not case
    sensitive. On "Hello\nworld\nHELLO again" with query "hello" the
    case-insensitive search returns lines 1 and 3 and the case-sensitive
    search returns no line. *)
Theorem search_in_text_contract :
  forall (UDB : UnicodeDB) (text : pystr) (c : codepoint) (query : pystr)
         (case_sensitive : bool),
    search_in_text text [] case_sensitive = []
    /\ lines_of text (split_on LF text)
    /\ (forall i line,
           In (i, line) (search_in_text text (c :: query) case_sensitive)
           <-> matching_line (split_on LF text) (c :: query) case_sensitive i line)
    /\ StronglySorted Z.lt
         (map fst (search_in_text text (c :: query) case_sensitive))
    /\ search_in_text (UDB:=AsciiDB.db)
         (u "Hello" ++ LF :: u "world" ++ LF :: u "HELLO again") (u "hello") false
       = [(1, u "Hello"); (3, u "HELLO again")]
    /\ search_in_text (UDB:=AsciiDB.db)
         (u "Hello" ++ LF :: u "world" ++ LF :: u "HELLO again") (u "hello") true
       = [].
Proof.
  intros UDB text c query case_sensitive.
  split; [ reflexivity | ].
  split; [ apply split_on_lines | ].
  split; [ intros i line; apply search_in_text_matching | ].
  split; [ apply search_in_text_sorted | ].
  split; vm_compute; reflexivity.
Qed.

(** C5, the example as the specification words it: the case-sensitive search for
    "hello" does not return line 1, whose content is "Hello". *)
Lemma search_case_sensitive_hello_counterexample :
  map fst (search_in_text (UDB:=AsciiDB.db)
             (u "Hello" ++ LF :: u "world" ++ LF :: u "HELLO again")
             (u "hello") true)
  <> [1].
Proof. vm_compute. discriminate. Qed.

(** ** Quality score: the stated properties *)


Lemma quality_score_spec_values (UDB : UnicodeDB) (text : pystr) :
  In (quality_score_spec text) [0; 20; 30; 50; 70; 80; 100].
Proof.
  unfold quality_score_spec, deductions.
  destruct (too_short text), (low_alnum_ratio text), (odd_word_length text);
    vm_compute; tauto.
Qed.

(** C4: for every text, the empty one included, the score is at least 0.0
    and at most 100.0. *)
Theorem calculate_quality_score_range :
  forall (UDB : UnicodeDB) (text : pystr),
    (PyFloat.of_int 0 <=? calculate_quality_score text)%pf = true
    /\ (calculate_quality_score text <=? PyFloat.of_int 100)%pf = true
    /\ (PyFloat.of_int 0 <=? calculate_quality_score (UDB:=UDB) [])%pf = true
    /\ (calculate_quality_score (UDB:=UDB) [] <=? PyFloat.of_int 100)%pf = true.
Proof.
  intros UDB text.
  assert (Hrange : forall t : pystr,
             (PyFloat.of_int 0 <=? calculate_quality_score t)%pf = true
             /\ (calculate_quality_score t <=? PyFloat.of_int 100)%pf = true).
  { intros t. rewrite calculate_quality_score_cases.
    pose proof (quality_score_spec_values UDB t) as Hv. cbn [In] in Hv.
    repeat (destruct Hv as [<- | Hv]; [ split; vm_compute; reflexivity | ]).
    contradiction. }
  split; [ apply Hrange | split; [ apply Hrange | apply Hrange ] ].
Qed.

(** C10: the score is one of 0, 20, 30, 50, 70, 80 and 100. *)
Theorem calculate_quality_score_values :
  forall (UDB : UnicodeDB) (text : pystr),
    In (calculate_quality_score text)
       (map PyFloat.of_int [0; 20; 30; 50; 70; 80; 100]).
Proof.
  intros UDB text. rewrite calculate_quality_score_cases.
  apply in_map, quality_score_spec_values.
Qed.

(** ** Entity extraction *)
Section MatcherFacts.
Context {UDB : UnicodeDB}.
Import Re.

Lemma follows_refl (cur : cursor) : follows cur cur.
Proof. exists 0%nat. split; lia. Qed.

Lemma follows_trans (a b c : cursor) : follows a b -> follows b c -> follows a c.
Proof.
  intros [n [Hpos Hlen]] [m [Hpos' Hlen']]. exists (n + m)%nat. split; lia.
Qed.

(** The greedy loop does not depend on its fuel once the fuel exceeds the
    length of the remaining subject: it never stops for lack of fuel. *)
Lemma rep_loop_fuel (body : kont -> kont) (lo : nat) (hi : option nat) :
  local body ->
  forall fuel1 fuel2 count (k1 k2 : kont) cur,
    (length (rest cur) < fuel1)%nat -> (length (rest cur) < fuel2)%nat ->
    (forall cur', follows cur cur' -> k1 cur' = k2 cur') ->
    rep_loop body lo hi fuel1 count k1 cur = rep_loop body lo hi fuel2 count k2 cur.
Proof.
  intros Hlocal. induction fuel1 as [| fuel1 IH];
    intros fuel2 count k1 k2 cur H1 H2 Hk; [ lia | ].
  destruct fuel2 as [| fuel2]; [ lia | ]. cbn [rep_loop].
  rewrite (Hk cur (follows_refl cur)).
  destruct (may_repeat hi count); [ | reflexivity ].
  erewrite Hlocal; [ reflexivity | ].
  intros cur' Hfollows. cbv beta.
  destruct (pos cur <? pos cur')%nat eqn:Hmoved; [ | reflexivity ].
  apply Nat.ltb_lt in Hmoved. destruct Hfollows as [n [Hpos Hlen]].
  apply IH; try lia.
  intros cur'' Hfollows'. apply Hk.
  apply follows_trans with cur'; [ exists n; split; lia | exact Hfollows' ].
Qed.

Lemma rmatch_local (r : regex) : local (rmatch r).
Proof.
  induction r as [| accept | r1 IH1 r2 IH2 | r IH lo hi | | r IH];
    intros k1 k2 cur Hk; cbn [rmatch].
  - apply Hk, follows_refl.
  - destruct (rest cur) as [| c rest'] eqn:Hrest; [ reflexivity | ].
    destruct (accept c); [ | reflexivity ].
    apply Hk. exists 1%nat. cbn [advance pos rest]. rewrite Hrest. cbn [length].
    split; lia.
  - apply IH1. intros cur' Hfollows. apply IH2.
    intros cur'' Hfollows'. apply Hk. now apply follows_trans with cur'.
  - apply rep_loop_fuel; [ exact IH | lia | lia | exact Hk ].
  - destruct (xorb (word_before cur) (word_after cur)); [ | reflexivity ].
    apply Hk, follows_refl.
  - apply IH. intros cur' [n [Hpos Hlen]]. apply Hk.
    exists n. cbn [set_group pos rest]. split; assumption.
Qed.

(** More fuel than [rmatch] gives the loop changes nothing. *)
Lemma rmatch_rep_fuel (r : regex) (lo : nat) (hi : option nat) (k : kont)
      (cur : cursor) (extra : nat) :
  rep_loop (rmatch r) lo hi (S (length (rest cur)) + extra) 0 k cur
  = rmatch (Rep r lo hi) k cur.
Proof.
  cbn [rmatch]. apply rep_loop_fuel; [ apply rmatch_local | lia | lia | reflexivity ].
Qed.
End MatcherFacts.

Section KeyDataFacts.
Context {UDB : UnicodeDB}.
Import Re.

Lemma match_at_start (r : regex) (left : option codepoint) (subject : pystr)
      (at_ : nat) (m : found) :
  match_at r left subject at_ = Some m -> m_start m = at_.
Proof.
  unfold match_at. destruct (rmatch r Some _); [ | discriminate ].
  intros H. injection H as <-. reflexivity.
Qed.

Lemma finditer_from_bound (r : regex) (subject : pystr) :
  forall left at_ skip,
    Forall (fun m => (at_ + skip <= m_start m)%nat)
           (finditer_from r left subject at_ skip).
Proof.
  induction subject as [| c subject IH]; intros left at_ skip.
  - destruct skip; cbn [finditer_from]; [ | constructor ].
    destruct (match_at r left [] at_) as [m |] eqn:E; constructor;
      [ apply match_at_start in E; lia | constructor ].
  - destruct skip; cbn [finditer_from].
    + destruct (match_at r left (c :: subject) at_) as [m |] eqn:E.
      * constructor; [ apply match_at_start in E; lia | ].
        eapply Forall_impl; [ | apply IH ]. cbn beta. intros; lia.
      * eapply Forall_impl; [ | apply IH ]. cbn beta. intros; lia.
    + eapply Forall_impl; [ | apply IH ]. cbn beta. intros; lia.
Qed.

Lemma finditer_from_sorted (r : regex) (subject : pystr) :
  forall left at_ skip,
    StronglySorted (fun a b => (m_start a < m_start b)%nat)
                   (finditer_from r left subject at_ skip).
Proof.
  induction subject as [| c subject IH]; intros left at_ skip.
  - destruct skip; cbn [finditer_from]; [ | constructor ].
    destruct (match_at r left [] at_); repeat constructor.
  - destruct skip; cbn [finditer_from]; [ | apply IH ].
    destruct (match_at r left (c :: subject) at_) as [m |] eqn:E; [ | apply IH ].
    constructor; [ apply IH | ].
    apply match_at_start in E.
    eapply Forall_impl; [ | apply finditer_from_bound ]. cbn beta. intros; lia.
Qed.

Lemma extract_key_data_present (text : pystr) :
  extract_key_data text = present (categories text).
Proof.
  unfold extract_key_data, categories, capped.
  destruct (findall email_re text), (findall phone_re text),
    (findall date_re text), (findall amount_re text); reflexivity.
Qed.

Lemma extract_key_data_get (text : pystr) :
  Forall (fun cat => dict_get (extract_key_data text) (fst cat) = snd cat)
         (categories text).
Proof.
  rewrite extract_key_data_present. unfold categories, capped.
  destruct (findall email_re text), (findall phone_re text),
    (findall date_re text), (findall amount_re text);
    repeat constructor.
Qed.
End KeyDataFacts.

(** C6: the mapping [extract_key_data] returns holds, in the order Emails,
    Phones, Dates, Amounts, exactly the categories whose pattern matched;
    looking a category up gives nothing when its pattern has no match and
    otherwise the first 3 (Amounts: the first 5) of the matches. The
    matches are reported from left to right: they come from [finditer],
    whose matches start at strictly increasing offsets. On
    "john@example.com and jane@test.org" the result has the single
    category Emails with these two addresses in this order. *)
Theorem extract_key_data_capped :
  forall (UDB : UnicodeDB) (text : pystr),
    extract_key_data text = present (categories text)
    /\ dict_get (extract_key_data text) (u "Emails")
       = capped 3 (Re.findall email_re text)
    /\ dict_get (extract_key_data text) (u "Phones")
       = capped 3 (Re.findall phone_re text)
    /\ dict_get (extract_key_data text) (u "Dates")
       = capped 3 (Re.findall date_re text)
    /\ dict_get (extract_key_data text) (u "Amounts")
       = capped 5 (Re.findall amount_re text)
    /\ (forall r : Re.regex,
           Re.findall r text = map (Re.reported r text) (Re.finditer r text)
           /\ StronglySorted (fun a b => (Re.m_start a < Re.m_start b)%nat)
                             (Re.finditer r text))
    /\ extract_key_data (UDB:=AsciiDB.db) (u "john@example.com and jane@test.org")
       = [(u "Emails", [u "john@example.com"; u "jane@test.org"])].
Proof.
  intros UDB text.
  pose proof (extract_key_data_get text) as Hget.
  unfold categories in Hget.
  repeat match goal with
         | H : Forall _ (_ :: _) |- _ => inversion_clear H
         end.
  cbn [fst snd] in *.
  repeat (split; [ assumption || apply extract_key_data_present | ]).
  split.
  - intros r. split; [ reflexivity | apply finditer_from_sorted ].
  - vm_compute. reflexivity.
Qed.

(** ** History store *)
Section OrderFacts.
Lemma str_ltb_irrefl (a : pystr) : str_ltb a a = false.
Proof.
  induction a as [| x a IH]; cbn [str_ltb]; [ reflexivity | ].
  now rewrite N.ltb_irrefl, N.eqb_refl, IH.
Qed.

Lemma str_ltb_trans (a : pystr) :
  forall b c, str_ltb a b = true -> str_ltb b c = true -> str_ltb a c = true.
Proof.
  induction a as [| x a IH]; intros [| y b] [| z c]; cbn [str_ltb];
    try discriminate; try reflexivity.
  rewrite !orb_true_iff, !andb_true_iff, !N.ltb_lt, !N.eqb_eq.
  intros [Hxy | [-> Hab]] [Hyz | [-> Hbc]].
  - left; lia.
  - now left.
  - now left.
  - right. split; [ reflexivity | now apply IH with b ].
Qed.

Lemma str_ltb_total (a : pystr) :
  forall b, str_ltb a b = false -> str_ltb b a = false -> a = b.
Proof.
  induction a as [| x a IH]; intros [| y b]; cbn [str_ltb];
    try discriminate; try reflexivity.
  rewrite !orb_false_iff, !andb_false_iff, !N.ltb_ge, !N.eqb_neq.
  intros [Hyx Hab] [Hxy Hba].
  assert (x = y) by lia. subst y.
  f_equal. apply IH; [ destruct Hab | destruct Hba ]; congruence.
Qed.

(** "Not smaller than" is transitive. *)
Lemma str_geb_trans (a b c : pystr) :
  str_ltb a b = false -> str_ltb b c = false -> str_ltb a c = false.
Proof.
  intros Hab Hbc. destruct (str_ltb a c) eqn:Hac; [ | reflexivity ].
  destruct (str_ltb b a) eqn:Hba.
  - rewrite (str_ltb_trans _ _ _ Hba Hac) in Hbc. discriminate.
  - rewrite (str_ltb_total _ _ Hab Hba) in Hac. congruence.
Qed.

Lemma str_ltb_asym (a b : pystr) : str_ltb a b = true -> str_ltb b a = false.
Proof.
  intros Hab. destruct (str_ltb b a) eqn:Hba; [ | reflexivity ].
  pose proof (str_ltb_trans _ _ _ Hab Hba) as H.
  now rewrite str_ltb_irrefl in H.
Qed.
End OrderFacts.

Section HistoryFacts.
Context {SQL : SqliteEngine}.

Lemma insert_desc_perm (r : row) (sorted : list row) :
  Permutation (insert_desc r sorted) (r :: sorted).
Proof.
  induction sorted as [| x sorted IH]; cbn [insert_desc]; [ reflexivity | ].
  destruct (str_ltb (timestamp x) (timestamp r)); [ reflexivity | ].
  rewrite IH. apply perm_swap.
Qed.

Lemma order_by_perm (rows : list row) :
  Permutation (order_by_timestamp_desc rows) rows.
Proof.
  induction rows as [| r rows IH]; cbn; [ reflexivity | ].
  rewrite insert_desc_perm. now constructor.
Qed.

Lemma insert_desc_sorted (r : row) (sorted : list row) :
  StronglySorted newer_first sorted ->
  StronglySorted newer_first (insert_desc r sorted).
Proof.
  induction 1 as [| x sorted Hsorted IH Hx]; cbn [insert_desc].
  - repeat constructor.
  - destruct (str_ltb (timestamp x) (timestamp r)) eqn:Hlt.
    + constructor; [ now constructor | ].
      constructor; [ now apply str_ltb_asym | ].
      eapply Forall_impl; [ | exact Hx ]. cbn beta. unfold newer_first.
      intros y Hxy. apply str_geb_trans with (timestamp x);
        [ now apply str_ltb_asym | exact Hxy ].
    + constructor; [ exact IH | ].
      apply Forall_forall. intros y Hy.
      apply (Permutation_in _ (insert_desc_perm r sorted)) in Hy.
      destruct Hy as [<- | Hy]; [ exact Hlt | ].
      rewrite Forall_forall in Hx. now apply Hx.
Qed.

Lemma order_by_sorted (rows : list row) :
  StronglySorted newer_first (order_by_timestamp_desc rows).
Proof.
  induction rows as [| r rows IH]; cbn; [ constructor | ].
  now apply insert_desc_sorted.
Qed.

Lemma list_all_perm (db : database) :
  Permutation (list_all db) (map select_listed (extractions db)).
Proof. unfold list_all. apply Permutation_map, order_by_perm. Qed.

Lemma list_all_descending (db : database) : descending (list_all db).
Proof.
  unfold descending, list_all.
  pose proof (order_by_sorted (extractions db)) as Hs.
  induction Hs as [| x sorted Hsorted IH Hx]; cbn [map]; constructor.
  - exact IH.
  - rewrite Forall_map. eapply Forall_impl; [ | exact Hx ].
    intros y Hy. exact Hy.
Qed.

Lemma get_after_delete (db : database) (i : Z) :
  get (delete_one db i) i = None.
Proof.
  unfold get, delete_one. cbn [extractions].
  induction (extractions db) as [| r rows IH]; cbn [filter find]; [ reflexivity | ].
  destruct (id r =? i) eqn:E; cbn [negb]; [ exact IH | ].
  cbn [find]. now rewrite E.
Qed.

Lemma max_id_bound (rows : list row) :
  Forall (fun r => id r <= max_id rows) rows.
Proof.
  induction rows as [| r rows IH]; cbn [max_id]; constructor; [ lia | ].
  eapply Forall_impl; [ | exact IH ]. cbn beta. intros; lia.
Qed.

(** A save that returns [True] appended one row, which holds the
    record and has an id larger than every id of the table. *)
Lemma save_true (db : database) (r : record) (conn' : option database) :
  save (Some db) r = (true, conn') ->
  exists stored,
    conn' = Some {| extractions := extractions db ++ [stored];
                    sequence := id stored |}
    /\ stored_as r stored
    /\ Forall (fun old => id old < id stored) (extractions db).
Proof.
  unfold save, save_to_database, insert_extraction, stored_as.
  repeat match goal with
         | |- context [match column ?a ?v with _ => _ end] =>
             destruct (column a v); [ | discriminate ]
         end.
  destruct (not_null _ _); [ | discriminate ].
  destruct (next_id db) as [new_id |] eqn:Hid; [ | discriminate ].
  intros H. injection H as <-.
  match goal with
  | |- context [extractions db ++ [?stored]] => exists stored
  end.
  split; [ reflexivity | ]. cbn.
  split; [ repeat split | ].
  unfold next_id in Hid.
  destruct (_ <? INT64_MAX); [ | discriminate ]. injection Hid as <-.
  eapply Forall_impl; [ | apply max_id_bound ]. cbn beta. intros; lia.
Qed.

Lemma save_each_all_true (records : list record) :
  forall (db db' : database),
    save_each (Some db) records = (repeat true (length records), Some db') ->
    exists saved,
      extractions db' = extractions db ++ saved
      /\ Forall2 stored_as records saved
      /\ (NoDup (map id (extractions db)) -> NoDup (map id (extractions db'))).
Proof.
  induction records as [| r records IH]; intros db db'; cbn [save_each length repeat].
  - intros H. injection H as <-. exists []. rewrite app_nil_r.
    split; [ reflexivity | split; [ constructor | tauto ] ].
  - destruct (save (Some db) r) as [ok conn1] eqn:Hsave.
    destruct (save_each conn1 records) as [oks conn2] eqn:Hrest.
    intros H. injection H as -> -> ->.
    apply save_true in Hsave. destruct Hsave as [stored [-> [Hstored Hfresh]]].
    apply IH in Hrest. destruct Hrest as [saved [Hrows [Hall Huniq]]].
    cbn [extractions] in Hrows, Huniq.
    exists (stored :: saved). split; [ | split ].
    + now rewrite Hrows, <- app_assoc.
    + now constructor.
    + intros Hnodup. apply Huniq.
      rewrite map_app. cbn [map].
      apply NoDup_app; [ exact Hnodup | repeat constructor; intros [] | ].
      intros i Hold [<- | []].
      apply in_map_iff in Hold. destruct Hold as [old [Heq Hold]].
      rewrite Forall_forall in Hfresh. specialize (Hfresh old Hold). lia.
Qed.
End HistoryFacts.



(** ** JSON export *)
Section BitFacts.
Lemma hex_value_digit (d : N) :
  (d < 16)%N -> Json.hex_value (Json.hex_digit d) = Some d.
Proof.
  intros Hd. unfold Json.hex_digit, Json.hex_value.
  destruct (d <? 10)%N eqn:E.
  - apply N.ltb_lt in E.
    replace ((48 <=? 48 + d) && (48 + d <=? 57))%N with true
      by (symmetry; apply andb_true_iff; split; apply N.leb_le; lia).
    f_equal. lia.
  - apply N.ltb_ge in E.
    replace ((48 <=? 87 + d) && (87 + d <=? 57))%N with false
      by (symmetry; apply andb_false_iff; right; apply N.leb_gt; lia).
    replace ((97 <=? 87 + d) && (87 + d <=? 102))%N with true
      by (symmetry; apply andb_true_iff; split; apply N.leb_le; lia).
    f_equal. lia.
Qed.

Lemma nibble (n k : N) : (N.land (N.shiftr n k) 15 = (n / 2 ^ k) mod 16)%N.
Proof. change 15%N with (N.ones 4). now rewrite N.land_ones, N.shiftr_div_pow2. Qed.

Lemma hex4_u_escape (n : N) :
  (n < 0x10000)%N ->
  exists h1 h2 h3 h4,
    Json.u_escape n = [92%N; 117%N; h1; h2; h3; h4]
    /\ Json.hex4 h1 h2 h3 h4 = Some n.
Proof.
  intros Hn. unfold Json.u_escape. do 4 eexists. split; [ reflexivity | ].
  unfold Json.hex4.
  replace (N.land n 15) with (N.land (N.shiftr n 0) 15) by now rewrite N.shiftr_0_r.
  rewrite !nibble.
  rewrite !hex_value_digit by (apply N.mod_lt; discriminate).
  f_equal. change (2 ^ 12)%N with 4096%N. change (2 ^ 8)%N with 256%N.
  change (2 ^ 4)%N with 16%N. change (2 ^ 0)%N with 1%N.
  change 0x10000%N with 65536%N in Hn.
  zify. Z.to_euclidean_division_equations. lia.
Qed.
Lemma lor_disjoint (a b k : N) :
  (b < 2 ^ k)%N -> N.lor (a * 2 ^ k) b = (a * 2 ^ k + b)%N.
Proof.
  intros Hb.
  assert (Hland : N.land (a * 2 ^ k) b = 0%N).
  { apply N.bits_inj. intros i. rewrite N.land_spec, N.bits_0.
    destruct (N.ltb_spec i k) as [Hlt | Hge].
    - now rewrite N.mul_pow2_bits_low.
    - rewrite <- (N.mod_small b (2 ^ k)) by exact Hb.
      rewrite N.mod_pow2_bits_high by exact Hge. apply andb_false_r. }
  now rewrite N.add_nocarry_lxor, N.lxor_lor.
Qed.

Lemma surrogate_pair (c : N) :
  (0x10000 <= c < 0x110000)%N ->
  let n := (c - 0x10000)%N in
  let s1 := N.lor 0xd800 (N.land (N.shiftr n 10) 0x3ff) in
  let s2 := N.lor 0xdc00 (N.land n 0x3ff) in
  (s1 < 0x10000)%N /\ (s2 < 0x10000)%N
  /\ Json.is_high_surrogate s1 = true
  /\ Json.is_low_surrogate s2 = true
  /\ (0x10000 + N.lor (N.shiftl (s1 - 0xd800) 10) (s2 - 0xdc00))%N = c.
Proof.
  intros Hc n s1 s2.
  assert (Hn : (n < 2 ^ 20)%N) by (subst n; change (2 ^ 20)%N with 1048576%N; lia).
  assert (Hhi : N.land (N.shiftr n 10) 0x3ff = (n / 1024)%N).
  { change 0x3ff%N with (N.ones 10). rewrite N.land_ones, N.shiftr_div_pow2.
    change (2 ^ 10)%N with 1024%N. apply N.mod_small.
    change (2 ^ 20)%N with 1048576%N in Hn.
    zify. Z.to_euclidean_division_equations. lia. }
  assert (Hlo : N.land n 0x3ff = (n mod 1024)%N).
  { change 0x3ff%N with (N.ones 10). now rewrite N.land_ones. }
  assert (Hlo_lt : (n mod 1024 < 1024)%N) by (apply N.mod_lt; discriminate).
  assert (Hhi_lt : (n / 1024 < 1024)%N).
  { change (2 ^ 20)%N with 1048576%N in Hn.
    zify. Z.to_euclidean_division_equations. lia. }
  assert (Hs1 : s1 = (0xd800 + n / 1024)%N).
  { subst s1. rewrite Hhi. change 0xd800%N with (54 * 2 ^ 10)%N.
    now apply lor_disjoint. }
  assert (Hs2 : s2 = (0xdc00 + n mod 1024)%N).
  { subst s2. rewrite Hlo. change 0xdc00%N with (55 * 2 ^ 10)%N.
    now apply lor_disjoint. }
  rewrite Hs1, Hs2. unfold Json.is_high_surrogate, Json.is_low_surrogate.
  change 0xd800%N with 55296%N. change 0xdc00%N with 56320%N.
  change 0xdbff%N with 56319%N. change 0xdfff%N with 57343%N.
  change 0x10000%N with 65536%N in *.
  repeat split.
  - lia.
  - lia.
  - apply andb_true_iff; split; apply N.leb_le; lia.
  - apply andb_true_iff; split; apply N.leb_le; lia.
  - replace (55296 + n / 1024 - 55296)%N with (n / 1024)%N by lia.
    replace (56320 + n mod 1024 - 56320)%N with (n mod 1024)%N by lia.
    rewrite N.shiftl_mul_pow2, lor_disjoint by exact Hlo_lt.
    change (2 ^ 10)%N with 1024%N.
    subst n. zify. Z.to_euclidean_division_equations. lia.
Qed.
End BitFacts.

Section ScanString.
Context {FT : FloatText}.

Lemma scanstring_u (h1 h2 h3 h4 : codepoint) (t : pystr) :
  Json.scanstring (92%N :: 117%N :: h1 :: h2 :: h3 :: h4 :: t)
  = match Json.hex4 h1 h2 h3 h4 with
    | None => None
    | Some uni =>
        if Json.is_high_surrogate uni && startswith [92%N; 117%N] t then
          match t with
          | _ :: _ :: l1 :: l2 :: l3 :: l4 :: t' =>
              match Json.hex4 l1 l2 l3 l4 with
              | None => None
              | Some uni2 =>
                  if Json.is_low_surrogate uni2 then
                    Json.push (0x10000 + N.lor (N.shiftl (uni - 0xd800) 10)
                                               (uni2 - 0xdc00))%N
                              (Json.scanstring t')
                  else Json.push uni (Json.scanstring t)
              end
          | _ => None
          end
        else Json.push uni (Json.scanstring t)
    end.
Proof. reflexivity. Qed.

Lemma scan_escape_char (c : codepoint) (t : pystr) :
  (c < 0x110000)%N ->
  (Json.is_high_surrogate c = true -> no_low_escape t) ->
  Json.scanstring (Json.escape_char c ++ t) = Json.push c (Json.scanstring t).
Proof.
  intros Hc Hnext. unfold Json.escape_char.
  destruct (c =? 92)%N eqn:E92; [ apply N.eqb_eq in E92; subst c; reflexivity | ].
  destruct (c =? 34)%N eqn:E34; [ apply N.eqb_eq in E34; subst c; reflexivity | ].
  destruct ((32 <=? c) && (c <=? 126))%N eqn:Eprint.
  { apply andb_true_iff in Eprint. destruct Eprint as [Hlo _].
    apply N.leb_le in Hlo. cbn [app Json.scanstring]. rewrite E34, E92.
    replace (c <? 32)%N with false by (symmetry; apply N.ltb_ge; exact Hlo).
    reflexivity. }
  destruct (c =? 8)%N eqn:E8; [ apply N.eqb_eq in E8; subst c; reflexivity | ].
  destruct (c =? 12)%N eqn:E12; [ apply N.eqb_eq in E12; subst c; reflexivity | ].
  destruct (c =? 10)%N eqn:E10; [ apply N.eqb_eq in E10; subst c; reflexivity | ].
  destruct (c =? 13)%N eqn:E13; [ apply N.eqb_eq in E13; subst c; reflexivity | ].
  destruct (c =? 9)%N eqn:E9; [ apply N.eqb_eq in E9; subst c; reflexivity | ].
  destruct (c <? 0x10000)%N eqn:Ebmp.
  - apply N.ltb_lt in Ebmp.
    destruct (hex4_u_escape Ebmp) as [h1 [h2 [h3 [h4 [-> Hhex]]]]].
    cbn [app]. rewrite scanstring_u, Hhex.
    destruct (Json.is_high_surrogate c) eqn:Ehigh; [ | reflexivity ].
    destruct (startswith [92%N; 117%N] t) eqn:Estart; [ | reflexivity ].
    destruct (Hnext eq_refl Estart) as [l1 [l2 [l3 [l4 [t' [uni2 [-> [Hhex2 Hlow]]]]]]]].
    cbn [andb]. now rewrite Hhex2, Hlow.
  - apply N.ltb_ge in Ebmp.
    destruct (surrogate_pair (conj Ebmp Hc)) as [Hs1 [Hs2 [Hhigh [Hlow Hcombine]]]].
    cbv zeta.
    destruct (hex4_u_escape Hs1) as [h1 [h2 [h3 [h4 [-> Hhex1]]]]].
    destruct (hex4_u_escape Hs2) as [l1 [l2 [l3 [l4 [-> Hhex2]]]]].
    cbn [app]. rewrite scanstring_u, Hhex1, Hhigh. cbn [startswith andb N.eqb Pos.eqb].
    now rewrite Hhex2, Hlow, Hcombine.
Qed.

Lemma exact_text_cons (c : codepoint) (s : pystr) :
  exact_text (c :: s) ->
  (c < 0x110000)%N /\ exact_text s
  /\ (Json.is_high_surrogate c = true ->
      match s with c2 :: _ => Json.is_low_surrogate c2 = false | [] => True end).
Proof.
  unfold exact_text. cbn [forallb no_surrogate_pair].
  rewrite andb_true_iff, N.ltb_lt. intros [[Hc Hall] Hpair].
  split; [ exact Hc | ]. destruct s as [| c2 s'].
  - repeat split.
  - apply andb_true_iff in Hpair. destruct Hpair as [Hpair Hrest].
    split; [ split; assumption | ].
    intros Hhigh. rewrite Hhigh in Hpair. cbn [andb] in Hpair.
    now destruct (Json.is_low_surrogate c2).
Qed.

Lemma escaped_no_low (s rest : pystr) :
  exact_text s ->
  match s with c2 :: _ => Json.is_low_surrogate c2 = false | [] => True end ->
  no_low_escape (flat_map Json.escape_char s ++ 34%N :: rest).
Proof.
  intros Hexact Hhead Hstart. destruct s as [| c s']; [ discriminate Hstart | ].
  apply exact_text_cons in Hexact. destruct Hexact as [Hc _].
  cbn [flat_map] in *. rewrite <- app_assoc in *.
  set (t := flat_map Json.escape_char s' ++ 34%N :: rest) in *. clearbody t.
  unfold Json.escape_char in *.
  destruct (c =? 92)%N eqn:E92; [ discriminate Hstart | ].
  destruct (c =? 34)%N eqn:E34; [ discriminate Hstart | ].
  destruct ((32 <=? c) && (c <=? 126))%N.
  { cbn [app startswith] in Hstart. rewrite N.eqb_sym, E92 in Hstart.
    discriminate Hstart. }
  destruct (c =? 8)%N; [ discriminate Hstart | ].
  destruct (c =? 12)%N; [ discriminate Hstart | ].
  destruct (c =? 10)%N; [ discriminate Hstart | ].
  destruct (c =? 13)%N; [ discriminate Hstart | ].
  destruct (c =? 9)%N; [ discriminate Hstart | ].
  destruct (c <? 0x10000)%N eqn:Ebmp.
  - apply N.ltb_lt in Ebmp.
    destruct (hex4_u_escape Ebmp) as [h1 [h2 [h3 [h4 [-> Hhex]]]]].
    now exists h1, h2, h3, h4, t, c.
  - apply N.ltb_ge in Ebmp.
    destruct (surrogate_pair (conj Ebmp Hc)) as [Hs1 [_ [Hhigh _]]].
    cbv zeta in *.
    destruct (hex4_u_escape Hs1) as [h1 [h2 [h3 [h4 [-> Hhex1]]]]].
    cbn [app]. do 6 eexists. split; [ reflexivity | split; [ exact Hhex1 | ] ].
    revert Hhigh. unfold Json.is_high_surrogate, Json.is_low_surrogate.
    rewrite andb_true_iff, andb_false_iff, !N.leb_le, !N.leb_gt.
    change 0xdbff%N with 56319%N. change 0xdc00%N with 56320%N. lia.
Qed.

Lemma scanstring_escaped (s : pystr) :
  forall rest, exact_text s ->
    Json.scanstring (flat_map Json.escape_char s ++ 34%N :: rest) = Some (s, rest).
Proof.
  induction s as [| c s IH]; intros rest Hexact; [ reflexivity | ].
  apply exact_text_cons in Hexact. destruct Hexact as [Hc [Htail Hpair]].
  cbn [flat_map]. rewrite <- app_assoc, scan_escape_char.
  - now rewrite IH.
  - exact Hc.
  - intros Hhigh. apply escaped_no_low; [ exact Htail | now apply Hpair ].
Qed.

Lemma scanstring_encode_str (s rest : pystr) :
  exact_text s ->
  exists body, Json.encode_str s ++ rest = 34%N :: body
               /\ Json.scanstring body = Some (s, rest).
Proof.
  intros Hexact. exists (flat_map Json.escape_char s ++ 34%N :: rest). split.
  - unfold Json.encode_str. cbn [app]. now rewrite <- app_assoc.
  - now apply scanstring_escaped.
Qed.
End ScanString.
Section Numbers.
Context {FT : FloatText}.

Lemma digits_value_app (ds1 ds2 : pystr) :
  forall a, Json.digits_value a (ds1 ++ ds2)
            = Json.digits_value (Json.digits_value a ds1) ds2.
Proof. induction ds1 as [| d ds1 IH]; intros a; cbn; [ reflexivity | apply IH ]. Qed.

Lemma digit_char_digit (d : Z) :
  0 <= d < 10 ->
  Json.is_digit (digit_char d) = true /\ Z.of_N (digit_char d) - 48 = d
  /\ (0 < d -> digit_char d <> 48%N) /\ (d = 0 -> digit_char d = 48%N).
Proof.
  intros Hd. unfold digit_char, Json.is_digit.
  repeat split.
  - apply andb_true_iff. split; apply N.leb_le; lia.
  - lia.
  - lia.
  - intros ->. reflexivity.
Qed.

Lemma str_of_pos_aux_step (fuel : nat) (n : Z) (acc : pystr) :
  str_of_pos_aux (S fuel) n acc
  = if n / 10 =? 0 then digit_char (n mod 10) :: acc
    else str_of_pos_aux fuel (n / 10) (digit_char (n mod 10) :: acc).
Proof. reflexivity. Qed.

Lemma str_of_pos_aux_digits (fuel : nat) :
  forall n acc,
    0 <= n < 2 ^ Z.of_nat (S fuel) ->
    exists d ds,
      str_of_pos_aux (S fuel) n acc = (d :: ds) ++ acc
      /\ all_digits (d :: ds)
      /\ (forall a, Json.digits_value a (d :: ds) = a * 10 ^ len (d :: ds) + n)
      /\ (0 < n -> d <> 48%N)
      /\ (n = 0 -> d :: ds = [48%N]).
Proof.
  induction fuel as [| fuel IH]; intros n acc Hn;
    rewrite str_of_pos_aux_step;
    pose proof (Z.mod_pos_bound n 10 ltac:(lia)) as Hmod;
    destruct (digit_char_digit Hmod) as [Hdig [Hval [Hnz Hz]]].
  - change (2 ^ Z.of_nat 1) with 2 in Hn.
    assert (Hsmall : n / 10 = 0) by (apply Z.div_small; clear - Hn; lia).
    rewrite Hsmall. cbn [Z.eqb].
    rewrite Z.mod_small in * by lia.
    exists (digit_char n), []. cbn [app]. repeat split.
    + now constructor.
    + intros a. cbn [Json.digits_value]. rewrite Hval. unfold len.
      change (10 ^ Z.of_nat (length [digit_char n])) with 10. lia.
    + exact Hnz.
    + intros H0. now rewrite (Hz H0).
  - destruct (n / 10 =? 0) eqn:Ediv.
    + apply Z.eqb_eq in Ediv.
      assert (Hlt : n < 10).
      { destruct (Z.lt_ge_cases n 10) as [H | H]; [ exact H | exfalso ].
        pose proof (Z.div_le_mono 10 n 10 ltac:(lia) H) as Hd.
        rewrite Z.div_same in Hd by lia. lia. }
      rewrite Z.mod_small in * by lia.
      exists (digit_char n), []. cbn [app]. repeat split.
      * now constructor.
      * intros a. cbn [Json.digits_value]. rewrite Hval. unfold len.
        change (10 ^ Z.of_nat (length [digit_char n])) with 10. lia.
      * exact Hnz.
      * intros H0. now rewrite (Hz H0).
    + apply Z.eqb_neq in Ediv.
      assert (Hpos : 0 < n / 10).
      { pose proof (Z.div_pos n 10 ltac:(lia) ltac:(lia)). lia. }
      assert (Hbound : 0 <= n / 10 < 2 ^ Z.of_nat (S fuel)).
      { split; [ lia | ].
        apply Z.div_lt_upper_bound; [ lia | ].
        replace (Z.of_nat (S (S fuel))) with (Z.succ (Z.of_nat (S fuel))) in Hn by lia.
        rewrite Z.pow_succ_r in Hn by lia.
        pose proof (Z.pow_pos_nonneg 2 (Z.of_nat (S fuel)) ltac:(lia) ltac:(lia)).
        lia. }
      destruct (IH (n / 10) (digit_char (n mod 10) :: acc) Hbound)
        as [d [ds [Heq [Hall [Hvalue [Hhead _]]]]]].
      exists d, (ds ++ [digit_char (n mod 10)]).
      repeat split.
      * rewrite Heq. cbn [app]. now rewrite <- app_assoc.
      * change (d :: ds ++ [digit_char (n mod 10)])
          with ((d :: ds) ++ [digit_char (n mod 10)]).
        apply Forall_app. split; [ exact Hall | now constructor ].
      * intros a.
        change (d :: ds ++ [digit_char (n mod 10)])
          with ((d :: ds) ++ [digit_char (n mod 10)]).
        rewrite digits_value_app, Hvalue. cbn [Json.digits_value].
        rewrite Hval. unfold len. rewrite length_app.
        replace (Z.of_nat (length (d :: ds) + length [digit_char (n mod 10)]))
          with (Z.succ (Z.of_nat (length (d :: ds)))) by (cbn [length]; lia).
        rewrite Z.pow_succ_r by lia.
        pose proof (Z.div_mod n 10 ltac:(lia)). lia.
      * intros _. apply Hhead. exact Hpos.
      * intros H0. subst n. cbn in Ediv. congruence.
Qed.

Lemma log2_fuel (n : Z) :
  0 <= n -> 0 <= n < 2 ^ Z.of_nat (S (Z.to_nat (Z.log2 n))).
Proof.
  intros Hn. split; [ exact Hn | ].
  rewrite Nat2Z.inj_succ, Z2Nat.id by apply Z.log2_nonneg.
  destruct (Z.eq_dec n 0) as [-> | Hne]; [ reflexivity | ].
  apply Z.log2_spec. lia.
Qed.

(** The decimal digits of a non-negative integer. *)
Lemma str_of_int_nonneg (n : Z) :
  0 <= n ->
  exists d ds,
    str_of_int n = d :: ds
    /\ all_digits (d :: ds)
    /\ Json.digits_value 0 (d :: ds) = n
    /\ (0 < n -> d <> 48%N)
    /\ (n = 0 -> d :: ds = [48%N]).
Proof.
  intros Hn. unfold str_of_int.
  replace (n <? 0) with false by (symmetry; apply Z.ltb_ge; exact Hn).
  destruct (@str_of_pos_aux_digits _ n [] (log2_fuel Hn))
    as [d [ds [Heq [Hall [Hvalue [Hhead Hzero]]]]]].
  exists d, ds. rewrite Heq, app_nil_r. repeat split; try assumption.
  rewrite Hvalue. lia.
Qed.

Lemma str_of_int_neg (n : Z) :
  n < 0 -> str_of_int n = 45%N :: str_of_int (- n).
Proof.
  intros Hn. unfold str_of_int.
  replace (n <? 0) with true by (symmetry; apply Z.ltb_lt; exact Hn).
  replace (- n <? 0) with false by (symmetry; apply Z.ltb_ge; lia).
  reflexivity.
Qed.

Lemma span_digits_all (ds rest : pystr) :
  all_digits ds -> not_digit_first rest ->
  Json.span_digits (ds ++ rest) = (ds, rest).
Proof.
  intros Hall Hrest. induction Hall as [| d ds Hd _ IH]; cbn [app Json.span_digits].
  - destruct rest as [| c rest]; [ reflexivity | ].
    cbn in Hrest. cbn [Json.span_digits]. now rewrite Hrest.
  - now rewrite Hd, IH.
Qed.

Lemma scan_digits_str_of_int (n : Z) (sign rest : pystr) :
  0 <= n -> not_digit_first rest ->
  Json.scan_digits sign (str_of_int n ++ rest) = Some (sign ++ str_of_int n, rest).
Proof.
  intros Hn Hrest.
  destruct (str_of_int_nonneg Hn) as [d [ds [Heq [Hall [_ [Hhead Hzero]]]]]].
  rewrite Heq. cbn [app Json.scan_digits].
  pose proof (Forall_inv Hall) as Hd. pose proof (Forall_inv_tail Hall) as Hds.
  cbn beta in Hd. rewrite Hd.
  destruct (d =? 48)%N eqn:E48.
  - apply N.eqb_eq in E48. subst d.
    destruct (Z.eq_dec n 0) as [H0 | Hne].
    + specialize (Hzero H0). injection Hzero as ->. reflexivity.
    + exfalso. apply Hhead; [ lia | reflexivity ].
  - now rewrite span_digits_all.
Qed.

Lemma str_of_int_head (n : Z) :
  exists c tl, str_of_int n = c :: tl /\ (c = 45%N \/ Json.is_digit c = true).
Proof.
  destruct (Z.lt_ge_cases n 0) as [Hneg | Hpos].
  - rewrite (str_of_int_neg Hneg). eexists _, _. split; [ reflexivity | now left ].
  - destruct (str_of_int_nonneg Hpos) as [d [ds [Heq [Hall _]]]].
    exists d, ds. split; [ exact Heq | right; exact (Forall_inv Hall) ].
Qed.

Lemma scan_integer_str_of_int (n : Z) (rest : pystr) :
  not_digit_first rest ->
  Json.scan_integer (str_of_int n ++ rest) = Some (str_of_int n, rest).
Proof.
  intros Hrest. destruct (Z.lt_ge_cases n 0) as [Hneg | Hpos].
  - rewrite (str_of_int_neg Hneg). cbn [app Json.scan_integer N.eqb Pos.eqb].
    apply scan_digits_str_of_int; [ lia | exact Hrest ].
  - destruct (str_of_int_nonneg Hpos) as [d [ds [Heq [Hall _]]]].
    pose proof (@scan_digits_str_of_int n [] rest Hpos Hrest) as Hscan.
    rewrite Heq in *. cbn [app Json.scan_integer] in *.
    pose proof (Forall_inv Hall) as Hd. cbn beta in Hd.
    replace (d =? 45)%N with false; [ exact Hscan | ].
    symmetry. apply N.eqb_neq. intros ->. discriminate Hd.
Qed.

Lemma int_of_token_str_of_int (n : Z) : Json.int_of_token (str_of_int n) = n.
Proof.
  destruct (Z.lt_ge_cases n 0) as [Hneg | Hpos].
  - rewrite (str_of_int_neg Hneg). cbn [Json.int_of_token N.eqb Pos.eqb].
    destruct (@str_of_int_nonneg (- n) ltac:(lia)) as [d [ds [Heq [_ [Hvalue _]]]]].
    rewrite Heq, Hvalue. lia.
  - destruct (str_of_int_nonneg Hpos) as [d [ds [Heq [Hall [Hvalue _]]]]].
    rewrite Heq. cbn [Json.int_of_token].
    pose proof (Forall_inv Hall) as Hd. cbn beta in Hd.
    replace (d =? 45)%N with false; [ exact Hvalue | ].
    symmetry. apply N.eqb_neq. intros ->. discriminate Hd.
Qed.

Lemma delimited_not_digit (rest : pystr) : delimited rest -> not_digit_first rest.
Proof. destruct rest as [| c rest]; [ trivial | ]. now intros [-> | ->]. Qed.

Lemma scan_frac_delimited (rest : pystr) :
  delimited rest -> Json.scan_frac rest = ([], rest).
Proof. destruct rest as [| c rest]; [ reflexivity | ]. now intros [-> | ->]. Qed.

Lemma scan_exp_delimited (rest : pystr) :
  delimited rest -> Json.scan_exp rest = ([], rest).
Proof. destruct rest as [| c rest]; [ reflexivity | ]. now intros [-> | ->]. Qed.

Lemma scan_number_str_of_int (n : Z) (rest : pystr) :
  delimited rest ->
  Json.scan_number (str_of_int n ++ rest) = Some (PInt n, rest).
Proof.
  intros Hrest. unfold Json.scan_number.
  rewrite scan_integer_str_of_int by now apply delimited_not_digit.
  rewrite scan_frac_delimited, scan_exp_delimited by exact Hrest.
  now rewrite int_of_token_str_of_int.
Qed.

(** A number starts with a minus sign or a digit. *)
Lemma scan_number_head (s : pystr) (r : pyval * pystr) :
  Json.scan_number s = Some r ->
  exists c tl, s = c :: tl /\ (c = 45%N \/ Json.is_digit c = true).
Proof.
  unfold Json.scan_number, Json.scan_integer. destruct s as [| c tl]; [ discriminate | ].
  intros H. exists c, tl. split; [ reflexivity | ].
  destruct (c =? 45)%N eqn:E; [ left; now apply N.eqb_eq | right ].
  cbn [Json.scan_digits] in H.
  destruct (c =? 48)%N eqn:E48; [ apply N.eqb_eq in E48; now subst c | ].
  destruct (Json.is_digit c); [ reflexivity | discriminate H ].
Qed.
End Numbers.

Section Values.
Context {FT : FloatText}.

Lemma skip_ws_spaces (n : nat) (s : pystr) :
  Json.skip_ws (repeat 32%N n ++ s) = Json.skip_ws s.
Proof. induction n as [| n IH]; [ reflexivity | exact IH ]. Qed.

Lemma skip_ws_indent (level : nat) (s : pystr) :
  Json.skip_ws (Json.newline_indent level ++ s) = Json.skip_ws s.
Proof. unfold Json.newline_indent. cbn [app Json.skip_ws Json.is_ws N.eqb Pos.eqb orb].
  apply skip_ws_spaces. Qed.

Lemma skip_ws_head (c : codepoint) (s : pystr) :
  Json.is_ws c = false -> Json.skip_ws (c :: s) = c :: s.
Proof. intros H. cbn [Json.skip_ws]. now rewrite H. Qed.

Lemma exact_list (items : list pyval) :
  exact_value (PList items) <-> Forall exact_value items.
Proof.
  cbn [exact_value]. induction items as [| x items IH].
  - split; [ constructor | trivial ].
  - rewrite IH. split.
    + intros [Hx Hall]. now constructor.
    + intros H. inversion H; subst. now split.
Qed.

Lemma exact_dict (entries : list (pystr * pyval)) :
  exact_value (PDict entries)
  <-> NoDup (map fst entries)
      /\ Forall (fun kv => exact_text (fst kv) /\ exact_value (snd kv)) entries.
Proof.
  cbn [exact_value]. apply and_iff_compat_l.
  induction entries as [| [k x] entries IH].
  - split; [ constructor | trivial ].
  - rewrite IH. split.
    + intros [Hk [Hx Hall]]. constructor; [ split; assumption | exact Hall ].
    + intros H. inversion H as [| ? ? Hkx Hall]; subst.
      destruct Hkx as [Hk Hx].
      split; [ exact Hk | split; [ exact Hx | exact Hall ] ].
Qed.

Lemma encode_list (level : nat) (first : pyval) (others : list pyval) :
  Json.encode level (PList (first :: others))
  = [91%N] ++ Json.newline_indent (S level) ++ Json.encode (S level) first
      ++ Json.more_items level others ++ Json.newline_indent level ++ [93%N].
Proof.
  cbn [Json.encode]. do 3 f_equal. f_equal.
  induction others as [| item others IH]; [ reflexivity | ].
  unfold Json.more_items. cbn [flat_map]. rewrite <- !app_assoc. do 3 f_equal.
  exact IH.
Qed.

Lemma encode_dict (level : nat) (key : pystr) (value : pyval)
      (others : list (pystr * pyval)) :
  Json.encode level (PDict ((key, value) :: others))
  = [123%N] ++ Json.newline_indent (S level)
      ++ Json.encode_str key ++ u ": " ++ Json.encode (S level) value
      ++ Json.more_entries level others ++ Json.newline_indent level ++ [125%N].
Proof.
  cbn [Json.encode]. do 5 f_equal. f_equal.
  induction others as [| [k x] others IH]; [ reflexivity | ].
  unfold Json.more_entries. cbn [flat_map fst snd]. rewrite <- !app_assoc.
  do 5 f_equal. exact IH.
Qed.

Lemma keyword_miss (word : string) (value : pyval) (c w : codepoint)
      (ws tl : pystr) :
  u word = w :: ws -> (w =? c)%N = false ->
  Json.keyword word value (c :: tl) = None.
Proof.
  intros Hw Hc. unfold Json.keyword. rewrite Hw. cbn [startswith].
  now rewrite Hc.
Qed.

Lemma number_head_not (c x : codepoint) :
  c = 45%N \/ Json.is_digit c = true ->
  (x <? 45)%N || (57 <? x)%N = true ->
  (x =? c)%N = false /\ (c =? x)%N = false.
Proof.
  intros Hc Hx. unfold Json.is_digit in Hc.
  rewrite andb_true_iff, !N.leb_le in Hc.
  rewrite orb_true_iff, !N.ltb_lt in Hx.
  split; apply N.eqb_neq; lia.
Qed.

Lemma scan_once_number (f : nat) (s : pystr) (r : pyval * pystr) :
  Json.scan_number s = Some r -> Json.scan_once (S f) s = Some r.
Proof.
  intros H. destruct (scan_number_head _ H) as [c [tl [-> Hc]]].
  cbn [Json.scan_once].
  destruct (number_head_not 34%N Hc eq_refl) as [_ ->].
  destruct (number_head_not 123%N Hc eq_refl) as [_ ->].
  destruct (number_head_not 91%N Hc eq_refl) as [_ ->].
  rewrite (@keyword_miss "null" PNone c 110%N _ tl eq_refl)
    by apply (number_head_not 110%N Hc eq_refl).
  rewrite (@keyword_miss "true" (PBool true) c 116%N _ tl eq_refl)
    by apply (number_head_not 116%N Hc eq_refl).
  rewrite (@keyword_miss "false" (PBool false) c 102%N _ tl eq_refl)
    by apply (number_head_not 102%N Hc eq_refl).
  now rewrite H.
Qed.

Lemma number_head_ascii (c : codepoint) :
  c = 45%N \/ Json.is_digit c = true -> (c <? 128)%N = true.
Proof.
  unfold Json.is_digit. rewrite andb_true_iff, !N.leb_le, N.ltb_lt. lia.
Qed.

(** The first character of an encoded value is an ASCII character that is
    neither whitespace nor a closing bracket. *)
Lemma encode_head (level : nat) (v : pyval) :
  exact_value v ->
  exists c tl, Json.encode level v = c :: tl
               /\ Json.is_ws c = false /\ (c =? 93)%N = false
               /\ (c <? 128)%N = true.
Proof.
  destruct v as [| [|] | n | x | s | [| first others] | [| [key value] others]];
    intros Hexact;
    try (eexists _, _; split; [ reflexivity | repeat split; reflexivity ]).
  - destruct (str_of_int_head n) as [c [tl [Heq Hc]]].
    exists c, tl. cbn [Json.encode]. split; [ exact Heq | ].
    unfold Json.is_ws.
    destruct (number_head_not 32%N Hc eq_refl) as [_ ->].
    destruct (number_head_not 9%N Hc eq_refl) as [_ ->].
    destruct (number_head_not 10%N Hc eq_refl) as [_ ->].
    destruct (number_head_not 13%N Hc eq_refl) as [_ ->].
    destruct (number_head_not 93%N Hc eq_refl) as [_ ->].
    rewrite (number_head_ascii Hc). repeat split; reflexivity.
  - assert (Hfinite : forall a b c,
               x = S754_zero a \/ x = S754_finite a b c ->
               exists c tl, float_repr x = c :: tl
                            /\ Json.is_ws c = false /\ (c =? 93)%N = false
                            /\ (c <? 128)%N = true).
    { intros a b c0 Hx.
      assert (Hscan : Json.scan_number (float_repr x ++ []) = Some (PFloat x, [])).
      { destruct Hx as [-> | ->]; apply Hexact; exact I. }
      rewrite app_nil_r in Hscan.
      destruct (scan_number_head _ Hscan) as [c [tl [Heq Hc]]].
      exists c, tl. split; [ exact Heq | ]. unfold Json.is_ws.
      destruct (number_head_not 32%N Hc eq_refl) as [_ ->].
      destruct (number_head_not 9%N Hc eq_refl) as [_ ->].
      destruct (number_head_not 10%N Hc eq_refl) as [_ ->].
      destruct (number_head_not 13%N Hc eq_refl) as [_ ->].
      destruct (number_head_not 93%N Hc eq_refl) as [_ ->].
      rewrite (number_head_ascii Hc). repeat split; reflexivity. }
    destruct x as [a | [|] | | a b c0]; cbn [Json.encode Json.floatstr];
      try (eexists _, _; split; [ reflexivity | repeat split; reflexivity ]).
    + apply (Hfinite a 1%positive 0). now left.
    + apply (Hfinite a b c0). now right.
Qed.
End Values.

Ltac lengths H :=
  repeat first [ rewrite length_app in H | progress cbn [length] in H ].

Ltac reassoc :=
  repeat (rewrite <- app_assoc || rewrite <- app_comm_cons); cbn [app].

Section RoundTrip.
Context {FT : FloatText}.

Lemma skip_ws_encoded (level : nat) (v : pyval) (rest : pystr) :
  exact_value v ->
  Json.skip_ws (Json.encode level v ++ rest) = Json.encode level v ++ rest.
Proof.
  intros Hexact. destruct (encode_head level v Hexact) as [c [tl [-> [Hws _]]]].
  cbn [app]. now apply skip_ws_head.
Qed.

Lemma encode_nonempty (level : nat) (v : pyval) :
  exact_value v -> (1 <= length (Json.encode level v))%nat.
Proof.
  intros Hexact. destruct (encode_head level v Hexact) as [c [tl [-> _]]].
  cbn [length]. lia.
Qed.

Lemma more_items_cons (level : nat) (item : pyval) (others : list pyval) :
  Json.more_items level (item :: others)
  = 44%N :: Json.newline_indent (S level) ++ Json.encode (S level) item
      ++ Json.more_items level others.
Proof.
  unfold Json.more_items. cbn [flat_map app]. now rewrite <- app_assoc.
Qed.

Lemma more_entries_cons (level : nat) (k : pystr) (x : pyval)
      (others : list (pystr * pyval)) :
  Json.more_entries level ((k, x) :: others)
  = 44%N :: Json.newline_indent (S level)
      ++ 34%N :: flat_map Json.escape_char k
      ++ 34%N :: 58%N :: 32%N :: Json.encode (S level) x
      ++ Json.more_entries level others.
Proof.
  unfold Json.more_entries, Json.encode_str. cbn [flat_map app fst snd].
  rewrite <- !app_assoc. cbn [app]. now rewrite <- !app_assoc.
Qed.

Lemma array_items_encoded (level : nat) (others : list pyval) :
  forall first,
    Forall round_trips (first :: others) ->
    Forall exact_value (first :: others) ->
    forall fuel rest,
      (length (Json.encode (S level) first)
       + length (Json.more_items level others) < fuel)%nat ->
      Json.array_items fuel
        (Json.encode (S level) first ++ Json.more_items level others
           ++ Json.newline_indent level ++ 93%N :: rest)
      = Some (first :: others, rest).
Proof.
  induction others as [| item others IH]; intros first Hrt Hexact fuel rest Hfuel;
    (destruct fuel as [| fuel]; [ lia | ]);
    pose proof (Forall_inv Hrt) as Hfirst;
    pose proof (Forall_inv Hexact) as Hefirst;
    cbn [Json.array_items].
  - cbn [Json.more_items flat_map app] in *.
    rewrite (Hfirst Hefirst) by (try lia; now right).
    rewrite skip_ws_indent. reflexivity.
  - pose proof (Forall_inv_tail Hrt) as Hrt'.
    pose proof (Forall_inv_tail Hexact) as Hexact'.
    pose proof (encode_nonempty (S level) first Hefirst) as Hlen.
    rewrite more_items_cons in *.
    lengths Hfuel.
    rewrite (Hfirst Hefirst) by (try lia; now left).
    cbn [app Json.skip_ws Json.is_ws N.eqb Pos.eqb orb].
    rewrite <- !app_assoc.
    rewrite skip_ws_indent, skip_ws_encoded by exact (Forall_inv Hexact').
    rewrite (IH item Hrt' Hexact') by lia.
    reflexivity.
Qed.

Lemma object_pairs_encoded (level : nat) (others : list (pystr * pyval)) :
  forall key value,
    Forall (fun kv => round_trips (snd kv)) ((key, value) :: others) ->
    Forall (fun kv => exact_text (fst kv) /\ exact_value (snd kv))
           ((key, value) :: others) ->
    forall fuel rest,
      (length (Json.encode (S level) value)
       + length (Json.more_entries level others) < fuel)%nat ->
      Json.object_pairs fuel
        (flat_map Json.escape_char key
           ++ 34%N :: 58%N :: 32%N :: Json.encode (S level) value
           ++ Json.more_entries level others
           ++ Json.newline_indent level ++ 125%N :: rest)
      = Some ((key, value) :: others, rest).
Proof.
  induction others as [| [k x] others IH];
    intros key value Hrt Hexact fuel rest Hfuel;
    (destruct fuel as [| fuel]; [ lia | ]);
    pose proof (Forall_inv Hrt) as Hvalue;
    destruct (Forall_inv Hexact) as [Hekey Hevalue];
    cbn [fst snd] in Hvalue, Hekey, Hevalue;
    cbn [Json.object_pairs];
    rewrite scanstring_escaped by exact Hekey;
    cbn [Json.skip_ws Json.is_ws N.eqb Pos.eqb orb];
    rewrite skip_ws_encoded by exact Hevalue.
  - cbn [Json.more_entries flat_map app] in *.
    rewrite (Hvalue Hevalue) by (try lia; now right).
    rewrite skip_ws_indent. reflexivity.
  - pose proof (Forall_inv_tail Hrt) as Hrt'.
    pose proof (Forall_inv_tail Hexact) as Hexact'.
    pose proof (encode_nonempty (S level) value Hevalue) as Hlen.
    rewrite more_entries_cons in *.
    lengths Hfuel.
    rewrite (Hvalue Hevalue) by (try lia; now left).
    cbn [app Json.skip_ws Json.is_ws N.eqb Pos.eqb orb]. reassoc.
    rewrite skip_ws_indent.
    cbn [app Json.skip_ws Json.is_ws N.eqb Pos.eqb orb].
    rewrite (IH k x Hrt' Hexact') by lia.
    reflexivity.
Qed.

Lemma str_eqb_eq (a : pystr) : forall b, str_eqb a b = true <-> a = b.
Proof.
  induction a as [| x a IH]; intros [| y b]; cbn [str_eqb];
    try (split; [ discriminate | discriminate ]); [ tauto | ].
  rewrite andb_true_iff, N.eqb_eq, IH. split.
  - now intros [-> ->].
  - intros H. now injection H.
Qed.

Lemma dict_set_fresh (V : Type) (d : dict V) (key : pystr) (value : V) :
  ~ In key (map fst d) -> dict_set d key value = d ++ [(key, value)].
Proof.
  induction d as [| [k v] d IH]; intros Hfresh; cbn [dict_set app]; [ reflexivity | ].
  cbn [map fst In] in Hfresh.
  destruct (str_eqb k key) eqn:E.
  - apply str_eqb_eq in E. tauto.
  - rewrite IH by tauto. reflexivity.
Qed.

Lemma dict_of_pairs_distinct (pairs : list (pystr * pyval)) :
  NoDup (map fst pairs) -> Json.dict_of_pairs pairs = pairs.
Proof.
  unfold Json.dict_of_pairs.
  assert (H : forall acc, NoDup (map fst (acc ++ pairs)) ->
                fold_left (fun d kv => dict_set d (fst kv) (snd kv)) pairs acc
                = acc ++ pairs).
  { induction pairs as [| [k v] pairs IH]; intros acc Hnodup; cbn [fold_left fst snd].
    - now rewrite app_nil_r.
    - rewrite dict_set_fresh.
      + rewrite IH; rewrite <- app_assoc; [ reflexivity | exact Hnodup ].
      + rewrite map_app in Hnodup. cbn [map fst] in Hnodup.
        apply NoDup_remove_2 in Hnodup. intros Hin. apply Hnodup.
        apply in_or_app. now left. }
  intros Hnodup. now rewrite (H [] Hnodup).
Qed.

Theorem encode_round_trips (v : pyval) : round_trips v.
Proof.
  induction v as [| b | n | x | s | items IH | entries IH] using pyval_ind;
    intros Hexact level fuel rest Hfuel Hrest.
  - destruct fuel as [| fuel]; [ cbn in Hfuel; lia | reflexivity ].
  - destruct fuel as [| fuel]; [ destruct b; cbn in Hfuel; lia | ].
    destruct b; reflexivity.
  - pose proof (encode_nonempty level (PInt n) Hexact) as Hlen.
    destruct fuel as [| fuel]; [ lia | ].
    apply scan_once_number. cbn [Json.encode].
    now apply scan_number_str_of_int.
  - pose proof (encode_nonempty level (PFloat x) Hexact) as Hlen.
    destruct fuel as [| fuel]; [ lia | ].
    destruct x as [a | [|] | | a m e]; cbn [Json.encode Json.floatstr];
      try reflexivity;
      apply scan_once_number; now apply Hexact.
  - pose proof (encode_nonempty level (PStr s) Hexact) as Hlen.
    destruct fuel as [| fuel]; [ lia | ].
    cbn [Json.encode]. unfold Json.encode_str. cbn [app Json.scan_once N.eqb Pos.eqb].
    rewrite <- app_assoc. cbn [app]. now rewrite scanstring_escaped.
  - destruct items as [| first others].
    + destruct fuel as [| fuel]; [ cbn in Hfuel; lia | reflexivity ].
    + rewrite encode_list in *. apply exact_list in Hexact.
      lengths Hfuel.
      destruct fuel as [| fuel]; [ lia | ].
      rewrite <- !app_assoc. cbn [app Json.scan_once N.eqb Pos.eqb].
      rewrite skip_ws_indent.
      destruct (encode_head (S level) first (Forall_inv Hexact))
        as [c [tl [Hhead [Hws [Hclose _]]]]].
      rewrite Hhead. cbn [app]. rewrite (skip_ws_head c _ Hws), Hclose.
      rewrite app_comm_cons, <- Hhead.
      rewrite (array_items_encoded level IH Hexact) by lia.
      reflexivity.
  - destruct entries as [| [key value] others].
    + destruct fuel as [| fuel]; [ cbn in Hfuel; lia | reflexivity ].
    + rewrite encode_dict in *. apply exact_dict in Hexact.
      destruct Hexact as [Hnodup Hexact].
      unfold Json.encode_str in *.
      lengths Hfuel.
      destruct fuel as [| fuel]; [ lia | ].
      change (u ": ") with [58%N; 32%N].
      reassoc. cbn [Json.scan_once N.eqb Pos.eqb].
      rewrite skip_ws_indent. cbn [Json.skip_ws Json.is_ws N.eqb Pos.eqb orb].
      rewrite (object_pairs_encoded level IH Hexact) by lia.
      now rewrite dict_of_pairs_distinct.
Qed.
End RoundTrip.

Section ExportFacts.
Context {FT : FloatText}.

Lemma loads_dumps (v : pyval) :
  exact_value v -> Json.loads (Json.dumps v) = Some v.
Proof.
  intros Hexact. unfold Json.loads, Json.dumps.
  destruct (encode_head 0 v Hexact) as [c [tl [Hhead [_ [_ Hascii]]]]].
  assert (Hbom : startswith [0xfeff%N] (Json.encode 0 v) = false).
  { rewrite Hhead. cbn [startswith].
    replace (0xfeff =? c)%N with false; [ reflexivity | ].
    symmetry. apply N.eqb_neq. apply N.ltb_lt in Hascii.
    change 0xfeff%N with 65279%N. lia. }
  rewrite Hbom.
  pose proof (skip_ws_encoded 0 v [] Hexact) as Hskip.
  pose proof (encode_round_trips v) as Hscan. unfold round_trips in Hscan.
  specialize (Hscan Hexact 0%nat (S (length (Json.encode 0 v))) []
                    (Nat.le_succ_diag_r _) I).
  rewrite app_nil_r in Hskip, Hscan.
  now rewrite Hskip, Hscan.
Qed.

(** The envelope [export_to_json] serializes. *)
Lemma export_envelope_exact (now text filename : pystr)
      (metadata : option (dict pyval)) :
  exact_text now -> exact_text text -> exact_text filename ->
  exact_value (PDict (match metadata with Some m => m | None => [] end)) ->
  exact_value
    (PDict [ (u "filename", PStr filename);
             (u "extracted_text", PStr text);
             (u "extraction_date", PStr now);
             (u "metadata", PDict (match metadata with
                                   | Some m => m
                                   | None => []
                                   end));
             (u "version", PStr (u "1.0")) ]).
Proof.
  intros Hnow Htext Hfilename Hmetadata. apply exact_dict. split.
  - repeat (constructor; [ cbn [map fst In]; intuition discriminate | ]).
    constructor.
  - constructor; [ split; [ split; reflexivity | exact Hfilename ] | ].
    constructor; [ split; [ split; reflexivity | exact Htext ] | ].
    constructor; [ split; [ split; reflexivity | exact Hnow ] | ].
    constructor; [ split; [ split; reflexivity | exact Hmetadata ] | ].
    constructor; [ split; split; reflexivity | ].
    constructor.
Qed.
End ExportFacts.


Lemma demo_floats_round_trip :
  repr_round_trips (FT:=DemoFloat.text) DemoFloat.f_2_5
  /\ repr_round_trips (FT:=DemoFloat.text) DemoFloat.f_100_0.
Proof.
  split; intros [| c rest] Hrest; try reflexivity;
    destruct Hrest as [-> | ->]; reflexivity.
Qed.

Lemma demo_metadata_exact :
  exact_value (FT:=DemoFloat.text) (PDict DemoFloat.metadata).
Proof.
  apply exact_dict. split.
  - repeat (constructor; [ cbn [map fst In]; intuition discriminate | ]).
    constructor.
  - destruct demo_floats_round_trip as [H25 H100].
    constructor; [ split; [ split; reflexivity | exact I ] | ].
    constructor; [ split; [ split; reflexivity | exact I ] | ].
    constructor; [ split; split; reflexivity | ].
    constructor; [ split; [ split; reflexivity | exact H25 ] | ].
    constructor; [ split; [ split; reflexivity | exact H100 ] | ].
    constructor.
Qed.



(** The condition on the metadata is needed as well: a metadata value that
    is the same two-character string comes back as one character, and so
    does a metadata key, although text, filename and timestamp are plain. *)
Lemma export_metadata_surrogate_pair :
  parsed_field (FT:=DemoFloat.text)
    (export_to_json (FT:=DemoFloat.text) (u "2024-05-01T09:30:00")
       (u "page") (u "scan.pdf")
       (Some [ (u "language", PStr [0xd83d%N; 0xde00%N]) ]))
    (u "metadata")
  = Some (PDict [ (u "language", PStr [0x1f600%N]) ])
  /\ parsed_field (FT:=DemoFloat.text)
       (export_to_json (FT:=DemoFloat.text) (u "2024-05-01T09:30:00")
          (u "page") (u "scan.pdf")
          (Some [ ([0xd83d%N; 0xde00%N], PInt 1) ]))
       (u "metadata")
     = Some (PDict [ ([0x1f600%N], PInt 1) ]).
Proof. split; vm_compute; reflexivity. Qed.

Section ShapeFacts.
Context {UDB : UnicodeDB}.
Import Re.

Lemma consumed_nil (cur : cursor) : consumed cur [] cur.
Proof. split; [ reflexivity | cbn; lia ]. Qed.

Lemma consumed_app (a b c : cursor) (s1 s2 : pystr) :
  consumed a s1 b -> consumed b s2 c -> consumed a (s1 ++ s2) c.
Proof.
  intros [H1 P1] [H2 P2]. split.
  - rewrite H1, H2, app_assoc. reflexivity.
  - rewrite length_app. lia.
Qed.

Lemma rep_loop_sound (body : kont -> kont) (P : pystr -> Prop) (grouped : bool)
      (lo : nat) (hi : option nat) :
  sound_step body P grouped ->
  forall fuel count (k : kont) (cur f : cursor),
    match hi with Some h => (count <= h)%nat | None => True end ->
    rep_loop body lo hi fuel count k cur = Some f ->
    exists cur' segs,
      k cur' = Some f /\ consumed cur (concat segs) cur' /\ Forall P segs
      /\ (lo <= count + length segs)%nat
      /\ match hi with Some h => (count + length segs <= h)%nat | None => True end
      /\ (grouped = false -> group1 cur' = group1 cur).
Proof.
  intros Hbody. induction fuel as [| fuel IH]; intros count k cur f Hcount Hloop;
    [ discriminate | ].
  cbn [rep_loop] in Hloop.
  destruct (may_repeat hi count) eqn:Hmay.
  - destruct (body _ cur) as [final |] eqn:Hagain.
    + injection Hloop as ->.
      apply Hbody in Hagain. destruct Hagain as (cur1 & seg & Hk & Hseg & HP & Hg).
      destruct (pos cur <? pos cur1)%nat; [ | discriminate ].
      apply IH in Hk.
      * destruct Hk as (cur' & segs & Hk & Hsegs & HPs & Hlo & Hhi & Hg').
        exists cur', (seg :: segs). cbn [concat length].
        split; [ exact Hk | ]. split; [ now apply consumed_app with cur1 | ].
        split; [ now constructor | ]. split; [ lia | ].
        split; [ destruct hi; [ lia | exact I ] | ].
        intros E. rewrite Hg', Hg by exact E. reflexivity.
      * destruct hi as [h |]; [ | exact I ]. cbn in Hmay.
        apply Nat.ltb_lt in Hmay. lia.
    + destruct (lo <=? count)%nat eqn:Hlo; [ | discriminate ].
      apply Nat.leb_le in Hlo.
      exists cur, []. cbn [concat length].
      split; [ exact Hloop | ]. split; [ apply consumed_nil | ].
      split; [ constructor | ]. split; [ lia | ].
      split; [ destruct hi; [ lia | exact I ] | reflexivity ].
  - destruct (lo <=? count)%nat eqn:Hlo; [ | discriminate ].
    apply Nat.leb_le in Hlo.
    exists cur, []. cbn [concat length].
    split; [ exact Hloop | ]. split; [ apply consumed_nil | ].
    split; [ constructor | ]. split; [ lia | ].
    split; [ destruct hi; [ lia | exact I ] | reflexivity ].
Qed.

Lemma rmatch_sound (r : regex) : sound_step (rmatch r) (shape r) (has_group r).
Proof.
  induction r as [| accept | r1 IH1 r2 IH2 | r IH lo hi | | r IH];
    intros k cur f H; cbn [rmatch] in H; cbn [shape has_group].
  - exists cur, []. repeat split; [ exact H | cbn; lia ].
  - destruct (rest cur) as [| c rest'] eqn:Hrest; [ discriminate | ].
    destruct (accept c) eqn:Hc; [ | discriminate ].
    exists (advance c rest' cur), [c].
    split; [ exact H | ]. split; [ split; cbn; [ exact Hrest | lia ] | ].
    split; [ now exists c | reflexivity ].
  - apply IH1 in H. destruct H as (cur1 & s1 & H & Hs1 & HP1 & Hg1).
    apply IH2 in H. destruct H as (cur2 & s2 & H & Hs2 & HP2 & Hg2).
    exists cur2, (s1 ++ s2).
    split; [ exact H | ]. split; [ now apply consumed_app with cur1 | ].
    split; [ now exists s1, s2 | ].
    intros E. apply orb_false_iff in E. destruct E as [E1 E2].
    rewrite Hg2, Hg1 by assumption. reflexivity.
  - apply (rep_loop_sound (P:=shape r) (grouped:=has_group r)) in H;
      [ | exact IH | destruct hi; [ lia | exact I ] ].
    destruct H as (cur' & segs & H & Hsegs & HPs & Hlo & Hhi & Hg).
    exists cur', (concat segs).
    split; [ exact H | ]. split; [ exact Hsegs | ].
    split; [ | exact Hg ].
    exists segs. repeat split; [ exact HPs | lia | destruct hi; [ lia | exact I ] ].
  - destruct (xorb (word_before cur) (word_after cur)); [ | discriminate ].
    exists cur, []. repeat split; [ exact H | cbn; lia ].
  - apply IH in H. destruct H as (cur1 & seg & H & Hseg & HP & _).
    exists (set_group (pos cur, pos cur1) cur1), seg.
    split; [ exact H | ]. split; [ exact Hseg | ].
    split; [ exact HP | discriminate ].
Qed.

(** [text[i:j]] for a piece [seg] that starts at offset [i]. *)
Lemma slice_middle (pre seg post : pystr) :
  slice (pre ++ seg ++ post) (length pre) (length pre + length seg) = seg.
Proof.
  unfold slice. rewrite skipn_app, Nat.sub_diag, skipn_all. cbn [app skipn].
  replace (length pre + length seg - length pre)%nat with (length seg + 0)%nat by lia.
  rewrite firstn_app_2. cbn [firstn]. apply app_nil_r.
Qed.

(** Every match [finditer] reports was found by [match_at] at some offset
    of the text. *)
Lemma finditer_from_match_at (r : regex) (text : pystr) (m : found) :
  forall (subject pre : pystr) (left : option codepoint) (skip : nat),
    text = pre ++ subject ->
    In m (finditer_from r left subject (length pre) skip) ->
    exists pre' subject' left',
      text = pre' ++ subject'
      /\ match_at r left' subject' (length pre') = Some m.
Proof.
  induction subject as [| c subject IH]; intros pre left skip Htext Hin.
  - destruct skip; cbn [finditer_from] in Hin; [ | contradiction ].
    destruct (match_at r left [] (length pre)) as [m' |] eqn:E; [ | contradiction ].
    destruct Hin as [<- | []]. now exists pre, [], left.
  - assert (Hnext : text = (pre ++ [c]) ++ subject)
      by (rewrite <- app_assoc; exact Htext).
    assert (Hlen : S (length pre) = length (pre ++ [c]))
      by (rewrite length_app; cbn; lia).
    destruct skip; cbn [finditer_from] in Hin.
    + destruct (match_at r left (c :: subject) (length pre)) as [m' |] eqn:E.
      * destruct Hin as [<- | Hin]; [ now exists pre, (c :: subject), left | ].
        rewrite Hlen in Hin. now apply IH in Hin.
      * rewrite Hlen in Hin. now apply IH in Hin.
    + rewrite Hlen in Hin. now apply IH in Hin.
Qed.

(** A match found at an offset consumed a text of the pattern's shape. *)
Lemma match_at_shape (r : regex) (left : option codepoint) (subject : pystr)
      (at_ : nat) (m : found) :
  match_at r left subject at_ = Some m ->
  exists seg post,
    subject = seg ++ post /\ shape r seg
    /\ m_start m = at_ /\ m_end m = (at_ + length seg)%nat.
Proof.
  unfold match_at. intros Hm.
  destruct (rmatch r Some _) as [f |] eqn:E; [ | discriminate ].
  injection Hm as <-. apply rmatch_sound in E.
  destruct E as (cur' & seg & Hk & [Hrest Hpos] & HP & _).
  injection Hk as ->. cbn [rest pos] in Hrest, Hpos.
  exists seg, (rest f). cbn [m_start m_end]. repeat split; assumption.
Qed.

(** A match of a pattern, as a piece of the text: where it lies, and that
    it has the shape of the pattern. *)
Lemma finditer_shape (r : regex) (text : pystr) (m : found) :
  In m (finditer r text) ->
  exists pre seg post,
    text = pre ++ seg ++ post /\ shape r seg
    /\ m_start m = length pre /\ m_end m = (length pre + length seg)%nat.
Proof.
  intros Hin. unfold finditer in Hin.
  apply (@finditer_from_match_at r text m text [] None 0%nat eq_refl) in Hin.
  destruct Hin as (pre & subject & left & Htext & Hm).
  unfold match_at in Hm.
  destruct (rmatch r Some _) as [f |] eqn:E; [ | discriminate ].
  injection Hm as <-. apply rmatch_sound in E.
  destruct E as (cur' & seg & Hk & [Hrest Hpos] & HP & _).
  injection Hk as ->. cbn [rest pos] in Hrest, Hpos.
  exists pre, seg, (rest f). cbn [m_start m_end].
  rewrite Htext, Hrest. repeat split; assumption.
Qed.

(** What [findall] reports for a pattern without a group has the shape of
    the pattern and is a piece of the text. *)
Lemma findall_shape (r : regex) (text : pystr) :
  has_group r = false ->
  Forall (fun s => shape r s /\ substring s text) (findall r text).
Proof.
  intros Hgroup. unfold findall. apply Forall_forall. intros s Hin.
  apply in_map_iff in Hin. destruct Hin as (m & <- & Hin).
  apply finditer_shape in Hin.
  destruct Hin as (pre & seg & post & Htext & HP & Hstart & Hend).
  unfold reported. rewrite Hgroup, Hstart, Hend, Htext, slice_middle.
  split; [ exact HP | now exists pre, post ].
Qed.

(** A pattern that begins with its group: the group is the first part
    of the match. *)
Lemma rmatch_group_first (g rs : regex) (cur f : cursor) :
  has_group rs = false ->
  rmatch (Seq (Group g) rs) Some cur = Some f ->
  exists s1 s2,
    rest cur = s1 ++ s2 ++ rest f /\ shape g s1 /\ shape rs s2
    /\ group1 f = Some (pos cur, (pos cur + length s1)%nat).
Proof.
  intros Hgroup H. cbn [rmatch] in H.
  apply rmatch_sound in H. destruct H as (cur1 & s1 & H & [Hrest1 Hpos1] & HP1 & _).
  apply rmatch_sound in H. destruct H as (cur2 & s2 & H & [Hrest2 _] & HP2 & Hg).
  injection H as ->. cbn [set_group rest group1] in Hrest2, Hg.
  exists s1, s2. rewrite Hrest1, Hrest2, (Hg Hgroup), Hpos1.
  repeat split; assumption.
Qed.

(** A pattern that ends with its group: the group is the last part of
    the match. *)
Lemma rmatch_group_last (g : regex) (ps : list regex) :
  forall cur f : cursor,
    rmatch (seq_of (ps ++ [Group g])) Some cur = Some f ->
    exists s1 s2,
      rest cur = s1 ++ s2 ++ rest f /\ shape (seq_of ps) s1 /\ shape g s2
      /\ group1 f = Some ((pos cur + length s1)%nat,
                          (pos cur + length s1 + length s2)%nat).
Proof.
  induction ps as [| p ps IH]; intros cur f H; cbn [app seq_of fold_right] in H.
  - cbn [rmatch] in H. apply rmatch_sound in H.
    destruct H as (cur1 & s2 & H & [Hrest Hpos] & HP & _).
    injection H as <-. cbn [set_group rest group1].
    exists [], s2. cbn [app length]. rewrite Hrest, Hpos, Nat.add_0_r.
    repeat split. exact HP.
  - change (rmatch p (rmatch (seq_of (ps ++ [Group g])) Some) cur = Some f) in H.
    apply rmatch_sound in H. destruct H as (cur1 & s0 & H & [Hrest Hpos] & HP & _).
    apply IH in H. destruct H as (s1 & s2 & Hrest1 & HP1 & HP2 & Hg).
    exists (s0 ++ s1), s2. rewrite Hrest, Hrest1, Hg, Hpos, length_app, <- app_assoc.
    repeat split; [ | exact HP2 | f_equal; f_equal; lia ].
    change (shape (Seq p (seq_of ps)) (s0 ++ s1)). now exists s0, s1.
Qed.

Lemma has_group_last (g : regex) (ps : list regex) :
  has_group (seq_of (ps ++ [Group g])) = true.
Proof.
  induction ps as [| p ps IH]; [ reflexivity | ].
  change (has_group p || has_group (seq_of (ps ++ [Group g])) = true).
  rewrite IH. apply orb_true_r.
Qed.

(** What [findall] reports for a pattern that begins with its group:
    the text of the group, followed in the text by the rest of the match. *)
Lemma findall_group_first (g rs : regex) (text : pystr) :
  has_group rs = false ->
  Forall (fun s => shape g s
                   /\ exists s2, shape rs s2 /\ substring (s ++ s2) text)
         (findall (Seq (Group g) rs) text).
Proof.
  intros Hgroup. unfold findall. apply Forall_forall. intros s Hin.
  apply in_map_iff in Hin. destruct Hin as (m & <- & Hin).
  apply (@finditer_from_match_at _ text m text [] None 0%nat eq_refl) in Hin.
  destruct Hin as (pre & subject & left & Htext & Hm).
  unfold match_at in Hm.
  destruct (rmatch _ Some _) as [f |] eqn:E; [ | discriminate ].
  injection Hm as <-. apply rmatch_group_first in E; [ | exact Hgroup ].
  destruct E as (s1 & s2 & Hrest & HP1 & HP2 & Hg). cbn [rest pos] in Hrest, Hg.
  unfold reported. cbn [has_group m_group]. rewrite Hg, Htext, Hrest, slice_middle.
  split; [ exact HP1 | ]. exists s2. split; [ exact HP2 | ].
  exists pre, (rest f). now rewrite <- app_assoc.
Qed.

(** What [findall] reports for a pattern that ends with its group: the
    text of the group, preceded in the text by the rest of the match. *)
Lemma findall_group_last (g : regex) (ps : list regex) (text : pystr) :
  Forall (fun s => shape g s
                   /\ exists s1, shape (seq_of ps) s1 /\ substring (s1 ++ s) text)
         (findall (seq_of (ps ++ [Group g])) text).
Proof.
  unfold findall. apply Forall_forall. intros s Hin.
  apply in_map_iff in Hin. destruct Hin as (m & <- & Hin).
  apply (@finditer_from_match_at _ text m text [] None 0%nat eq_refl) in Hin.
  destruct Hin as (pre & subject & left & Htext & Hm).
  unfold match_at in Hm.
  destruct (rmatch _ Some _) as [f |] eqn:E; [ | discriminate ].
  injection Hm as <-. apply rmatch_group_last in E.
  destruct E as (s1 & s2 & Hrest & HP1 & HP2 & Hg). cbn [rest pos] in Hrest, Hg.
  unfold reported. cbn [m_group]. rewrite has_group_last, Hg, Htext, Hrest.
  replace (pre ++ s1 ++ s2 ++ rest f) with ((pre ++ s1) ++ s2 ++ rest f)
    by now rewrite <- app_assoc.
  rewrite <- length_app, slice_middle.
  split; [ exact HP2 | ]. exists s1. split; [ exact HP1 | ].
  exists pre, (rest f). now rewrite <- !app_assoc.
Qed.

(** Repetitions of a one-character class are runs of the class. *)
Lemma shape_lit_run (accept : codepoint -> bool) (segs : list pystr) :
  Forall (shape (Lit accept)) segs ->
  length (concat segs) = length segs /\ run_of accept (concat segs).
Proof.
  induction 1 as [| seg segs (c & -> & Hc) _ [IHlen IHrun]]; cbn [concat].
  - split; [ reflexivity | constructor ].
  - cbn [app length]. split; [ now rewrite IHlen | now constructor ].
Qed.

Lemma shape_rep_lit (accept : codepoint -> bool) (lo : nat) (hi : option nat)
      (seg : pystr) :
  shape (Rep (Lit accept) lo hi) seg ->
  run_of accept seg /\ (lo <= length seg)%nat
  /\ match hi with Some h => (length seg <= h)%nat | None => True end.
Proof.
  intros (segs & -> & Hsegs & Hlo & Hhi).
  apply shape_lit_run in Hsegs. destruct Hsegs as [-> Hrun].
  repeat split; assumption.
Qed.
Lemma concat_singletons (s : pystr) : concat (map (fun c => [c]) s) = s.
Proof. induction s as [| c s IH]; cbn; [ reflexivity | now rewrite IH ]. Qed.

Lemma shape_rep_lit_iff (accept : codepoint -> bool) (lo : nat) (hi : option nat)
      (seg : pystr) :
  shape (Rep (Lit accept) lo hi) seg
  <-> run_of accept seg /\ (lo <= length seg)%nat
      /\ match hi with Some h => (length seg <= h)%nat | None => True end.
Proof.
  split; [ apply shape_rep_lit | ].
  intros (Hrun & Hlo & Hhi). exists (map (fun c => [c]) seg).
  rewrite concat_singletons, length_map. repeat split; try assumption.
  apply Forall_map. eapply Forall_impl; [ | exact Hrun ].
  intros c Hc. now exists c.
Qed.

Lemma shape_star (accept : codepoint -> bool) (seg : pystr) :
  shape (star (Lit accept)) seg <-> run_of accept seg.
Proof.
  unfold star. rewrite shape_rep_lit_iff. split; [ tauto | ].
  intros H. repeat split; [ exact H | lia ].
Qed.

Lemma shape_plus (accept : codepoint -> bool) (seg : pystr) :
  shape (plus (Lit accept)) seg <-> seg <> [] /\ run_of accept seg.
Proof.
  unfold plus. rewrite shape_rep_lit_iff. split.
  - intros (Hrun & Hlen & _). split; [ | exact Hrun ].
    destruct seg; [ cbn in Hlen; lia | discriminate ].
  - intros [Hne Hrun]. repeat split; [ exact Hrun | ].
    destruct seg; [ contradiction | cbn; lia ].
Qed.

Lemma shape_chr (a : ascii) (seg : pystr) :
  shape (chr a) seg <-> seg = [N_of_ascii a].
Proof.
  unfold chr. cbn [shape]. split.
  - intros (c & -> & Hc). apply N.eqb_eq in Hc. now subst.
  - intros ->. exists (N_of_ascii a). split; [ reflexivity | apply N.eqb_refl ].
Qed.

Lemma shape_cons (r : regex) (rs : list regex) (seg : pystr) :
  shape (seq_of (r :: rs)) seg
  <-> exists s1 s2, seg = s1 ++ s2 /\ shape r s1 /\ shape (seq_of rs) s2.
Proof. reflexivity. Qed.

Lemma shape_last (r : regex) (seg : pystr) :
  shape (seq_of [r]) seg <-> shape r seg.
Proof.
  rewrite shape_cons. split.
  - intros (s1 & s2 & -> & H1 & H2). cbn in H2. subst s2. now rewrite app_nil_r.
  - intros H. exists seg, []. now rewrite app_nil_r.
Qed.

End ShapeFacts.

Section Completeness.
Context {UDB : UnicodeDB}.
Import Re.

Lemma shape_not_nullable (r : regex) :
  nullable r = false -> forall seg, shape r seg -> seg <> [].
Proof.
  induction r as [| accept | r1 IH1 r2 IH2 | r IH lo hi | | r IH];
    cbn [nullable shape]; intros Hnull seg Hshape; try discriminate.
  - destruct Hshape as (c & -> & _). discriminate.
  - destruct Hshape as (s1 & s2 & -> & H1 & H2).
    apply andb_false_iff in Hnull. destruct Hnull as [Hnull | Hnull].
    + specialize (IH1 Hnull s1 H1). destruct s1; [ contradiction | discriminate ].
    + specialize (IH2 Hnull s2 H2). destruct s1; [ exact IH2 | discriminate ].
  - apply orb_false_iff in Hnull. destruct Hnull as [Hlo Hnull].
    apply Nat.eqb_neq in Hlo.
    destruct Hshape as (segs & -> & Hsegs & Hlen & _).
    destruct Hsegs as [| s segs Hs _]; [ cbn in Hlen; lia | ].
    specialize (IH Hnull s Hs). cbn [concat].
    destruct s; [ contradiction | discriminate ].
  - now apply IH.
Qed.

Lemma rep_loop_complete (body : kont -> kont) (P : pystr -> Prop)
      (lo : nat) (hi : option nat) :
  complete_step body P -> (forall seg, P seg -> seg <> []) ->
  forall segs, Forall P segs ->
  forall fuel count (k : kont) (cur : cursor) (tail : pystr),
    (length (rest cur) < fuel)%nat ->
    rest cur = concat segs ++ tail ->
    (lo <= count + length segs)%nat ->
    match hi with Some h => (count + length segs <= h)%nat | None => True end ->
    (forall cur', consumed cur (concat segs) cur' -> k cur' <> None) ->
    rep_loop body lo hi fuel count k cur <> None.
Proof.
  intros Hbody Hprogress. induction 1 as [| seg segs Hseg Hsegs IH];
    intros fuel count k cur tail Hfuel Hrest Hlo Hhi Hk;
    (destruct fuel as [| fuel]; [ lia | ]); cbn [rep_loop].
  - match goal with |- context [match ?again with _ => _ end] =>
      destruct again; [ discriminate | ] end.
    cbn [length] in Hlo. replace (lo <=? count)%nat with true
      by (symmetry; apply Nat.leb_le; lia).
    apply Hk, consumed_nil.
  - assert (Hmay : may_repeat hi count = true).
    { destruct hi as [h |]; [ | reflexivity ]. cbn [length] in Hhi.
      apply Nat.ltb_lt. lia. }
    rewrite Hmay. cbn [concat] in Hrest. rewrite <- app_assoc in Hrest.
    match goal with |- context [body ?K cur] =>
      assert (Hagain : body K cur <> None) end.
    { apply (Hbody seg _ cur (concat segs ++ tail) Hseg Hrest).
      intros cur' [Hrest' Hpos'].
      replace (pos cur <? pos cur')%nat with true.
      - rewrite Hrest in Hrest'. apply app_inv_head in Hrest'.
        apply IH with tail.
        + rewrite Hrest, length_app in Hfuel. rewrite <- Hrest'.
          specialize (Hprogress seg Hseg). destruct seg; [ contradiction | ].
          cbn [length] in Hfuel. lia.
        + symmetry. exact Hrest'.
        + cbn [length] in Hlo. lia.
        + destruct hi; [ cbn [length] in Hhi; lia | exact I ].
        + intros cur'' Hcons. apply Hk. cbn [concat].
          apply consumed_app with cur'; [ | exact Hcons ].
          split; [ rewrite Hrest, <- Hrest'; reflexivity | exact Hpos' ].
      - symmetry. apply Nat.ltb_lt. specialize (Hprogress seg Hseg).
        destruct seg; [ contradiction | cbn [length] in Hpos'; lia ]. }
    destruct (body _ cur); [ discriminate | contradiction ].
Qed.

Lemma rmatch_complete (r : regex) : plain r = true -> complete_step (rmatch r) (shape r).
Proof.
  induction r as [| accept | r1 IH1 r2 IH2 | r IH lo hi | | r IH];
    cbn [plain]; intros Hplain seg k cur tail Hshape Hrest Hk;
    cbn [shape] in Hshape; cbn [rmatch]; try discriminate.
  - subst seg. apply Hk, consumed_nil.
  - destruct Hshape as (c & -> & Hc). cbn [app] in Hrest. rewrite Hrest, Hc.
    apply Hk. split; cbn; [ exact Hrest | lia ].
  - apply andb_true_iff in Hplain. destruct Hplain as [Hp1 Hp2].
    destruct Hshape as (s1 & s2 & -> & H1 & H2). rewrite <- app_assoc in Hrest.
    apply (IH1 Hp1 s1 _ cur (s2 ++ tail) H1 Hrest).
    intros cur1 Hcons1. destruct (Hcons1) as [Hrest1 _].
    rewrite Hrest in Hrest1. apply app_inv_head in Hrest1.
    apply (IH2 Hp2 s2 _ cur1 tail H2 (eq_sym Hrest1)).
    intros cur2 Hcons2. apply Hk. now apply consumed_app with cur1.
  - apply andb_true_iff in Hplain. destruct Hplain as [Hp Hnull].
    apply negb_true_iff in Hnull.
    destruct Hshape as (segs & -> & Hsegs & Hlo & Hhi).
    apply (rep_loop_complete (P:=shape r)) with (segs:=segs) (tail:=tail);
      try assumption; try lia.
    + exact (IH Hp).
    + exact (shape_not_nullable r Hnull).
  - apply (IH Hplain seg _ cur tail Hshape Hrest).
    intros cur' Hcons. apply Hk. destruct Hcons as [Hrest' Hpos'].
    split; assumption.
Qed.

(** A plain pattern matches at every offset where a text of its shape
    begins. *)
Lemma match_at_complete (r : regex) (seg post : pystr) (left : option codepoint)
      (at_ : nat) :
  plain r = true -> shape r seg -> match_at r left (seg ++ post) at_ <> None.
Proof.
  intros Hplain Hshape. unfold match_at.
  match goal with |- context [rmatch r Some ?cur] =>
    pose proof (@rmatch_complete r Hplain seg Some cur post Hshape eq_refl) as H
  end.
  destruct (rmatch r Some _); [ discriminate | ].
  exfalso. apply H; [ discriminate | reflexivity ].
Qed.

Lemma finditer_from_unfold (r : regex) (left : option codepoint) (subject : pystr)
      (at_ : nat) :
  finditer_from r left subject at_ 0
  = match match_at r left subject at_ with
    | Some m =>
        m :: match subject with
             | [] => []
             | c :: subject' =>
                 finditer_from r (Some c) subject' (S at_) (m_end m - at_ - 1)
             end
    | None =>
        match subject with
        | [] => []
        | c :: subject' => finditer_from r (Some c) subject' (S at_) 0
        end
    end.
Proof. destruct subject; reflexivity. Qed.

(** [finditer] finds a match of a plain pattern whenever the text has a
    piece of its shape. *)
Lemma finditer_from_complete (r : regex) (seg post : pystr) :
  plain r = true -> shape r seg ->
  forall (pre : pystr) (left : option codepoint) (at_ : nat),
    finditer_from r left (pre ++ seg ++ post) at_ 0 <> [].
Proof.
  intros Hplain Hshape.
  induction pre as [| c pre IH]; intros left at_; rewrite finditer_from_unfold.
  - cbn [app]. pose proof (@match_at_complete r seg post left at_ Hplain Hshape) as H.
    destruct (match_at r left (seg ++ post) at_); [ discriminate | contradiction ].
  - destruct (match_at r left _ at_); [ discriminate | ]. cbn [app]. apply IH.
Qed.

(** A plain pattern has a match in a text exactly when the text has a
    piece of the pattern's shape. *)
Lemma findall_plain (r : regex) (text : pystr) :
  plain r = true ->
  findall r text <> [] <-> exists seg, substring seg text /\ shape r seg.
Proof.
  intros Hplain. unfold findall. split.
  - destruct (finditer r text) as [| m ms] eqn:E; [ contradiction | ]. intros _.
    assert (Hin : In m (finditer r text)) by (rewrite E; now left).
    apply finditer_shape in Hin. destruct Hin as (pre & seg & post & -> & HP & _).
    exists seg. split; [ now exists pre, post | exact HP ].
  - intros (seg & (pre & post & ->) & HP) H. apply map_eq_nil in H.
    now apply (@finditer_from_complete r seg post Hplain HP pre None 0%nat).
Qed.
End Completeness.

Section FormatFacts.
Context {UDB : UnicodeDB} {FDB : FormatDB}.
Import Re.
Local Open Scope char_scope.

Lemma shape_opt_chr (a : ascii) (seg : pystr) :
  shape (opt (chr a)) seg <-> maybe a seg.
Proof.
  unfold opt, chr, maybe. rewrite shape_rep_lit_iff. split.
  - intros (Hrun & _ & Hlen). destruct seg as [| c [| c' seg]];
      [ now left | right | cbn in Hlen; lia ].
    inversion_clear Hrun as [| ? ? Hc _]. apply N.eqb_eq in Hc. now subst.
  - intros [-> | ->]; repeat split; try (cbn; lia); repeat constructor.
    apply N.eqb_refl.
Qed.

Lemma shape_letters (letters : list ascii) (rs : list regex) (seg : pystr) :
  shape (seq_of (map ichr letters ++ rs)) seg
  <-> exists s1 s2,
        seg = s1 ++ s2
        /\ Forall2 (fun a c => sre_ignore_case (N_of_ascii a) c = true) letters s1
        /\ shape (seq_of rs) s2.
Proof.
  revert seg. induction letters as [| a letters IH]; intros seg; cbn [map app].
  - split.
    + intros H. exists [], seg. repeat split; [ constructor | exact H ].
    + intros (s1 & s2 & -> & H1 & H2). inversion H1. exact H2.
  - rewrite shape_cons. split.
    + intros (s1 & s2 & -> & (c & -> & Hc) & H2). apply IH in H2.
      destruct H2 as (t1 & t2 & -> & Ht1 & Ht2).
      exists (c :: t1), t2. repeat split; [ now constructor | exact Ht2 ].
    + intros (s1 & s2 & -> & H1 & H2).
      inversion H1 as [| a' c letters' t1 Hc Ht1]; subst.
      exists [c], (t1 ++ s2). repeat split; [ now exists c | ].
      apply IH. now exists t1, s2.
Qed.

Lemma shape_iword (w : string) (rs : list regex) (seg : pystr) :
  shape (seq_of (iword w ++ rs)) seg
  <-> exists s1 s2, seg = s1 ++ s2 /\ ci_word w s1 /\ shape (seq_of rs) s2.
Proof. apply shape_letters. Qed.

Lemma search_from_unfold (r : regex) (left : option codepoint) (subject : pystr)
      (at_ : nat) :
  search_from r left subject at_
  = match match_at r left subject at_ with
    | Some m => Some m
    | None =>
        match subject with
        | [] => None
        | c :: subject' => search_from r (Some c) subject' (S at_)
        end
    end.
Proof. destruct subject; reflexivity. Qed.

(** What [re.search] finds is a piece of the text of the pattern's shape. *)
Lemma search_from_shape (r : regex) (m : found) :
  forall (subject : pystr) (left : option codepoint) (at_ : nat),
    search_from r left subject at_ = Some m ->
    exists pre seg post, subject = pre ++ seg ++ post /\ shape r seg.
Proof.
  induction subject as [| c subject IH]; intros left at_ H;
    rewrite search_from_unfold in H;
    destruct (match_at r left _ at_) as [m' |] eqn:E.
  - apply match_at_shape in E. destruct E as (seg & post & Hs & HP & _).
    now exists [], seg, post.
  - discriminate.
  - apply match_at_shape in E. destruct E as (seg & post & Hs & HP & _).
    now exists [], seg, post.
  - apply IH in H. destruct H as (pre & seg & post & -> & HP).
    now exists (c :: pre), seg, post.
Qed.

(** [re.search] finds a match of a plain pattern whenever the text has a
    piece of its shape. *)
Lemma search_from_complete (r : regex) (seg post : pystr) :
  plain r = true -> shape r seg ->
  forall (pre : pystr) (left : option codepoint) (at_ : nat),
    search_from r left (pre ++ seg ++ post) at_ <> None.
Proof.
  intros Hplain Hshape.
  induction pre as [| c pre IH]; intros left at_; rewrite search_from_unfold.
  - cbn [app]. pose proof (@match_at_complete _ r seg post left at_ Hplain Hshape) as H.
    destruct (match_at r left (seg ++ post) at_); [ discriminate | contradiction ].
  - destruct (match_at r left _ at_); [ discriminate | ]. cbn [app]. apply IH.
Qed.

(** The tags, one test after the other. *)
Lemma detect_document_format_tags (text : pystr) :
  detect_document_format text
  = (if count_if table_row (split_on LF text) >=? 3
     then [table_tag (count_if table_row (split_on LF text))] else [])
    ++ (if existsb (fun pattern =>
                      match search pattern text with Some _ => true | None => false end)
                   invoice_patterns
        then [invoice_tag] else [])
    ++ (if len (findall form_pattern text) >=? 3
        then [form_tag (len (findall form_pattern text))] else []).
Proof.
  unfold detect_document_format. rewrite !Z.geb_leb.
  destruct (3 <=? count_if _ _)%Z, (existsb _ _), (3 <=? len _)%Z; reflexivity.
Qed.

Lemma count_if_filter (A : Type) (cond : A -> bool) (xs : list A) :
  count_if cond xs = len (filter cond xs).
Proof.
  unfold len. induction xs as [| x xs IH]; cbn [count_if filter]; [ reflexivity | ].
  rewrite IH. destruct (cond x); cbn [length]; lia.
Qed.

Lemma table_tag_inj (n m : Z) : table_tag n = table_tag m -> n = m.
Proof.
  unfold table_tag. intros H. injection H as H.
  apply app_inv_tail in H.
  rewrite <- (int_of_token_str_of_int n), <- (int_of_token_str_of_int m).
  now rewrite H.
Qed.

Lemma form_tag_inj (n m : Z) : form_tag n = form_tag m -> n = m.
Proof.
  unfold form_tag. intros H. injection H as H.
  apply app_inv_tail in H.
  rewrite <- (int_of_token_str_of_int n), <- (int_of_token_str_of_int m).
  now rewrite H.
Qed.

Lemma shape_invoice_label (seg : pystr) :
  shape (nth 0 invoice_patterns Eps) seg <-> invoice_label seg.
Proof.
  cbn [nth invoice_patterns]. unfold invoice_label. split.
  - intros H. apply -> shape_iword in H. destruct H as (w & s & -> & Hw & H).
    apply -> shape_cons in H. destruct H as (b1 & s1 & -> & Hb1 & H).
    apply -> shape_cons in H. destruct H as (h & s2 & -> & Hh & H).
    apply -> shape_cons in H. destruct H as (b2 & s3 & -> & Hb2 & H).
    apply -> shape_cons in H. destruct H as (c & s4 & -> & Hc & H).
    apply -> shape_cons in H. destruct H as (b3 & ident & -> & Hb3 & H).
    apply -> shape_last in H. cbn [shape] in H. apply -> shape_plus in H.
    apply -> shape_star in Hb1. apply -> shape_star in Hb2. apply -> shape_star in Hb3.
    apply -> shape_opt_chr in Hh. apply -> shape_opt_chr in Hc.
    exists w, b1, h, b2, c, b3, ident. tauto.
  - intros (w & b1 & h & b2 & c & b3 & ident & -> & Hw & Hb1 & Hh & Hb2 & Hc
            & Hb3 & Hne & Hident).
    apply shape_iword. exists w, (b1 ++ h ++ b2 ++ c ++ b3 ++ ident).
    repeat split; [ exact Hw | ].
    apply shape_cons. exists b1, (h ++ b2 ++ c ++ b3 ++ ident).
    repeat split; [ now apply shape_star | ].
    apply shape_cons. exists h, (b2 ++ c ++ b3 ++ ident).
    repeat split; [ now apply shape_opt_chr | ].
    apply shape_cons. exists b2, (c ++ b3 ++ ident).
    repeat split; [ now apply shape_star | ].
    apply shape_cons. exists c, (b3 ++ ident).
    repeat split; [ now apply shape_opt_chr | ].
    apply shape_cons. exists b3, ident.
    repeat split; [ now apply shape_star | ].
    apply shape_last. cbn [shape]. now apply shape_plus.
Qed.

Lemma shape_total_label (seg : pystr) :
  shape (nth 1 invoice_patterns Eps) seg <-> total_label seg.
Proof.
  cbn [nth invoice_patterns]. unfold total_label. split.
  - intros H. apply -> shape_iword in H. destruct H as (w & s & -> & Hw & H).
    apply -> shape_cons in H. destruct H as (b1 & s1 & -> & Hb1 & H).
    apply -> shape_cons in H. destruct H as (c & s2 & -> & Hc & H).
    apply -> shape_cons in H. destruct H as (b2 & d & -> & Hb2 & H).
    apply -> shape_last in H. apply -> shape_chr in H. subst d.
    apply -> shape_star in Hb1. apply -> shape_star in Hb2. apply -> shape_opt_chr in Hc.
    exists w, b1, c, b2. tauto.
  - intros (w & b1 & c & b2 & -> & Hw & Hb1 & Hc & Hb2).
    apply shape_iword. exists w, (b1 ++ c ++ b2 ++ [N_of_ascii "$"]).
    repeat split; [ exact Hw | ].
    apply shape_cons. exists b1, (c ++ b2 ++ [N_of_ascii "$"]).
    repeat split; [ now apply shape_star | ].
    apply shape_cons. exists c, (b2 ++ [N_of_ascii "$"]).
    repeat split; [ now apply shape_opt_chr | ].
    apply shape_cons. exists b2, [N_of_ascii "$"].
    repeat split; [ now apply shape_star | ].
    now apply shape_last, shape_chr.
Qed.

Lemma shape_amount_due (seg : pystr) :
  shape (nth 2 invoice_patterns Eps) seg <-> amount_due seg.
Proof.
  cbn [nth invoice_patterns]. unfold amount_due. split.
  - intros H. apply -> shape_iword in H. destruct H as (w1 & s & -> & Hw1 & H).
    apply -> (shape_cons (star space) (iword "due")) in H.
    destruct H as (b & s1 & -> & Hb & H).
    rewrite <- (app_nil_r (iword "due")) in H. apply -> shape_iword in H.
    destruct H as (w2 & e & -> & Hw2 & ->). rewrite app_nil_r.
    apply -> shape_star in Hb. exists w1, b, w2. tauto.
  - intros (w1 & b & w2 & -> & Hw1 & Hb & Hw2).
    apply shape_iword. exists w1, (b ++ w2). repeat split; [ exact Hw1 | ].
    apply (shape_cons (star space) (iword "due")). exists b, w2.
    repeat split; [ now apply shape_star | ].
    rewrite <- (app_nil_r (iword "due")). apply shape_iword.
    exists w2, []. rewrite app_nil_r. repeat split. exact Hw2.
Qed.

Lemma invoice_patterns_plain : forallb plain invoice_patterns = true.
Proof. reflexivity. Qed.

Lemma shape_form_pattern (label rest_ : pystr) :
  shape (seq_of [ Lit (range "A" "Z");
                  plus (Lit (fun c => range "a" "z" c || range "A" "Z" c
                                      || py_isspace c)) ]) label ->
  shape (seq_of [ chr ":"; star space;
                  at_least (Lit (fun c => (c =? underscore)%N || py_isspace c)) 2 ])
        rest_ ->
  form_label label /\ exists fill, fill_in fill /\ rest_ = N_of_ascii ":" :: fill.
Proof.
  intros Hlabel Hrest. split.
  - apply -> shape_cons in Hlabel. destruct Hlabel as (s1 & others & -> & (c & -> & Hc) & H).
    apply -> shape_last in H. apply -> shape_plus in H. destruct H as [Hne Hrun].
    now exists c, others.
  - apply -> shape_cons in Hrest. destruct Hrest as (s1 & s2 & -> & Hcolon & H).
    apply -> shape_chr in Hcolon. subst s1.
    apply -> shape_cons in H. destruct H as (b & fill & -> & Hb & H).
    apply -> shape_star in Hb. apply -> shape_last in H. unfold at_least in H.
    apply -> shape_rep_lit_iff in H. destruct H as (Hrun & Hlen & _).
    exists (b ++ fill). split; [ | reflexivity ]. split.
    + rewrite length_app. lia.
    + apply Forall_app. split; [ | exact Hrun ].
      eapply Forall_impl; [ | exact Hb ]. cbn beta. intros c ->. apply orb_true_r.
Qed.
End FormatFacts.

(** X1: [detect_document_format] tags a text as a table exactly when at
    least three of its lines are table rows, and the tag shows how many
    there are. A table row has at least three whitespace-separated
    tokens and a digit, so a text of fewer than three lines, or without
    a digit, is never tagged as a table. *)
Theorem detect_table_tag :
  forall (UDB : UnicodeDB) (FDB : FormatDB) (text : pystr),
    let rows := filter table_row (split_on LF text) in
    (forall n : Z,
        In (table_tag n) (detect_document_format text) <-> n = len rows /\ 3 <= n)
    /\ len rows <= len (split_on LF text)
    /\ Forall (fun line => 3 <= len (split_ws line)
                           /\ exists c, In c line /\ py_isdigit c = true) rows.
Proof.
  intros UDB FDB text rows. split; [ | split ].
  - intros n. rewrite detect_document_format_tags, count_if_filter. fold rows.
    rewrite !in_app_iff. split.
    + intros [H | [H | H]].
      * destruct (len rows >=? 3) eqn:E; [ | contradiction ].
        destruct H as [H | []]. apply table_tag_inj in H. subst n.
        rewrite Z.geb_leb in E. apply Z.leb_le in E. split; [ reflexivity | exact E ].
      * destruct (existsb _ _); [ | contradiction ].
        destruct H as [H | []]. discriminate H.
      * destruct (len (Re.findall _ _) >=? 3); [ | contradiction ].
        destruct H as [H | []]. discriminate H.
    + intros [-> Hn]. left.
      replace (len rows >=? 3) with true
        by (symmetry; rewrite Z.geb_leb; now apply Z.leb_le).
      now left.
  - unfold len. apply inj_le, filter_length_le.
  - apply Forall_forall. intros line Hin. apply filter_In in Hin.
    destruct Hin as [_ Hrow]. unfold table_row in Hrow.
    apply andb_true_iff in Hrow. destruct Hrow as [Htokens Hdigit].
    apply Z.leb_le in Htokens. apply existsb_exists in Hdigit.
    split; assumption.
Qed.

(** X2: [detect_document_format] tags a text as an invoice exactly when
    the text contains one of three phrases: "invoice" followed by an
    identifier (a [#] and a colon may stand between them), "total"
    followed by a dollar sign (a colon may stand between them), or
    "amount due"; letters in any case, whitespace allowed between the
    parts. *)
Theorem detect_invoice_tag :
  forall (UDB : UnicodeDB) (FDB : FormatDB) (text : pystr),
    In invoice_tag (detect_document_format text)
    <-> exists seg,
          substring seg text
          /\ (invoice_label seg \/ total_label seg \/ amount_due seg).
Proof.
  intros UDB FDB text. rewrite detect_document_format_tags, !in_app_iff. split.
  - intros [H | [H | H]].
    + destruct (_ >=? 3); [ | contradiction ]. destruct H as [H | []]. discriminate H.
    + destruct (existsb _ _) eqn:E; [ | contradiction ].
      apply existsb_exists in E. destruct E as (pattern & Hin & Hfound).
      destruct (search pattern text) as [m |] eqn:Hm; [ | discriminate ].
      apply search_from_shape in Hm. destruct Hm as (pre & seg & post & -> & Hshape).
      exists seg. split; [ now exists pre, post | ].
      destruct Hin as [<- | [<- | [<- | []]]].
      * left. now apply shape_invoice_label.
      * right; left. now apply shape_total_label.
      * right; right. now apply shape_amount_due.
    + destruct (_ >=? 3); [ | contradiction ]. destruct H as [H | []]. discriminate H.
  - intros (seg & (pre & post & ->) & Hphrase). right; left.
    assert (Hsome : exists pattern,
               In pattern invoice_patterns /\ plain pattern = true
               /\ shape pattern seg).
    { destruct Hphrase as [H | [H | H]].
      - exists (nth 0 invoice_patterns Re.Eps).
        repeat split; [ now left | now apply shape_invoice_label ].
      - exists (nth 1 invoice_patterns Re.Eps).
        repeat split; [ right; now left | now apply shape_total_label ].
      - exists (nth 2 invoice_patterns Re.Eps).
        repeat split; [ right; right; now left | now apply shape_amount_due ]. }
    destruct Hsome as (pattern & Hin & Hplain & Hshape).
    replace (existsb _ invoice_patterns) with true; [ now left | ].
    symmetry. apply existsb_exists. exists pattern. split; [ exact Hin | ].
    pose proof (@search_from_complete _ pattern seg post Hplain Hshape pre None 0%nat)
      as Hfound.
    unfold search. destruct (search_from _ _ _ _); [ reflexivity | contradiction ].
Qed.

(** X3: [detect_document_format] tags a text as a form exactly when the
    form pattern has at least three matches, and the tag shows how many.
    Every field counted is a label that starts with a capital letter
    A-Z and goes on with at least one letter or whitespace character,
    and it is followed in the text by a colon and at least two
    whitespace or underscore characters. *)
Theorem detect_form_tag :
  forall (UDB : UnicodeDB) (FDB : FormatDB) (text : pystr),
    let fields := Re.findall form_pattern text in
    (forall n : Z,
        In (form_tag n) (detect_document_format text) <-> n = len fields /\ 3 <= n)
    /\ Forall (fun label =>
                 form_label label
                 /\ exists fill,
                      fill_in fill
                      /\ substring (label ++ N_of_ascii ":" :: fill) text) fields.
Proof.
  intros UDB FDB text fields. split.
  - intros n. rewrite detect_document_format_tags. fold fields.
    rewrite !in_app_iff. split.
    + intros [H | [H | H]].
      * destruct (_ >=? 3); [ | contradiction ]. destruct H as [H | []]. discriminate H.
      * destruct (existsb _ _); [ | contradiction ].
        destruct H as [H | []]. discriminate H.
      * destruct (len fields >=? 3) eqn:E; [ | contradiction ].
        destruct H as [H | []]. apply form_tag_inj in H. subst n.
        rewrite Z.geb_leb in E. apply Z.leb_le in E. split; [ reflexivity | exact E ].
    + intros [-> Hn]. right; right.
      replace (len fields >=? 3) with true
        by (symmetry; rewrite Z.geb_leb; now apply Z.leb_le).
      now left.
  - subst fields. unfold form_pattern.
    eapply Forall_impl; [ | apply findall_group_first; reflexivity ].
    cbn beta. intros label (Hlabel & rest_ & Hrest & Hsub).
    destruct (shape_form_pattern Hlabel Hrest) as (Hform & fill & Hfill & ->).
    split; [ exact Hform | ]. now exists fill.
Qed.

Section EntityFacts.
Context {UDB : UnicodeDB}.
Import Re.
Local Open Scope char_scope.

Lemma shape_digits (lo hi : nat) (seg : pystr) :
  shape (between digit lo hi) seg <-> digits lo hi seg.
Proof.
  unfold between, digit, digits. rewrite shape_rep_lit_iff. tauto.
Qed.

Lemma shape_times_digit (n : nat) (seg : pystr) :
  shape (times digit n) seg <-> digits n n seg.
Proof. apply shape_digits. Qed.

Lemma shape_separator (chars : string) (seg : pystr) :
  shape (Lit (one_of chars)) seg <-> separator chars seg.
Proof. reflexivity. Qed.

Lemma shape_opt_separator (chars : string) (seg : pystr) :
  shape (opt (Lit (one_of chars))) seg <-> seg = [] \/ separator chars seg.
Proof.
  unfold opt, separator. rewrite shape_rep_lit_iff. split.
  - intros (Hrun & _ & Hlen). destruct seg as [| c [| c' seg]];
      [ now left | right | cbn in Hlen; lia ].
    inversion_clear Hrun as [| ? ? Hc _]. now exists c.
  - intros [-> | (c & -> & Hc)]; repeat split; try (cbn; lia); repeat constructor.
    exact Hc.
Qed.

Lemma shape_boundary (seg : pystr) : shape Boundary seg <-> seg = [].
Proof. reflexivity. Qed.

Lemma shape_phone (seg : pystr) : shape phone_re seg <-> phone_shape seg.
Proof.
  unfold phone_re, phone_shape. split.
  - intros H.
    apply -> shape_cons in H. destruct H as (e1 & t & -> & -> & H).
    apply -> shape_cons in H. destruct H as (a & t1 & -> & Ha & H).
    apply -> shape_cons in H. destruct H as (s1 & t2 & -> & Hs1 & H).
    apply -> shape_cons in H. destruct H as (b & t3 & -> & Hb & H).
    apply -> shape_cons in H. destruct H as (s2 & t4 & -> & Hs2 & H).
    apply -> shape_cons in H. destruct H as (c & e2 & -> & Hc & H).
    apply -> shape_last in H. cbn [shape] in H. subst e2.
    apply -> shape_times_digit in Ha. apply -> shape_times_digit in Hb.
    apply -> shape_times_digit in Hc.
    apply -> shape_opt_separator in Hs1. apply -> shape_opt_separator in Hs2.
    exists a, s1, b, s2, c. cbn [app]. rewrite app_nil_r. tauto.
  - intros (a & s1 & b & s2 & c & -> & Ha & Hs1 & Hb & Hs2 & Hc).
    apply shape_cons. exists [], (a ++ s1 ++ b ++ s2 ++ c). repeat split.
    apply shape_cons. exists a, (s1 ++ b ++ s2 ++ c).
    repeat split; [ now apply shape_times_digit | ].
    apply shape_cons. exists s1, (b ++ s2 ++ c).
    repeat split; [ now apply shape_opt_separator | ].
    apply shape_cons. exists b, (s2 ++ c).
    repeat split; [ now apply shape_times_digit | ].
    apply shape_cons. exists s2, c.
    repeat split; [ now apply shape_opt_separator | ].
    apply shape_cons. exists c, []. rewrite app_nil_r.
    repeat split; [ now apply shape_times_digit | ].
    now apply shape_last.
Qed.

Lemma shape_date (seg : pystr) : shape date_re seg <-> date_shape seg.
Proof.
  unfold date_re, date_shape. split.
  - intros H.
    apply -> shape_cons in H. destruct H as (a & t1 & -> & Ha & H).
    apply -> shape_cons in H. destruct H as (s1 & t2 & -> & Hs1 & H).
    apply -> shape_cons in H. destruct H as (b & t3 & -> & Hb & H).
    apply -> shape_cons in H. destruct H as (s2 & c & -> & Hs2 & H).
    apply -> shape_last in H.
    apply -> shape_digits in Ha. apply -> shape_digits in Hb.
    apply -> shape_digits in H.
    exists a, s1, b, s2, c. tauto.
  - intros (a & s1 & b & s2 & c & -> & Ha & Hs1 & Hb & Hs2 & Hc).
    apply shape_cons. exists a, (s1 ++ b ++ s2 ++ c).
    repeat split; [ now apply shape_digits | ].
    apply shape_cons. exists s1, (b ++ s2 ++ c). repeat split; [ exact Hs1 | ].
    apply shape_cons. exists b, (s2 ++ c).
    repeat split; [ now apply shape_digits | ].
    apply shape_cons. exists s2, c. repeat split; [ exact Hs2 | ].
    now apply shape_last, shape_digits.
Qed.

Lemma shape_email (seg : pystr) : shape email_re seg -> email_shape seg.
Proof.
  unfold email_re, email_shape. intros H.
  apply -> shape_cons in H. destruct H as (e1 & t & -> & -> & H).
  apply -> shape_cons in H. destruct H as (local & t1 & -> & Hlocal & H).
  apply -> shape_cons in H. destruct H as (at_ & t2 & -> & Hat & H).
  apply -> shape_cons in H. destruct H as (domain & t3 & -> & Hdomain & H).
  apply -> shape_cons in H. destruct H as (dot & t4 & -> & Hdot & H).
  apply -> shape_cons in H. destruct H as (label & e2 & -> & Hlabel & H).
  apply -> shape_last in H. cbn [shape] in H. subst e2.
  apply -> shape_plus in Hlocal. apply -> shape_plus in Hdomain.
  apply -> shape_chr in Hat. apply -> shape_chr in Hdot. subst at_ dot.
  unfold at_least in Hlabel. apply -> shape_rep_lit_iff in Hlabel.
  exists local, domain, label. cbn [app]. rewrite app_nil_r.
  unfold local_char, domain_char, label_char. tauto.
Qed.

Lemma shape_amount (seg : pystr) :
  shape (seq_of [ between digit 1 3;
                  star (seq_of [chr ","; times digit 3]);
                  opt (seq_of [chr "."; times digit 2]) ]) seg
  <-> amount_shape seg.
Proof.
  unfold amount_shape. split.
  - intros H.
    apply -> shape_cons in H. destruct H as (lead & t1 & -> & Hlead & H).
    apply -> shape_cons in H. destruct H as (gs & cents & -> & Hgs & H).
    apply -> shape_last in H. apply -> shape_digits in Hlead.
    destruct Hgs as (groups & -> & Hgroups & _).
    destruct H as (cs & -> & Hcs & _ & Hlen).
    exists lead, groups, (concat cs).
    split; [ reflexivity | ]. split; [ exact Hlead | ]. split.
    + eapply Forall_impl; [ | exact Hgroups ]. cbn beta. intros g Hg.
      apply -> shape_cons in Hg. destruct Hg as (comma & ds & -> & Hcomma & Hds).
      apply -> shape_chr in Hcomma. subst comma.
      apply -> shape_last in Hds. apply -> shape_times_digit in Hds.
      now exists ds.
    + destruct Hcs as [| c cs Hc Hcs]; [ now left | right ].
      destruct Hcs; [ | cbn in Hlen; lia ]. cbn [concat]. rewrite app_nil_r.
      apply -> shape_cons in Hc. destruct Hc as (dot & ds & -> & Hdot & Hds).
      apply -> shape_chr in Hdot. subst dot.
      apply -> shape_last in Hds. apply -> shape_times_digit in Hds.
      now exists ds.
  - intros (lead & groups & cents & -> & Hlead & Hgroups & Hcents).
    apply shape_cons. exists lead, (concat groups ++ cents).
    repeat split; [ now apply shape_digits | ].
    apply shape_cons. exists (concat groups), cents. repeat split.
    + exists groups. repeat split; [ | lia ].
      eapply Forall_impl; [ | exact Hgroups ]. cbn beta. intros g (ds & -> & Hds).
      apply shape_cons. exists [N_of_ascii ","], ds.
      repeat split; [ now apply shape_chr | ].
      now apply shape_last, shape_times_digit.
    + apply shape_last. destruct Hcents as [-> | (ds & -> & Hds)].
      * exists []. repeat split; [ constructor | lia | cbn; lia ].
      * exists [N_of_ascii "." :: ds]. cbn [concat]. rewrite app_nil_r.
        repeat split; [ | cbn; lia | cbn; lia ].
        constructor; [ | constructor ].
        apply shape_cons. exists [N_of_ascii "."], ds.
        repeat split; [ now apply shape_chr | ].
        now apply shape_last, shape_times_digit.
Qed.

Lemma capped_Forall (P : pystr -> Prop) (cap : nat) (found kept : list pystr) :
  Forall P found -> capped cap found = Some kept -> Forall P kept.
Proof.
  intros HP. unfold capped. destruct found as [| x found]; [ discriminate | ].
  intros H. injection H as <-.
  rewrite <- (firstn_skipn cap (x :: found)) in HP.
  apply Forall_app in HP. apply HP.
Qed.

Lemma extract_key_data_lookup (text : pystr) :
  dict_get (extract_key_data text) (u "Emails") = capped 3 (findall email_re text)
  /\ dict_get (extract_key_data text) (u "Phones") = capped 3 (findall phone_re text)
  /\ dict_get (extract_key_data text) (u "Dates") = capped 3 (findall date_re text)
  /\ dict_get (extract_key_data text) (u "Amounts") = capped 5 (findall amount_re text).
Proof.
  pose proof (extract_key_data_get text) as Hget. unfold categories in Hget.
  repeat match goal with
         | H : Forall _ (_ :: _) |- _ => inversion_clear H
         end.
  cbn [fst snd] in *. repeat split; assumption.
Qed.
End EntityFacts.

(** X4: every e-mail address [extract_key_data] reports is a piece of
    the text made of a non-empty local part (ASCII letters, digits and
    [._%+-]), an [@], a non-empty domain (ASCII letters, digits, dots and
    hyphens), a dot, and a last label of at least two characters, each an
    ASCII letter or a vertical bar. *)
Theorem extract_key_data_emails :
  forall (UDB : UnicodeDB) (text : pystr) (emails : list pystr),
    dict_get (extract_key_data text) (u "Emails") = Some emails ->
    Forall (fun e => email_shape e /\ substring e text) emails.
Proof.
  intros UDB text emails H.
  destruct (extract_key_data_lookup text) as (Hemails & _). rewrite Hemails in H.
  eapply capped_Forall; [ | exact H ].
  eapply Forall_impl; [ | apply findall_shape; reflexivity ].
  cbn beta. intros e [Hshape Hsub]. split; [ now apply shape_email | exact Hsub ].
Qed.

Lemma extract_key_data_emails_witness :
  Forall (fun e => email_shape e
                   /\ substring e (u "john@example.com and jane@test.org"))
         [u "john@example.com"; u "jane@test.org"].
Proof.
  apply (@extract_key_data_emails AsciiDB.db (u "john@example.com and jane@test.org")).
  vm_compute. reflexivity.
Defined.

(** X5: every phone number [extract_key_data] reports is a piece of the
    text made of three decimal digits, three decimal digits and four
    decimal digits, with at most one hyphen or dot after the first and
    after the second group: ten digits and at most twelve characters. *)
Theorem extract_key_data_phones :
  forall (UDB : UnicodeDB) (text : pystr) (phones : list pystr),
    dict_get (extract_key_data text) (u "Phones") = Some phones ->
    Forall (fun p => phone_shape p /\ substring p text) phones.
Proof.
  intros UDB text phones H.
  destruct (extract_key_data_lookup text) as (_ & Hphones & _). rewrite Hphones in H.
  eapply capped_Forall; [ | exact H ].
  eapply Forall_impl; [ | apply findall_shape; reflexivity ].
  cbn beta. intros p [Hshape Hsub]. split; [ now apply shape_phone | exact Hsub ].
Qed.

Lemma extract_key_data_phones_witness :
  Forall (fun p => phone_shape (UDB:=AsciiDB.db) p
                   /\ substring p (u "call 555-123-4567 or 5551234567."))
         [u "555-123-4567"; u "5551234567"].
Proof.
  apply (@extract_key_data_phones AsciiDB.db (u "call 555-123-4567 or 5551234567.")).
  vm_compute. reflexivity.
Defined.

(** X6: [extract_key_data] reports dates exactly when the text contains
    a piece made of one or two decimal digits, a hyphen or slash, one or
    two digits, a hyphen or slash, and two to four digits; and every date
    it reports is such a piece of the text. No calendar check is made:
    99/99/9999 is a date. *)
Theorem extract_key_data_dates :
  forall (UDB : UnicodeDB) (text : pystr),
    (dict_get (extract_key_data text) (u "Dates") <> None
     <-> exists d, substring d text /\ date_shape d)
    /\ (forall dates,
           dict_get (extract_key_data text) (u "Dates") = Some dates ->
           Forall (fun d => date_shape d /\ substring d text) dates)
    /\ dict_get (extract_key_data (UDB:=AsciiDB.db) (u "due 99/99/9999"))
                (u "Dates") = Some [u "99/99/9999"].
Proof.
  intros UDB text.
  destruct (extract_key_data_lookup text) as (_ & _ & Hdates & _).
  rewrite Hdates. split; [ | split ].
  - assert (Hplain : plain date_re = true) by reflexivity.
    pose proof (@findall_plain UDB date_re text Hplain) as Hiff.
    split.
    + intros H. destruct (Re.findall date_re text) eqn:E; [ now elim H | ].
      destruct Hiff as [Hiff _]. destruct Hiff as (d & Hsub & Hshape);
        [ discriminate | ].
      exists d. split; [ exact Hsub | now apply shape_date ].
    + intros (d & Hsub & Hshape). apply shape_date in Hshape.
      destruct Hiff as [_ Hiff].
      destruct (Re.findall date_re text); [ | discriminate ].
      exfalso. apply Hiff; [ now exists d | reflexivity ].
  - intros dates H. eapply capped_Forall; [ | exact H ].
    eapply Forall_impl; [ | apply findall_shape; reflexivity ].
    cbn beta. intros d [Hshape Hsub]. split; [ now apply shape_date | exact Hsub ].
  - vm_compute. reflexivity.
Qed.

(** X7: [extract_key_data] reports amounts exactly when the text
    contains a dollar sign followed, after optional whitespace, by an
    amount: one to three decimal digits, any number of groups of a comma
    and three digits, and optionally a dot and two digits. What it
    reports is the amount without the dollar sign and the whitespace. *)
Theorem extract_key_data_amounts :
  forall (UDB : UnicodeDB) (text : pystr),
    (dict_get (extract_key_data text) (u "Amounts") <> None
     <-> exists b a,
           blanks b /\ amount_shape a
           /\ substring (N_of_ascii "$" :: b ++ a) text)
    /\ (forall amounts,
           dict_get (extract_key_data text) (u "Amounts") = Some amounts ->
           Forall (fun a => amount_shape a
                            /\ exists b,
                                 blanks b
                                 /\ substring (N_of_ascii "$" :: b ++ a) text)
                  amounts).
Proof.
  intros UDB text.
  destruct (extract_key_data_lookup text) as (_ & _ & _ & Hamounts).
  rewrite Hamounts.
  assert (Hshape : forall seg,
             shape amount_re seg
             <-> exists b a, seg = N_of_ascii "$" :: b ++ a
                             /\ blanks b /\ amount_shape a).
  { intros seg. unfold amount_re. split.
    - intros H.
      apply -> shape_cons in H. destruct H as (d & t & -> & Hd & H).
      apply -> shape_chr in Hd. subst d.
      apply -> shape_cons in H. destruct H as (b & a & -> & Hb & H).
      apply -> shape_star in Hb. apply -> shape_last in H. cbn [shape] in H.
      exists b, a. repeat split; [ exact Hb | now apply shape_amount ].
    - intros (b & a & -> & Hb & Ha).
      apply shape_cons. exists [N_of_ascii "$"], (b ++ a).
      repeat split; [ now apply shape_chr | ].
      apply shape_cons. exists b, a. repeat split; [ now apply shape_star | ].
      apply shape_last. cbn [shape]. now apply shape_amount. }
  split.
  - assert (Hplain : plain amount_re = true) by reflexivity.
    pose proof (@findall_plain UDB amount_re text Hplain) as Hiff.
    split.
    + intros H. destruct (Re.findall amount_re text) eqn:E; [ now elim H | ].
      destruct Hiff as [Hiff _]. destruct Hiff as (seg & Hsub & Hseg);
        [ discriminate | ].
      apply Hshape in Hseg. destruct Hseg as (b & a & -> & Hb & Ha).
      now exists b, a.
    + intros (b & a & Hb & Ha & Hsub).
      destruct Hiff as [_ Hiff].
      destruct (Re.findall amount_re text); [ | discriminate ].
      exfalso. apply Hiff; [ | reflexivity ].
      exists (N_of_ascii "$" :: b ++ a). split; [ exact Hsub | ].
      apply Hshape. now exists b, a.
  - intros amounts H. eapply capped_Forall; [ | exact H ].
    eapply Forall_impl;
      [ | apply (findall_group_last
                   (Re.seq_of [ Re.between Re.digit 1 3;
                                Re.star (Re.seq_of [Re.chr ","; Re.times Re.digit 3]);
                                Re.opt (Re.seq_of [Re.chr "."; Re.times Re.digit 2]) ])
                   [Re.chr "$"; Re.star Re.space] text) ].
    cbn beta. intros a (Ha & s1 & Hs1 & Hsub).
    split; [ now apply shape_amount | ].
    apply -> shape_cons in Hs1. destruct Hs1 as (d & b & -> & Hd & Hb).
    apply -> shape_chr in Hd. subst d.
    apply -> shape_last in Hb. apply -> shape_star in Hb.
    exists b. split; [ exact Hb | ]. cbn [app] in Hsub. exact Hsub.
Qed.

Section DictFacts.
Variable V : Type.

Lemma dict_get_In (d : dict V) (key : pystr) (value : V) :
  dict_get d key = Some value -> In (key, value) d.
Proof.
  induction d as [| [k v] d IH]; cbn [dict_get]; [ discriminate | ].
  destruct (str_eqb k key) eqn:E.
  - apply str_eqb_eq in E. intros H. injection H as <-. subst. now left.
  - intros H. right. now apply IH.
Qed.

Lemma dict_get_None (d : dict V) (key : pystr) :
  dict_get d key = None <-> ~ In key (map fst d).
Proof.
  induction d as [| [k v] d IH]; cbn [dict_get map fst In]; [ tauto | ].
  destruct (str_eqb k key) eqn:E.
  - apply str_eqb_eq in E. split; [ discriminate | tauto ].
  - assert (k <> key) by (intros Heq; apply str_eqb_eq in Heq; congruence). tauto.
Qed.

Lemma dict_get_NoDup (d : dict V) (key : pystr) (value : V) :
  NoDup (map fst d) -> In (key, value) d -> dict_get d key = Some value.
Proof.
  induction d as [| [k v] d IH]; cbn [dict_get map fst]; intros Hnodup Hin;
    [ contradiction | ].
  inversion_clear Hnodup as [| ? ? Hfresh Hrest].
  destruct Hin as [Heq | Hin].
  - injection Heq as -> ->.
    replace (str_eqb key key) with true by (symmetry; now apply str_eqb_eq).
    reflexivity.
  - destruct (str_eqb k key) eqn:E; [ | now apply IH ].
    apply str_eqb_eq in E. subst k. exfalso. apply Hfresh.
    apply in_map_iff. now exists (key, value).
Qed.
End DictFacts.

Section HandlerFacts.
Context {UDB : UnicodeDB} {Image : Type} {PIL : ImageLib Image}
        {OCR : OcrEngine Image} {SQL : SqliteEngine}.
Variables (ocr_lang : pystr) (dpi psm_mode : Z)
          (enhance_image denoise save_to_db : bool).

Local Notation "'process_file_'" :=
  (process_file ocr_lang dpi psm_mode enhance_image denoise save_to_db).
Local Notation "'outcome_of_'" :=
  (outcome_of ocr_lang dpi psm_mode enhance_image denoise).
Local Notation "'extracted_'" :=
  (extracted ocr_lang dpi psm_mode enhance_image denoise).
Local Notation "'failed_'" := (failed ocr_lang dpi psm_mode enhance_image denoise).
Local Notation "'batch_records_'" :=
  (batch_records ocr_lang dpi psm_mode enhance_image denoise).
Local Notation "'batch_record_'" := (batch_record ocr_lang).

(** One turn of the batch loop, by the outcome of the file. *)
Lemma process_file_outcome (now : pystr) (acc : batch) (file : UploadedFile) :
  process_file_ now acc file
  = match outcome_of_ file with
    | inl data =>
        {| results := dict_set (results acc) (file_name file) data;
           errors := errors acc;
           batch_conn :=
             if save_to_db
             then snd (save (batch_conn acc) (batch_record_ now (file_name file) data))
             else batch_conn acc |}
    | inr message =>
        {| results := results acc;
           errors := dict_set (errors acc) (file_name file) message;
           batch_conn := batch_conn acc |}
    end.
Proof.
  unfold process_file, outcome_of.
  destruct (file_read file) as [pdf_bytes | e]; [ | reflexivity ].
  destruct (extract_text_from_pdf _ _ _ _ _ _) as [[text pages] error].
  destruct (reported_error error); [ reflexivity | ].
  f_equal. destruct save_to_db; [ | reflexivity ].
  destruct (batch_conn acc); reflexivity.
Qed.

Lemma batch_loop (clock : Z -> pystr) (files : list UploadedFile) :
  forall (idx : Z) (acc : batch),
    NoDup (map file_name files) ->
    (forall file, In file files ->
                  ~ In (file_name file) (map fst (results acc))
                  /\ ~ In (file_name file) (map fst (errors acc))) ->
    let final :=
      fold_left (fun acc (item : Z * UploadedFile) =>
                   let '(idx, file) := item in process_file_ (clock idx) acc file)
                (enumerate files idx) acc in
    results final = results acc ++ extracted_ files
    /\ errors final = errors acc ++ failed_ files.
Proof.
  induction files as [| file files IH]; intros idx acc Hnodup Hfresh;
    cbn [enumerate fold_left extracted failed flat_map].
  - now rewrite !app_nil_r.
  - cbn [map] in Hnodup. inversion_clear Hnodup as [| ? ? Hnew Hrest].
    destruct (Hfresh file (or_introl eq_refl)) as [Hr He].
    rewrite process_file_outcome.
    assert (Hother : forall other, In other files -> file_name other <> file_name file).
    { intros other Hin Heq. apply Hnew. rewrite <- Heq. now apply in_map. }
    destruct (outcome_of_ file) as [data | message].
    + rewrite dict_set_fresh by exact Hr.
      edestruct IH as [IHr IHe]; [ exact Hrest | | rewrite IHr, IHe ].
      * intros other Hin. cbn [results errors]. rewrite map_app, in_app_iff.
        destruct (Hfresh other (or_intror Hin)) as [Hr' He'].
        split; [ | exact He' ]. intros [H | [H | []]]; [ now apply Hr' | ].
        cbn [fst] in H. now apply (Hother other Hin).
      * cbn [results errors]. now rewrite <- app_assoc.
    + rewrite dict_set_fresh by exact He.
      edestruct IH as [IHr IHe]; [ exact Hrest | | rewrite IHr, IHe ].
      * intros other Hin. cbn [results errors]. rewrite map_app, in_app_iff.
        destruct (Hfresh other (or_intror Hin)) as [Hr' He'].
        split; [ exact Hr' | ]. intros [H | [H | []]]; [ now apply He' | ].
        cbn [fst] in H. now apply (Hother other Hin).
      * cbn [results errors]. now rewrite <- app_assoc.
Qed.

Lemma batch_loop_conn (clock : Z -> pystr) (files : list UploadedFile) :
  forall (idx : Z) (acc : batch),
    batch_conn
      (fold_left (fun acc (item : Z * UploadedFile) =>
                    let '(idx, file) := item in process_file_ (clock idx) acc file)
                 (enumerate files idx) acc)
    = if save_to_db
      then snd (save_each (batch_conn acc) (batch_records_ clock idx files))
      else batch_conn acc.
Proof.
  induction files as [| file files IH]; intros idx acc;
    cbn [enumerate fold_left batch_records].
  - cbn [save_each snd]. now destruct save_to_db.
  - rewrite IH, process_file_outcome.
    destruct (outcome_of_ file) as [data | message]; cbn [batch_conn];
      [ | reflexivity ].
    destruct save_to_db; [ | reflexivity ]. cbn [save_each].
    destruct (save (batch_conn acc) _) as [ok conn1]. cbn [snd].
    destruct (save_each conn1 _) as [oks conn2]. reflexivity.
Qed.

Lemma extracted_failed_length (files : list UploadedFile) :
  len (extracted_ files) + len (failed_ files) = len files.
Proof.
  unfold len. induction files as [| file files IH];
    cbn [extracted failed flat_map]; [ reflexivity | ].
  fold (extracted_ files). fold (failed_ files).
  destruct (outcome_of_ file); cbn [app length]; lia.
Qed.

Lemma extracted_keys (files : list UploadedFile) (name : pystr) :
  In name (map fst (extracted_ files)) -> In name (map file_name files).
Proof.
  induction files as [| file files IH]; cbn [extracted flat_map map];
    [ tauto | ].
  fold (extracted_ files). rewrite map_app, in_app_iff.
  intros [H | H]; [ | right; now apply IH ].
  destruct (outcome_of_ file); [ | contradiction ].
  destruct H as [H | []]. now left.
Qed.

Lemma failed_keys (files : list UploadedFile) (name : pystr) :
  In name (map fst (failed_ files)) -> In name (map file_name files).
Proof.
  induction files as [| file files IH]; cbn [failed flat_map map];
    [ tauto | ].
  fold (failed_ files). rewrite map_app, in_app_iff.
  intros [H | H]; [ | right; now apply IH ].
  destruct (outcome_of_ file); [ contradiction | ].
  destruct H as [H | []]. now left.
Qed.

Lemma extracted_NoDup (files : list UploadedFile) :
  NoDup (map file_name files) -> NoDup (map fst (extracted_ files)).
Proof.
  induction files as [| file files IH]; cbn [extracted flat_map map];
    [ constructor | ].
  fold (extracted_ files). intros Hnodup.
  inversion_clear Hnodup as [| ? ? Hnew Hrest].
  destruct (outcome_of_ file); cbn [app map fst]; [ | now apply IH ].
  constructor; [ | now apply IH ].
  intros Hin. apply Hnew. now apply extracted_keys.
Qed.

Lemma failed_NoDup (files : list UploadedFile) :
  NoDup (map file_name files) -> NoDup (map fst (failed_ files)).
Proof.
  induction files as [| file files IH]; cbn [failed flat_map map];
    [ constructor | ].
  fold (failed_ files). intros Hnodup.
  inversion_clear Hnodup as [| ? ? Hnew Hrest].
  destruct (outcome_of_ file); cbn [app map fst]; [ now apply IH | ].
  constructor; [ | now apply IH ].
  intros Hin. apply Hnew. now apply failed_keys.
Qed.
End HandlerFacts.

Section UploadFacts.
Lemma NoDup_map_eq (A B : Type) (f : A -> B) (l : list A) (x y : A) :
  NoDup (map f l) -> In x l -> In y l -> f x = f y -> x = y.
Proof.
  induction l as [| a l IH]; cbn [map]; intros Hnodup Hx Hy Heq; [ contradiction | ].
  inversion_clear Hnodup as [| ? ? Hnew Hrest].
  destruct Hx as [-> | Hx], Hy as [-> | Hy]; [ reflexivity | | | now apply IH ].
  - exfalso. apply Hnew. rewrite Heq. now apply in_map.
  - exfalso. apply Hnew. rewrite <- Heq. now apply in_map.
Qed.

(** A failed save leaves the connection as it was. *)
Lemma save_false (SQL : SqliteEngine) (conn conn' : option database) (r : record) :
  save conn r = (false, conn') -> conn' = conn.
Proof.
  unfold save, save_to_database. destruct conn as [db |].
  - destruct (insert_extraction _ _ _ _ _ _ _ _ _ _); intros H.
    + discriminate.
    + now injection H as <-.
  - intros H. now injection H as <-.
Qed.

(** Saving records one after the other only appends rows, at most one
    for each record. *)
Lemma save_each_appends (SQL : SqliteEngine) (records : list record) :
  forall db : database,
    exists db' new,
      snd (save_each (Some db) records) = Some db'
      /\ extractions db' = extractions db ++ new
      /\ (length new <= length records)%nat
      /\ Forall (fun stored => exists r, In r records /\ stored_as r stored) new.
Proof.
  induction records as [| r records IH]; intros db; cbn [save_each].
  - exists db, []. rewrite app_nil_r. repeat split; [ cbn; lia | constructor ].
  - destruct (save (Some db) r) as [[|] conn1] eqn:Hsave.
    + apply save_true in Hsave. destruct Hsave as (stored & -> & Hstored & _).
      destruct (IH {| extractions := extractions db ++ [stored];
                      sequence := id stored |})
        as (db' & new & Hconn & Hrows & Hlen & Hnew).
      destruct (save_each _ records) as [oks conn2]. cbn [snd] in *.
      exists db', (stored :: new). cbn [extractions] in Hrows.
      rewrite Hrows, <- app_assoc. repeat split; [ exact Hconn | cbn; lia | ].
      constructor; [ exists r; split; [ now left | exact Hstored ] | ].
      eapply Forall_impl; [ | exact Hnew ]. cbn beta.
      intros s (r' & Hin & Hs). exists r'. split; [ now right | exact Hs ].
    + apply save_false in Hsave. subst conn1.
      destruct (IH db) as (db' & new & Hconn & Hrows & Hlen & Hnew).
      destruct (save_each _ records) as [oks conn2]. cbn [snd] in *.
      exists db', new. repeat split; [ exact Hconn | exact Hrows | cbn; lia | ].
      eapply Forall_impl; [ | exact Hnew ]. cbn beta.
      intros s (r' & Hin & Hs). exists r'. split; [ now right | exact Hs ].
Qed.
End UploadFacts.

Section BatchFacts.
Context {UDB : UnicodeDB} {Image : Type} {PIL : ImageLib Image}
        {OCR : OcrEngine Image} {SQL : SqliteEngine}.
Variables (ocr_lang : pystr) (dpi psm_mode : Z)
          (enhance_image denoise save_to_db : bool).

Local Notation "'outcome_of_'" :=
  (outcome_of ocr_lang dpi psm_mode enhance_image denoise).
Local Notation "'extracted_'" :=
  (extracted ocr_lang dpi psm_mode enhance_image denoise).
Local Notation "'failed_'" := (failed ocr_lang dpi psm_mode enhance_image denoise).
Local Notation "'batch_records_'" :=
  (batch_records ocr_lang dpi psm_mode enhance_image denoise).

Lemma extracted_In (files : list UploadedFile) (name : pystr) (data : batch_entry) :
  In (name, data) (extracted_ files)
  <-> exists file, In file files /\ file_name file = name /\ outcome_of_ file = inl data.
Proof.
  unfold extracted. rewrite in_flat_map. split.
  - intros (file & Hin & H). exists file. split; [ exact Hin | ].
    destruct (outcome_of_ file); [ | contradiction ].
    destruct H as [H | []]. now injection H as -> ->.
  - intros (file & Hin & <- & H). exists file. split; [ exact Hin | ].
    rewrite H. now left.
Qed.

Lemma failed_In (files : list UploadedFile) (name message : pystr) :
  In (name, message) (failed_ files)
  <-> exists file,
        In file files /\ file_name file = name /\ outcome_of_ file = inr message.
Proof.
  unfold failed. rewrite in_flat_map. split.
  - intros (file & Hin & H). exists file. split; [ exact Hin | ].
    destruct (outcome_of_ file); [ contradiction | ].
    destruct H as [H | []]. now injection H as -> ->.
  - intros (file & Hin & <- & H). exists file. split; [ exact Hin | ].
    rewrite H. now left.
Qed.

Lemma batch_records_length (clock : Z -> pystr) (files : list UploadedFile) :
  forall idx, length (batch_records_ clock idx files) = length (extracted_ files).
Proof.
  induction files as [| file files IH]; intros idx;
    cbn [batch_records extracted flat_map]; [ reflexivity | ].
  destruct (outcome_of_ file); cbn [app length]; now rewrite IH.
Qed.
End BatchFacts.

(** X8: batch mode treats every file on its own. When the uploaded files
    have distinct names, [results] holds exactly the files that were
    extracted and [errors] exactly the files that failed (unreadable, or
    rejected with a message), each under its name, with its own outcome
    and in upload order; a failure changes nothing for the other files,
    and every file is counted once: successes plus errors is the number
    of files. *)
Theorem process_all_isolates_files :
  forall (UDB : UnicodeDB) (Image : Type) (PIL : ImageLib Image)
         (OCR : OcrEngine Image) (SQL : SqliteEngine)
         (ocr_lang : pystr) (dpi psm_mode : Z)
         (enhance_image denoise save_to_db : bool)
         (clock : Z -> pystr) (files : list UploadedFile)
         (db_conn : option database),
    NoDup (map file_name files) ->
    let done :=
      process_all_clicked ocr_lang dpi psm_mode enhance_image denoise save_to_db
                          clock files db_conn in
    results done = extracted ocr_lang dpi psm_mode enhance_image denoise files
    /\ errors done = failed ocr_lang dpi psm_mode enhance_image denoise files
    /\ len (results done) + len (errors done) = len files
    /\ forall file,
         In file files ->
         match outcome_of ocr_lang dpi psm_mode enhance_image denoise file with
         | inl data =>
             dict_get (results done) (file_name file) = Some data
             /\ dict_get (errors done) (file_name file) = None
         | inr message =>
             dict_get (errors done) (file_name file) = Some message
             /\ dict_get (results done) (file_name file) = None
         end.
Proof.
  intros UDB Image PIL OCR SQL ocr_lang dpi psm_mode enhance_image denoise
         save_to_db clock files db_conn Hnodup done.
  destruct (@batch_loop UDB Image PIL OCR SQL ocr_lang dpi psm_mode enhance_image
                        denoise save_to_db clock files 0
                        {| results := []; errors := []; batch_conn := db_conn |}
                        Hnodup) as [Hresults Herrors].
  { intros file _. cbn. tauto. }
  cbn [results errors app] in Hresults, Herrors.
  fold (process_all_clicked ocr_lang dpi psm_mode enhance_image denoise save_to_db
                            clock files db_conn) in Hresults, Herrors.
  fold done in Hresults, Herrors.
  split; [ exact Hresults | ]. split; [ exact Herrors | ].
  split; [ rewrite Hresults, Herrors; apply extracted_failed_length | ].
  intros file Hin. rewrite Hresults, Herrors.
  destruct (outcome_of _ _ _ _ _ file) as [data | message] eqn:Hout.
  - split.
    + apply dict_get_NoDup; [ now apply extracted_NoDup | ].
      apply extracted_In. now exists file.
    + apply dict_get_None. intros Hkey. apply in_map_iff in Hkey.
      destruct Hkey as ([name message] & Hname & Hfailed). cbn [fst] in Hname.
      subst name. apply failed_In in Hfailed.
      destruct Hfailed as (other & Hother & Heq & Hout').
      rewrite (NoDup_map_eq file_name files other file Hnodup Hother Hin Heq) in Hout'.
      congruence.
  - split.
    + apply dict_get_NoDup; [ now apply failed_NoDup | ].
      apply failed_In. now exists file.
    + apply dict_get_None. intros Hkey. apply in_map_iff in Hkey.
      destruct Hkey as ([name data] & Hname & Hextracted). cbn [fst] in Hname.
      subst name. apply extracted_In in Hextracted.
      destruct Hextracted as (other & Hother & Heq & Hout').
      rewrite (NoDup_map_eq file_name files other file Hnodup Hother Hin Heq) in Hout'.
      congruence.
Qed.

Lemma process_all_isolates_files_witness :
  let done :=
    process_all_clicked (UDB:=AsciiDB.db) (PIL:=Demo.pil) (OCR:=Demo.ocr)
                        (SQL:=DemoStore.sqlite) (u "eng") 300 3 true true true
                        DemoUpload.clock DemoUpload.files (Some empty_database) in
  map fst (results done) = [u "report.final.pdf"]
  /\ errors done = [ (u "empty.pdf", u "Unable to get page count.");
                     (u "scan", u "I/O operation on closed file.") ]
  /\ len (results done) + len (errors done) = 3.
Proof.
  destruct (@process_all_isolates_files
              AsciiDB.db Demo.Image Demo.pil Demo.ocr DemoStore.sqlite
              (u "eng") 300 3 true true true DemoUpload.clock DemoUpload.files
              (Some empty_database))
    as (Hresults & Herrors & Hcount & _).
  { vm_compute. repeat constructor; intros H;
      repeat (destruct H as [H | H]; [ discriminate H | ]); exact H. }
  cbv zeta. rewrite Hresults, Herrors. split; [ | split ]; vm_compute; reflexivity.
Defined.

(** X9: batch mode only appends to the history. With a connection, the
    rows that were there stay as they are and where they are; every new
    row stores one of the files that were extracted (name, text and the
    counts computed from that text), at most one row for each of them;
    files that failed add nothing. The connection ends up as if the
    records of the extracted files had been saved one after the other,
    or untouched when saving is switched off. *)
Theorem process_all_history :
  forall (UDB : UnicodeDB) (Image : Type) (PIL : ImageLib Image)
         (OCR : OcrEngine Image) (SQL : SqliteEngine)
         (ocr_lang : pystr) (dpi psm_mode : Z)
         (enhance_image denoise save_to_db : bool)
         (clock : Z -> pystr) (files : list UploadedFile) (db : database),
    let done :=
      process_all_clicked ocr_lang dpi psm_mode enhance_image denoise save_to_db
                          clock files (Some db) in
    let records :=
      batch_records ocr_lang dpi psm_mode enhance_image denoise clock 0 files in
    batch_conn done
    = (if save_to_db then snd (save_each (Some db) records) else Some db)
    /\ len records
       = len (extracted ocr_lang dpi psm_mode enhance_image denoise files)
    /\ exists db' new,
         batch_conn done = Some db'
         /\ extractions db' = extractions db ++ new
         /\ len new <= len records
         /\ Forall (fun stored => exists r, In r records /\ stored_as r stored) new.
Proof.
  intros UDB Image PIL OCR SQL ocr_lang dpi psm_mode enhance_image denoise
         save_to_db clock files db done records.
  assert (Hconn : batch_conn done
                  = if save_to_db then snd (save_each (Some db) records)
                    else Some db).
  { subst done records. unfold process_all_clicked. now rewrite batch_loop_conn. }
  split; [ exact Hconn | ].
  split; [ unfold len; f_equal; apply batch_records_length | ].
  rewrite Hconn. destruct save_to_db.
  - destruct (save_each_appends SQL records db) as (db' & new & H1 & H2 & H3 & H4).
    exists db', new. unfold len. repeat split; try assumption. lia.
  - exists db, []. rewrite app_nil_r. unfold len.
    repeat split; [ cbn; lia | constructor ].
Qed.

(** X12: single mode, when the rasterizer rejects the upload. If the
    exception has a message, the handler shows it and changes nothing:
    the session keeps the previous result and the history gets no row.
    If the message is empty, the failure goes unnoticed: the handler
    records an extraction of an empty text with zero pages. *)
Theorem extract_clicked_rasterization_failure :
  forall (UDB : UnicodeDB) (Image : Type) (PIL : ImageLib Image)
         (OCR : OcrEngine Image) (SQL : SqliteEngine)
         (ocr_lang : pystr) (dpi psm_mode : Z)
         (enhance_image denoise save_to_db : bool)
         (uploaded_file : UploadedFile) (pdf_bytes : list Byte.byte) (e : exn)
         (elapsed : PyFloat.float) (now : pystr)
         (state : session_state) (db_conn : option database),
    file_read uploaded_file = Ok pdf_bytes ->
    convert_from_bytes pdf_bytes dpi (u "jpeg") = Raise e ->
    let outcome :=
      extract_clicked ocr_lang dpi psm_mode enhance_image denoise save_to_db
                      uploaded_file elapsed now state db_conn in
    (exn_str e <> [] -> outcome = Ok (state, db_conn, Some (exn_str e)))
    /\ (exn_str e = [] ->
        exists stats conn,
          outcome = Ok ({| current_text := []; processing_stats := stats |},
                        conn, None)
          /\ dict_get stats (u "page_count") = Some (PInt 0)
          /\ dict_get stats (u "character_count") = Some (PInt 0)).
Proof.
  intros UDB Image PIL OCR SQL ocr_lang dpi psm_mode enhance_image denoise
         save_to_db uploaded_file pdf_bytes e elapsed now state db_conn
         Hread Hraise outcome.
  subst outcome. unfold extract_clicked, extract_text_from_pdf.
  rewrite Hread, Hraise. cbn [reported_error]. split.
  - intros Hmessage. destruct (exn_str e) as [| c message]; [ contradiction | ].
    reflexivity.
  - intros ->. eexists. eexists. split; [ reflexivity | ]. split; reflexivity.
Qed.

Lemma extract_clicked_rasterization_failure_witness :
  extract_clicked (UDB:=AsciiDB.db) (PIL:=Demo.pil) (OCR:=Demo.ocr)
                  (SQL:=DemoStore.sqlite) (u "eng") 300 3 true true true
                  DemoUpload.empty DemoFloat.f_2_5 (u "2024-05-01T10:00:00")
                  initial_session (Some empty_database)
  = Ok (initial_session, Some empty_database, Some (u "Unable to get page count.")).
Proof.
  apply (@extract_clicked_rasterization_failure
           AsciiDB.db Demo.Image Demo.pil Demo.ocr DemoStore.sqlite
           (u "eng") 300 3 true true true DemoUpload.empty []
           (Exception (u "Unable to get page count."))
           DemoFloat.f_2_5 (u "2024-05-01T10:00:00") initial_session
           (Some empty_database) eq_refl eq_refl).
  discriminate.
Defined.

Section ZipFacts.
Lemma before_last_none (sep : codepoint) (s : pystr) :
  ~ In sep s -> before_last sep s = None.
Proof.
  induction s as [| c s IH]; cbn [before_last In]; intros H; [ reflexivity | ].
  rewrite IH by tauto.
  destruct (c =? sep)%N eqn:E; [ | reflexivity ].
  apply N.eqb_eq in E. tauto.
Qed.

Lemma before_last_app (sep : codepoint) (stem ext : pystr) :
  ~ In sep ext -> before_last sep (stem ++ sep :: ext) = Some stem.
Proof.
  intros Hext. induction stem as [| c stem IH]; cbn [app before_last].
  - now rewrite before_last_none, N.eqb_refl.
  - now rewrite IH.
Qed.
End ZipFacts.

(** X13: the ZIP archive of batch mode has one member for each entry of
    [results], in the same order, holding the extracted text. The member
    of a file named stem.ext is named stem.txt, where ext is what
    follows the last dot, so report.final.pdf gives report.final.txt; a
    name without a dot gets .txt appended. *)
Theorem zip_member_names :
  forall (results : dict batch_entry),
    map snd (zip_members results) = map (fun item => entry_text (snd item)) results
    /\ (forall name data stem ext,
           In (name, data) results ->
           name = stem ++ 46%N :: ext -> ~ In 46%N ext ->
           In (stem ++ u ".txt", entry_text data) (zip_members results))
    /\ (forall name data,
           In (name, data) results -> ~ In 46%N name ->
           In (name ++ u ".txt", entry_text data) (zip_members results))
    /\ zip_members [ (u "report.final.pdf", Entry (u "text") 1 1);
                     (u "scan", Entry [] 0 0) ]
       = [ (u "report.final.txt", u "text"); (u "scan.txt", []) ].
Proof.
  intros results. split; [ | split; [ | split ] ].
  - unfold zip_members. rewrite map_map. apply map_ext. now intros [name data].
  - intros name data stem ext Hin -> Hext. unfold zip_members.
    apply in_map_iff. exists (stem ++ 46%N :: ext, data). split; [ | exact Hin ].
    unfold rsplit1_first. now rewrite before_last_app.
  - intros name data Hin Hname. unfold zip_members.
    apply in_map_iff. exists (name, data). split; [ | exact Hin ].
    unfold rsplit1_first. now rewrite before_last_none.
  - reflexivity.
Qed.

Section ApplicationFacts.
Context {UDB : UnicodeDB} {Image : Type} {PIL : ImageLib Image}
        {OCR : OcrEngine Image} {SQL : SqliteEngine}.

Lemma later_refl (conn : option database) : later conn conn.
Proof.
  destruct conn as [db |]; cbn; [ | exact I ].
  split; [ lia | ]. apply Forall_forall. intros r Hin. now left.
Qed.

Lemma later_trans (a b c : option database) : later a b -> later b c -> later a c.
Proof.
  destruct a as [da |], b as [db |], c as [dc |]; cbn; try tauto.
  intros [Hab Hrows] [Hbc Hrows']. split; [ lia | ].
  eapply Forall_impl; [ | exact Hrows' ]. cbn beta. intros r [Hin | Hnew].
  - rewrite Forall_forall in Hrows. exact (Hrows r Hin).
  - right. lia.
Qed.

Lemma column_text (s : pystr) (c : sqlval) :
  column TEXT (PStr s) = Ok c -> c = apply_affinity TEXT (SqlText s).
Proof. cbn. intros H. now injection H. Qed.

Lemma column_int (a : affinity) (n : Z) (c : sqlval) :
  column a (PInt n) = Ok c -> c = apply_affinity a (SqlInteger n).
Proof.
  unfold column, bind_parameter.
  destruct ((INT64_MIN <=? n) && (n <=? INT64_MAX)); [ | discriminate ].
  intros H. now injection H.
Qed.

Lemma column_float (a : affinity) (x : PyFloat.float) (c : sqlval) :
  column a (PFloat x) = Ok c -> c = apply_affinity a (SqlReal x).
Proof. cbn. intros H. now injection H. Qed.

(** A consistent record is stored as a consistent row. *)
Lemma stored_consistent (r : record) (stored : row) :
  record_consistent r -> stored_as r stored -> row_consistent stored.
Proof.
  intros (name & text & lang & pages & Hname & Htext & Hlang & Hpages & Hwords
          & Hchars & Hquality)
         (Sname & _ & Spages & Swords & Schars & Slang & Stext & _ & Squality).
  rewrite Hname in Sname. rewrite Htext in Stext. rewrite Hlang in Slang.
  rewrite Hpages in Spages. rewrite Hwords in Swords. rewrite Hchars in Schars.
  rewrite Hquality in Squality.
  exists name, text, lang, pages.
  repeat split;
    first [ now apply column_text | now apply column_int | now apply column_float ].
Qed.

(** A save that returns [True]: the row it appended and the id it gave. *)
Lemma save_true_id (db : database) (r : record) (conn' : option database) :
  save (Some db) r = (true, conn') ->
  exists stored,
    conn' = Some {| extractions := extractions db ++ [stored];
                    sequence := id stored |}
    /\ stored_as r stored
    /\ id stored = Z.max (sequence db) (max_id (extractions db)) + 1.
Proof.
  unfold save, save_to_database, insert_extraction, stored_as.
  repeat match goal with
         | |- context [match column ?a ?v with _ => _ end] =>
             destruct (column a v); [ | discriminate ]
         end.
  destruct (not_null _ _); [ | discriminate ].
  destruct (next_id db) as [new_id |] eqn:Hid; [ | discriminate ].
  intros H. injection H as <-.
  match goal with
  | |- context [extractions db ++ [?stored]] => exists stored
  end.
  split; [ reflexivity | ]. cbn.
  split; [ repeat split | ].
  unfold next_id in Hid.
  destruct (_ <? INT64_MAX); [ | discriminate ]. now injection Hid as <-.
Qed.

Lemma max_id_le (rows : list row) (bound : Z) :
  0 <= bound -> Forall (fun r => 0 < id r <= bound) rows -> max_id rows <= bound.
Proof.
  intros Hbound. induction 1 as [| r rows Hr _ IH]; cbn [max_id]; lia.
Qed.

Lemma sorted_snoc (ids : list Z) (new : Z) :
  StronglySorted Z.lt ids -> Forall (fun i => i < new) ids ->
  StronglySorted Z.lt (ids ++ [new]).
Proof.
  induction 1 as [| i ids Hsorted IH Hall]; intros Hnew; cbn [app].
  - repeat constructor.
  - inversion_clear Hnew as [| ? ? Hi Hrest]. constructor; [ now apply IH | ].
    apply Forall_app. split; [ exact Hall | now constructor ].
Qed.

Lemma sorted_filter (keep : row -> bool) (rows : list row) :
  StronglySorted Z.lt (map id rows) ->
  StronglySorted Z.lt (map id (filter keep rows)).
Proof.
  induction rows as [| r rows IH]; cbn [map filter]; intros H; [ constructor | ].
  inversion_clear H as [| ? ? Hsorted Hall].
  destruct (keep r); [ | now apply IH ]. cbn [map].
  constructor; [ now apply IH | ].
  rewrite Forall_forall in *. intros i Hin. apply Hall.
  apply in_map_iff in Hin. destruct Hin as (x & <- & Hx).
  apply filter_In in Hx. apply in_map. tauto.
Qed.

(** Saving a consistent record keeps the invariant, whatever the save
    returns. *)
Lemma save_invariant (conn : option database) (r : record) :
  history_invariant conn -> record_consistent r ->
  history_invariant (snd (save conn r)) /\ later conn (snd (save conn r)).
Proof.
  intros Hinv Hr. destruct (save conn r) as [[|] conn'] eqn:Hsave; cbn [snd].
  - destruct conn as [db |]; [ | discriminate ].
    apply save_true_id in Hsave. destruct Hsave as (stored & -> & Hstored & Hid).
    destruct Hinv as (Hrows & [Hsorted Hids] & Hseq).
    pose proof (max_id_le Hseq Hids) as Hmax.
    assert (Hnew : id stored = sequence db + 1) by lia.
    cbn [history_invariant later extractions sequence].
    split; [ split; [ | split; [ split | ] ] | split ].
    + apply Forall_app. split; [ exact Hrows | ].
      constructor; [ now apply stored_consistent with r | constructor ].
    + cbn [extractions]. rewrite map_app. cbn [map].
      apply sorted_snoc; [ exact Hsorted | ].
      apply Forall_map. eapply Forall_impl; [ | exact Hids ]. cbn beta. intros; lia.
    + cbn [extractions sequence]. apply Forall_app.
      split; [ | repeat constructor; lia ].
      eapply Forall_impl; [ | exact Hids ]. cbn beta. intros; lia.
    + lia.
    + lia.
    + apply Forall_app. split.
      * apply Forall_forall. intros x Hin. now left.
      * constructor; [ right; lia | constructor ].
  - apply save_false in Hsave. subst conn'. split; [ exact Hinv | apply later_refl ].
Qed.

Lemma save_each_invariant (records : list record) :
  forall conn : option database,
    history_invariant conn -> Forall record_consistent records ->
    history_invariant (snd (save_each conn records))
    /\ later conn (snd (save_each conn records)).
Proof.
  induction records as [| r records IH]; intros conn Hinv Hall; cbn [save_each].
  - split; [ exact Hinv | apply later_refl ].
  - inversion_clear Hall as [| ? ? Hr Hrest].
    destruct (@save_invariant conn r Hinv Hr) as [Hinv1 Hlater1].
    destruct (save conn r) as [ok conn1]. cbn [snd] in Hinv1, Hlater1.
    destruct (IH conn1 Hinv1 Hrest) as [Hinv2 Hlater2].
    destruct (save_each conn1 records) as [oks conn2]. cbn [snd] in *.
    split; [ exact Hinv2 | now apply later_trans with conn1 ].
Qed.

Lemma delete_one_invariant (db : database) (i : Z) :
  history_invariant (Some db) ->
  history_invariant (Some (delete_one db i))
  /\ later (Some db) (Some (delete_one db i)).
Proof.
  intros (Hrows & [Hsorted Hids] & Hseq).
  cbn [history_invariant later delete_one extractions sequence].
  split; [ split; [ | split; [ split | ] ] | split ];
    cbn [delete_one extractions sequence].
  - apply Forall_forall. intros r Hin. apply filter_In in Hin.
    rewrite Forall_forall in Hrows. now apply Hrows.
  - now apply sorted_filter.
  - apply Forall_forall. intros r Hin. apply filter_In in Hin.
    rewrite Forall_forall in Hids. now apply Hids.
  - exact Hseq.
  - lia.
  - apply Forall_forall. intros r Hin. apply filter_In in Hin. now left.
Qed.

Lemma batch_records_consistent (ocr_lang : pystr) (dpi psm_mode : Z)
      (enhance_image denoise : bool) (clock : Z -> pystr)
      (files : list UploadedFile) :
  forall idx,
    Forall record_consistent
           (batch_records ocr_lang dpi psm_mode enhance_image denoise clock idx files).
Proof.
  induction files as [| file files IH]; intros idx; cbn [batch_records];
    [ constructor | ].
  destruct (outcome_of _ _ _ _ _ file) as [data | message]; [ | apply IH ].
  constructor; [ | apply IH ].
  exists (file_name file), (entry_text data), ocr_lang, (entry_pages data).
  repeat split.
Qed.

(** The history after a click. *)
Lemma handle_history (a : app_state) (c : click) :
  history_invariant (db_conn a) ->
  history_invariant (db_conn (handle a c)) /\ later (db_conn a) (db_conn (handle a c)).
Proof.
  intros Hinv. destruct c as [cfg file elapsed now | cfg clock files | i |];
    cbn [handle].
  - unfold extract_clicked.
    destruct (file_read file) as [pdf_bytes | e];
      [ | split; [ exact Hinv | apply later_refl ] ].
    destruct (extract_text_from_pdf _ _ _ _ _ _) as [[text pages] error].
    destruct (reported_error error); cbn [db_conn];
      [ split; [ exact Hinv | apply later_refl ] | ].
    destruct (sb_save_to_db cfg); [ | split; [ exact Hinv | apply later_refl ] ].
    destruct (db_conn a) as [db |] eqn:Hconn;
      [ | split; [ exact Hinv | apply later_refl ] ].
    match goal with |- context [save_to_database ?c ?n ?f ?t ?m] =>
      change (save_to_database c n f t m)
        with (save c {| r_now := n; r_filename := f; r_text := t; r_metadata := m |})
    end.
    apply save_invariant; [ exact Hinv | ].
    exists (file_name file), text, (sb_ocr_lang cfg), pages. repeat split.
  - cbn [db_conn]. unfold process_all_clicked. rewrite batch_loop_conn.
    cbn [batch_conn]. destruct (sb_save_to_db cfg);
      [ | split; [ exact Hinv | apply later_refl ] ].
    apply save_each_invariant; [ exact Hinv | apply batch_records_consistent ].
  - cbn [db_conn]. destruct (db_conn a) as [db |]; [ | split; exact I ].
    now apply delete_one_invariant.
  - cbn [db_conn]. destruct (db_conn a) as [db |]; [ | split; exact I ].
    destruct Hinv as (_ & _ & Hseq).
    cbn [history_invariant later delete_all extractions sequence].
    repeat split; try constructor; lia.
Qed.

Lemma run_history (clicks : list click) :
  forall a : app_state,
    history_invariant (db_conn a) ->
    history_invariant (db_conn (run clicks a))
    /\ later (db_conn a) (db_conn (run clicks a)).
Proof.
  induction clicks as [| c clicks IH]; intros a Hinv; cbn [run fold_left].
  - split; [ exact Hinv | apply later_refl ].
  - destruct (@handle_history a c Hinv) as [Hinv1 Hlater1].
    destruct (IH (handle a c) Hinv1) as [Hinv2 Hlater2].
    split; [ exact Hinv2 | now apply later_trans with (db_conn (handle a c)) ].
Qed.

Lemma handle_session (a : app_state) (c : click) :
  session_consistent (session a) -> session_consistent (session (handle a c)).
Proof.
  intros Hs. destruct c as [cfg file elapsed now | cfg clock files | i |];
    cbn [handle session]; try exact Hs.
  unfold extract_clicked.
  destruct (file_read file) as [pdf_bytes | e]; [ | exact Hs ].
  destruct (extract_text_from_pdf _ _ _ _ _ _) as [[text pages] error].
  destruct (reported_error error); cbn [session]; [ exact Hs | ].
  right. cbn [current_text processing_stats]. repeat split.
Qed.

Lemma run_session (clicks : list click) :
  forall a : app_state,
    session_consistent (session a) -> session_consistent (session (run clicks a)).
Proof.
  induction clicks as [| c clicks IH]; intros a Hs; cbn [run fold_left];
    [ exact Hs | ].
  apply IH. now apply handle_session.
Qed.

Lemma run_app (clicks more : list click) (a : app_state) :
  run (clicks ++ more) a = run more (run clicks a).
Proof. apply fold_left_app. Qed.
End ApplicationFacts.

(** X10: in every state the application can reach, from a new database
    and by any sequence of clicks on "Extract Text", "Process All",
    "Delete" and "Clear All History" with any uploads and any sidebar
    settings, every row of the history holds the word count, the
    character count and the quality score of the very text it holds, and
    the statistics of the session are those of the text of the session.
    The rows have ids in the order they were inserted, all different. *)
Theorem history_rows_consistent :
  forall (UDB : UnicodeDB) (Image : Type) (PIL : ImageLib Image)
         (OCR : OcrEngine Image) (SQL : SqliteEngine)
         (clicks : list click) (available : bool),
    let reached :=
      run clicks (started (if available then Some empty_database else None)) in
    session_consistent (session reached)
    /\ match db_conn reached with
       | Some db =>
           Forall row_consistent (extractions db)
           /\ StronglySorted Z.lt (map id (extractions db))
           /\ NoDup (map id (extractions db))
       | None => available = false
       end.
Proof.
  intros UDB Image PIL OCR SQL clicks available reached.
  split; [ apply run_session; now left | ].
  assert (Hstart : history_invariant
                     (db_conn (started (if available then Some empty_database
                                        else None)))).
  { destruct available; cbn; [ | exact I ].
    repeat split; try constructor. lia. }
  destruct (@run_history _ _ _ _ _ clicks _ Hstart) as [Hinv Hlater]. fold reached in Hinv, Hlater.
  destruct (db_conn reached) as [db |].
  - destruct Hinv as (Hrows & [Hsorted _] & _).
    repeat split; [ exact Hrows | exact Hsorted | ].
    clear -Hsorted. induction Hsorted as [| i ids _ IH Hall]; constructor;
      [ | exact IH ].
    intros Hin. rewrite Forall_forall in Hall. specialize (Hall i Hin). lia.
  - destruct available; [ contradiction | reflexivity ].
Qed.

(** X11: identifiers are never given out twice. Take any state the
    application has reached and any state it reaches later: a row of the
    later history is a row of the earlier one, or it has an id larger
    than every id of the earlier history and than every id given out
    before, also to rows deleted since. *)
Theorem history_ids_never_reused :
  forall (UDB : UnicodeDB) (Image : Type) (PIL : ImageLib Image)
         (OCR : OcrEngine Image) (SQL : SqliteEngine)
         (clicks more : list click) (earlier : database),
    db_conn (run clicks (started (Some empty_database))) = Some earlier ->
    exists later_db,
      db_conn (run (clicks ++ more) (started (Some empty_database))) = Some later_db
      /\ Forall (fun r => id r <= sequence earlier) (extractions earlier)
      /\ sequence earlier <= sequence later_db
      /\ Forall (fun r => In r (extractions earlier) \/ sequence earlier < id r)
                (extractions later_db).
Proof.
  intros UDB Image PIL OCR SQL clicks more earlier Hearlier.
  assert (Hstart : history_invariant (db_conn (started (Some empty_database)))).
  { cbn. repeat split; try constructor. lia. }
  destruct (@run_history _ _ _ _ _ clicks _ Hstart) as [Hinv _]. rewrite Hearlier in Hinv.
  rewrite run_app.
  assert (Hinv' : history_invariant
                    (db_conn (run clicks (started (Some empty_database)))))
    by now rewrite Hearlier.
  destruct (@run_history _ _ _ _ _ more _ Hinv') as [_ Hlater]. rewrite Hearlier in Hlater.
  destruct (db_conn (run more _)) as [later_db |]; [ | contradiction ].
  destruct Hlater as [Hseq Hrows]. destruct Hinv as (_ & [_ Hids] & _).
  exists later_db. repeat split; try assumption.
  eapply Forall_impl; [ | exact Hids ]. cbn beta. intros; lia.
Qed.

Lemma history_ids_never_reused_witness :
  exists later_db,
    db_conn (DemoApp.reached (DemoApp.first ++ DemoApp.more)) = Some later_db
    /\ Forall (fun r => id r <= sequence DemoApp.earlier)
              (extractions DemoApp.earlier)
    /\ sequence DemoApp.earlier <= sequence later_db
    /\ Forall (fun r => In r (extractions DemoApp.earlier)
                        \/ sequence DemoApp.earlier < id r)
              (extractions later_db).
Proof.
  apply (@history_ids_never_reused AsciiDB.db Demo.Image Demo.pil Demo.ocr
           DemoStore.sqlite DemoApp.first DemoApp.more DemoApp.earlier).
  vm_compute. reflexivity.
Defined.

Section StripFacts.
Context {UDB : UnicodeDB}.

Lemma lstrip_no_space_first (s : pystr) : no_space_first (lstrip s).
Proof.
  induction s as [| c s IH]; cbn [lstrip]; [ exact I | ].
  destruct (py_isspace c) eqn:E; [ exact IH | exact E ].
Qed.

Lemma lstrip_fixed (s : pystr) : no_space_first s -> lstrip s = s.
Proof. destruct s as [| c s]; cbn; [ reflexivity | now intros -> ]. Qed.

Lemma lstrip_suffix (s : pystr) :
  exists spaces, s = spaces ++ lstrip s /\ Forall (fun c => py_isspace c = true) spaces.
Proof.
  induction s as [| c s (spaces & IH & Hspaces)]; cbn [lstrip].
  - exists []. split; [ reflexivity | constructor ].
  - destruct (py_isspace c) eqn:E.
    + exists (c :: spaces). split; [ cbn; now rewrite <- IH | now constructor ].
    + exists []. split; [ reflexivity | constructor ].
Qed.

Lemma lstrip_snoc (s : pystr) (c : codepoint) :
  py_isspace c = false -> lstrip (s ++ [c]) = lstrip s ++ [c].
Proof.
  intros Hc. induction s as [| x s IH]; cbn [app lstrip].
  - now rewrite Hc.
  - destruct (py_isspace x); [ exact IH | reflexivity ].
Qed.

Lemma rstrip_prefix (s : pystr) :
  exists spaces, s = rstrip s ++ spaces /\ Forall (fun c => py_isspace c = true) spaces.
Proof.
  unfold rstrip. destruct (lstrip_suffix (rev s)) as (spaces & H & Hspaces).
  exists (rev spaces). split.
  - rewrite <- rev_app_distr, <- H. now rewrite rev_involutive.
  - now apply Forall_rev.
Qed.

Lemma strip_trimmed (s : pystr) : trimmed (strip s).
Proof.
  unfold trimmed, strip, rstrip. rewrite rev_involutive.
  split; [ | apply lstrip_no_space_first ].
  pose proof (lstrip_no_space_first s) as H.
  destruct (lstrip s) as [| c t]; [ exact I | ]. cbn [no_space_first] in H.
  cbn [rev]. rewrite lstrip_snoc by exact H.
  rewrite rev_app_distr. exact H.
Qed.

Lemma strip_fixed (s : pystr) : trimmed s -> strip s = s.
Proof.
  intros [Hfirst Hlast]. unfold strip, rstrip.
  rewrite (lstrip_fixed s Hfirst), (lstrip_fixed (rev s) Hlast).
  apply rev_involutive.
Qed.

Lemma strip_substring (s : pystr) : substring (strip s) s.
Proof.
  destruct (lstrip_suffix s) as (before & H & _).
  destruct (rstrip_prefix (lstrip s)) as (after & H' & _).
  exists before, after. unfold strip. now rewrite <- H', <- H.
Qed.

Lemma substring_trans (a b c : pystr) : substring a b -> substring b c -> substring a c.
Proof.
  intros (p & q & ->) (p' & q' & ->). exists (p' ++ p), (q ++ q').
  now rewrite <- !app_assoc.
Qed.

(** The pieces [split] cuts a text into are pieces of the text. *)
Lemma split_on2_aux_step (a b c c' : codepoint) (cur s : pystr) :
  split_on2_aux a b cur (c :: c' :: s)
  = if (c =? a)%N && (c' =? b)%N then rev cur :: split_on2_aux a b [] s
    else split_on2_aux a b (c :: cur) (c' :: s).
Proof. reflexivity. Qed.

Lemma split_on2_aux_substring (a b : codepoint) (text : pystr) (n : nat) :
  forall s cur before,
    (length s <= n)%nat ->
    text = before ++ rev cur ++ s ->
    Forall (fun piece => substring piece text) (split_on2_aux a b cur s).
Proof.
  induction n as [| n IH]; intros s cur before Hlen Htext;
    destruct s as [| c [| c' s'']]; cbn [length] in Hlen; try lia.
  - constructor; [ | constructor ]. now exists before, [].
  - constructor; [ | constructor ]. now exists before, [].
  - constructor; [ | constructor ]. exists before, []. cbn [rev].
    now rewrite app_nil_r.
  - rewrite split_on2_aux_step. destruct ((c =? a)%N && (c' =? b)%N).
    + constructor; [ now exists before, (c :: c' :: s'') | ].
      apply IH with (before := before ++ rev cur ++ [c; c']); [ lia | ].
      cbn [rev app]. now rewrite <- !app_assoc.
    + apply IH with (before := before); [ cbn [length]; lia | ].
      cbn [rev]. now rewrite <- app_assoc.
Qed.

Lemma content_paragraphs_spec (paras : list pystr) (p : pystr) :
  In p (content_paragraphs paras)
  <-> p <> [] /\ exists para, In para paras /\ strip para = p.
Proof.
  induction paras as [| para paras IH]; cbn [content_paragraphs In].
  - split; [ contradiction | now intros (_ & ? & [] & _) ].
  - destruct (strip para) as [| c stripped] eqn:E.
    + rewrite IH. split.
      * intros (Hne & q & Hin & Hq). split; [ exact Hne | ]. exists q. tauto.
      * intros (Hne & q & [<- | Hin] & Hq); [ congruence | ].
        split; [ exact Hne | ]. now exists q.
    + cbn [In]. rewrite IH. split.
      * intros [<- | (Hne & q & Hin & Hq)].
        -- split; [ discriminate | ]. exists para. tauto.
        -- split; [ exact Hne | ]. exists q. tauto.
      * intros (Hne & q & [<- | Hin] & Hq).
        -- left. congruence.
        -- right. split; [ exact Hne | ]. now exists q.
Qed.
End StripFacts.

Section BlankLineFacts.

Lemma blank_line_cons (c : codepoint) (s : pystr) :
  substring [LF; LF] (c :: s)
  <-> (c = LF /\ exists t, s = LF :: t) \/ substring [LF; LF] s.
Proof.
  split.
  - intros ([| x before] & after & H); cbn [app] in H.
    + injection H as -> ->. left. split; [ reflexivity | now exists after ].
    + injection H as -> ->. right. now exists before, after.
  - intros [[-> (t & ->)] | (before & after & ->)].
    + now exists [], t.
    + now exists (c :: before), after.
Qed.

Lemma blank_line_rev (s : pystr) : substring [LF; LF] s -> substring [LF; LF] (rev s).
Proof.
  intros (before & after & ->). exists (rev after), (rev before).
  rewrite !rev_app_distr. cbn [rev app]. now rewrite <- !app_assoc.
Qed.

(** No piece [split('\n\n')] cuts holds two line feeds in a row. *)
Lemma split_on2_aux_no_blank_line (n : nat) :
  forall s cur,
    (length s <= n)%nat ->
    ~ substring [LF; LF] cur ->
    (forall t c s', cur = LF :: t -> s = c :: s' -> c <> LF) ->
    Forall (fun piece => ~ substring [LF; LF] piece) (split_on2_aux LF LF cur s).
Proof.
  induction n as [| n IH]; intros s cur Hlen Hcur Hnext;
    destruct s as [| c [| c' s'']]; cbn [length] in Hlen; try lia.
  - constructor; [ | constructor ]. intros H. apply blank_line_rev in H.
    now rewrite rev_involutive in H.
  - constructor; [ | constructor ]. intros H. apply blank_line_rev in H.
    now rewrite rev_involutive in H.
  - constructor; [ | constructor ]. cbn [split_on2_aux]. intros H.
    apply blank_line_rev in H. rewrite rev_involutive in H.
    apply blank_line_cons in H. destruct H as [[-> (t & ->)] | H]; [ | tauto ].
    now apply (Hnext t LF []).
  - rewrite split_on2_aux_step. destruct ((c =? LF)%N && (c' =? LF)%N) eqn:E.
    + constructor.
      * intros H. apply blank_line_rev in H. now rewrite rev_involutive in H.
      * apply IH; [ lia | | discriminate ].
        intros ([| x before] & after & H); discriminate H.
    + apply IH; [ cbn [length]; lia | | ].
      * intros H. apply blank_line_cons in H.
        destruct H as [[-> (t & ->)] | H]; [ | tauto ].
        now apply (Hnext t LF (c' :: s'')).
      * intros t x s' Hc Hs. injection Hc as -> _. injection Hs as <- _.
        rewrite N.eqb_refl in E. cbn [andb] in E. intros ->.
        now rewrite N.eqb_refl in E.
Qed.

(** A text without two line feeds in a row is not cut. *)
Lemma split_on2_aux_whole (s : pystr) :
  forall cur,
    ~ substring [LF; LF] s -> split_on2_aux LF LF cur s = [rev cur ++ s].
Proof.
  induction s as [| c s IH]; intros cur Hs; cbn [split_on2_aux].
  - now rewrite app_nil_r.
  - destruct s as [| c' s'']; [ reflexivity | ].
    destruct ((c =? LF)%N && (c' =? LF)%N) eqn:E.
    + apply andb_true_iff in E. destruct E as [Ec Ec'].
      apply N.eqb_eq in Ec, Ec'. subst. exfalso. apply Hs. now exists [], s''.
    + rewrite IH.
      * cbn [rev]. now rewrite <- app_assoc.
      * intros H. apply Hs. apply blank_line_cons. now right.
Qed.
End BlankLineFacts.

(** X14: [export_to_word] returns [None], whatever the library does,
    when it is given a non-empty [metadata] that has no numeric
    [quality_score]: the default "N/A" (like any string, [None], list or
    dictionary) cannot be formatted with one decimal. *)
Theorem export_to_word_needs_quality_score :
  forall (UDB : UnicodeDB) (FMT : Formatter) (Doc : Type)
         (DOCX : DocumentLib docx_call Doc)
         (text filename : pystr) (metadata : dict pyval) (now : pystr),
    metadata <> [] ->
    (forall v, dict_get metadata (u "quality_score") = Some v -> is_number v = false) ->
    export_to_word text filename (Some metadata) now = None.
Proof.
  intros UDB FMT Doc DOCX text filename metadata now Hne Hquality.
  unfold export_to_word, produce, word_steps.
  destruct lib_new as [doc |]; [ | reflexivity ].
  destruct metadata as [| entry entries]; [ contradiction | ].
  assert (Hraise : exists e,
             format_value_1f (dict_get_default (entry :: entries) (u "quality_score")
                                               (PStr (u "N/A"))) = Raise e).
  { unfold dict_get_default.
    destruct (dict_get (entry :: entries) (u "quality_score")) as [v |] eqn:E.
    - specialize (Hquality v eq_refl).
      destruct v; try discriminate Hquality; cbn; eauto.
    - cbn. eauto. }
  destruct Hraise as [e ->]. cbn [app play].
  repeat match goal with
         | |- context [lib_call ?d ?c] => destruct (lib_call d c); [ | reflexivity ]
         end.
  reflexivity.
Qed.

Lemma export_to_word_needs_quality_score_witness :
  export_to_word (UDB:=AsciiDB.db) (FMT:=DemoDocx.formatter)
                 (DOCX:=DemoDocx.lib docx_call)
                 (u "some text") (u "a.pdf") (Some [(u "page_count", PInt 3)])
                 (u "2024-05-01 09:30:00")
  = None.
Proof.
  apply export_to_word_needs_quality_score; [ discriminate | ].
  intros v H. discriminate H.
Defined.

(** X15: the content [export_to_word] writes. After the heading
    "Extracted Text" come the paragraphs, and nothing else: the blocks of
    the text between empty lines, each without the whitespace around it,
    in order, those that are only whitespace left out. So no paragraph is
    empty, none begins or ends with whitespace, none holds an empty
    line, and each is a piece of the text. A text without an empty line
    is one paragraph. *)
Theorem export_to_word_content :
  forall (UDB : UnicodeDB) (FMT : Formatter) (text filename : pystr)
         (metadata : option (dict pyval)) (now : pystr),
    let paragraphs := content_paragraphs (split_on2 LF LF text) in
    (exists front,
        word_steps text filename metadata now
        = front ++ Ok (add_heading (u "Extracted Text") 1)
                :: map (fun p => Ok (add_paragraph p)) paragraphs)
    /\ Forall (fun p => p <> [] /\ trimmed p /\ substring p text
                        /\ ~ substring [LF; LF] p) paragraphs
    /\ (~ substring [LF; LF] text ->
        paragraphs = match strip text with [] => [] | p => [p] end).
Proof.
  intros UDB FMT text filename metadata now paragraphs. split; [ | split ].
  - unfold word_steps. fold paragraphs.
    match goal with
    | |- context [?a ++ ?b ++ [?x; ?h] ++ ?c] =>
        exists (a ++ b ++ [x]); now rewrite <- !app_assoc
    end.
  - apply Forall_forall. intros p Hin. apply content_paragraphs_spec in Hin.
    destruct Hin as (Hne & para & Hpara & <-).
    split; [ exact Hne | ]. split; [ apply strip_trimmed | ].
    assert (Hpiece : substring para text).
    { pose proof (@split_on2_aux_substring LF LF text (length text) text [] []
                    (le_n _) eq_refl) as H.
      rewrite Forall_forall in H. now apply H. }
    assert (Hblank : ~ substring [LF; LF] para).
    { pose proof (@split_on2_aux_no_blank_line (length text) text []
                    (le_n _)) as H.
      rewrite Forall_forall in H. apply H; [ | discriminate | exact Hpara ].
      intros ([| x before] & after & H'); discriminate H'. }
    split.
    + apply substring_trans with para; [ apply strip_substring | exact Hpiece ].
    + intros H. apply Hblank.
      apply substring_trans with (strip para); [ exact H | apply strip_substring ].
  - intros Hwhole. subst paragraphs. unfold split_on2.
    rewrite split_on2_aux_whole by exact Hwhole. cbn [rev app content_paragraphs].
    destruct (strip text); reflexivity.
Qed.

Section ExcelFacts.
Context {UDB : UnicodeDB}.

Lemma join_lines_length (lines : list pystr) :
  lines <> [] -> len (join_lines lines) = sum_len lines + (len lines - 1).
Proof.
  unfold len. induction lines as [| l lines IH]; [ congruence | ]. intros _.
  destruct lines as [| l' lines].
  - cbn [join_lines sum_len length]. unfold len. lia.
  - rewrite join_lines_cons by discriminate.
    rewrite length_app. cbn [length sum_len] in *. unfold len in *.
    specialize (IH ltac:(discriminate)). lia.
Qed.

Lemma split_ws_aux_length (s : pystr) :
  forall cur,
    (length (split_ws_aux cur s)
     <= length s + match cur with [] => 0 | _ => 1 end)%nat.
Proof.
  induction s as [| c s IH]; intros cur; cbn [split_ws_aux length].
  - destruct cur; cbn; lia.
  - destruct (py_isspace c).
    + destruct cur; [ specialize (IH []); cbn in IH; lia | ].
      cbn [length]. specialize (IH []). cbn in IH. lia.
    + specialize (IH (c :: cur)). cbn in IH. destruct cur; lia.
Qed.

Lemma split_ws_length (s : pystr) : len (split_ws s) <= len s.
Proof.
  unfold len, split_ws. pose proof (split_ws_aux_length s []) as H. cbn in H. lia.
Qed.

Lemma excel_statistics_cells (text : pystr) :
  flat_map (fun item : Z * (pystr * Z) =>
              let '(i, (metric, value)) := item in
              [ set_cell ws2 (u "A" ++ str_of_int i) (PStr metric);
                set_cell ws2 (u "B" ++ str_of_int i) (PInt value) ])
           (enumerate (excel_stats text) 2)
  = [ set_cell ws2 (u "A2") (PStr (u "Total Lines"));
      set_cell ws2 (u "B2") (PInt (len (split_on LF text)));
      set_cell ws2 (u "A3") (PStr (u "Total Words"));
      set_cell ws2 (u "B3") (PInt (len (split_ws text)));
      set_cell ws2 (u "A4") (PStr (u "Total Characters"));
      set_cell ws2 (u "B4") (PInt (len text));
      set_cell ws2 (u "A5") (PStr (u "Non-empty Lines"));
      set_cell ws2 (u "B5") (PInt (non_empty_lines (split_on LF text)));
      set_cell ws2 (u "A6") (PStr (u "Average Line Length"));
      set_cell ws2 (u "B6")
               (PInt (len text / Z.max (len (split_on LF text)) 1)) ].
Proof. reflexivity. Qed.
End ExcelFacts.

(** X16: the statistics sheet [export_to_excel] writes. Column B of the
    rows 2 to 6 holds the number of lines (at least 1), of words, of
    characters, of lines that are not blank, and the average line
    length. The number of characters is that of all lines plus one line
    feed between two lines; there are no more words than characters and
    no more non-blank lines than lines. The average counts the line feeds
    as characters: it is the mean length of the lines rounded up, not
    down. *)
Theorem export_to_excel_statistics :
  forall (UDB : UnicodeDB) (text : pystr),
    let lines := split_on LF text in
    exists total_lines words characters non_empty average : Z,
      excel_stats text
      = [ (u "Total Lines", total_lines); (u "Total Words", words);
          (u "Total Characters", characters); (u "Non-empty Lines", non_empty);
          (u "Average Line Length", average) ]
      /\ In (set_cell ws2 (u "B2") (PInt total_lines)) (excel_steps text)
      /\ In (set_cell ws2 (u "B3") (PInt words)) (excel_steps text)
      /\ In (set_cell ws2 (u "B4") (PInt characters)) (excel_steps text)
      /\ In (set_cell ws2 (u "B5") (PInt non_empty)) (excel_steps text)
      /\ In (set_cell ws2 (u "B6") (PInt average)) (excel_steps text)
      /\ total_lines = len lines /\ 1 <= total_lines
      /\ characters = sum_len lines + (total_lines - 1)
      /\ 0 <= words <= characters
      /\ 0 <= non_empty <= total_lines
      /\ sum_len lines <= average * total_lines < sum_len lines + total_lines.
Proof.
  intros UDB text lines.
  exists (len lines), (len (split_ws text)), (len text), (non_empty_lines lines),
         (len text / Z.max (len lines) 1).
  assert (Hlines : 1 <= len lines).
  { subst lines. unfold len, split_on.
    pose proof (split_on_aux_nonempty LF text []) as H.
    destruct (split_on_aux LF [] text); [ congruence | cbn [length]; lia ]. }
  assert (Hchars : len text = sum_len lines + (len lines - 1)).
  { rewrite <- join_lines_length.
    - subst lines. unfold split_on. now rewrite split_on_aux_join.
    - intros H. rewrite H in Hlines. cbn in Hlines. lia. }
  assert (Hcells : forall cell,
             In cell [ set_cell ws2 (u "B2") (PInt (len lines));
                       set_cell ws2 (u "B3") (PInt (len (split_ws text)));
                       set_cell ws2 (u "B4") (PInt (len text));
                       set_cell ws2 (u "B5") (PInt (non_empty_lines lines));
                       set_cell ws2 (u "B6")
                                (PInt (len text / Z.max (len lines) 1)) ] ->
             In cell (excel_steps text)).
  { intros cell Hin. unfold excel_steps. rewrite excel_statistics_cells.
    fold lines. rewrite !in_app_iff. do 3 right. left.
    cbn [In] in *. tauto. }
  split; [ reflexivity | ].
  do 5 (split; [ apply Hcells; cbn [In]; tauto | ]).
  split; [ reflexivity | ]. split; [ exact Hlines | ]. split; [ exact Hchars | ].
  split; [ pose proof (split_ws_length text); unfold len in *; lia | ].
  split.
  { unfold non_empty_lines, len.
    pose proof (filter_length_le
                  (fun l => match strip l with [] => false | _ => true end) lines).
    lia. }
  rewrite Z.max_l by lia. rewrite Hchars.
  pose proof (Z.div_mod (sum_len lines + (len lines - 1)) (len lines)) as Hdiv.
  pose proof (Z.mod_pos_bound (sum_len lines + (len lines - 1)) (len lines)) as Hmod.
  nia.
Qed.

Section FloatFacts.
Import PyFloat.

(** A positive integer divided by itself is 1.0, whatever its size. *)
Lemma int_true_div_same (n : Z) : 0 < n -> int_true_div n n = of_int 1.
Proof.
  intros Hn. destruct n as [| p | p]; try lia.
  unfold int_true_div, div, exact_int, SFdiv, SFdiv_core_binary.
  assert (E0 : IntDef.Z.add (Zdigits2 (Z.pos p)) 0 = Zdigits2 (Z.pos p))
    by apply Z.add_0_r.
  rewrite !E0.
  assert (E1 : IntDef.Z.sub (Zdigits2 (Z.pos p)) (Zdigits2 (Z.pos p)) = 0)
    by apply Z.sub_diag.
  rewrite !E1.
  change (IntDef.Z.min (fexp prec emax 0) (IntDef.Z.sub 0 0)) with (-53).
  change (IntDef.Z.sub (IntDef.Z.sub 0 0) (-53)) with 53.
  cbv beta iota zeta.
  assert (Hdiv : IntDef.Z.div_eucl (IntDef.Z.shiftl (Z.pos p) 53) (Z.pos p)
                 = (9007199254740992, 0)).
  { change (Z.div_eucl (Z.shiftl (Z.pos p) 53) (Z.pos p) = (9007199254740992, 0)).
    rewrite Z.shiftl_mul_pow2 by lia.
    rewrite Z.mul_comm.
    pose proof (Z.div_mul (2 ^ 53) (Z.pos p) ltac:(lia)) as Hq.
    pose proof (Z.mod_mul (2 ^ 53) (Z.pos p) ltac:(lia)) as Hr.
    unfold Z.div in Hq. unfold Z.modulo in Hr.
    destruct (Z.div_eucl (2 ^ 53 * Z.pos p) (Z.pos p)) as [q r].
    now subst. }
  rewrite Hdiv.
  unfold new_location. destruct (IntDef.Z.even (Z.pos p)); vm_compute; reflexivity.
Qed.

(** Zero divided by a positive integer is 0.0. *)
Lemma int_true_div_zero (n : Z) : 0 < n -> int_true_div 0 n = S754_zero false.
Proof. intros Hn. destruct n as [| p | p]; try lia. reflexivity. Qed.
End FloatFacts.

Section ScoreFacts.
Context {UDB : UnicodeDB}.
Import PyFloat.

Lemma sum_alnum_or_space_all (text : pystr) :
  Forall (fun c => py_isalnum c || py_isspace c = true) text ->
  sum_alnum_or_space text = len text.
Proof.
  unfold len. induction 1 as [| c text Hc _ IH]; cbn [sum_alnum_or_space length].
  - reflexivity.
  - rewrite Hc, IH. lia.
Qed.

Lemma sum_alnum_or_space_none (text : pystr) :
  Forall (fun c => py_isalnum c || py_isspace c = false) text ->
  sum_alnum_or_space text = 0.
Proof.
  induction 1 as [| c text Hc _ IH]; cbn [sum_alnum_or_space]; [ reflexivity | ].
  rewrite Hc, IH. reflexivity.
Qed.

Lemma sum_len_ones (words : list pystr) :
  Forall (fun w => len w = 1) words -> sum_len words = len words.
Proof.
  unfold len. induction 1 as [| w words Hw _ IH]; cbn [sum_len length].
  - reflexivity.
  - unfold len in *. lia.
Qed.

(** The score, by the deductions that apply. *)
Lemma quality_score_by_deductions (text : pystr) :
  calculate_quality_score text
  = of_int (Z.max 0 (Z.min 100
              (100 - (if too_short text then 50 else 0)
                   - (if low_alnum_ratio text then 30 else 0)
                   - (if odd_word_length text then 20 else 0)))).
Proof.
  rewrite calculate_quality_score_cases.
  unfold quality_score_spec, clamp, deductions, deduction. f_equal.
  destruct (too_short text), (low_alnum_ratio text), (odd_word_length text);
    reflexivity.
Qed.

Lemma lstrip_keeps (c : codepoint) (before rest : pystr) :
  py_isspace c = false ->
  exists before', lstrip (before ++ c :: rest) = before' ++ c :: rest.
Proof.
  intros Hc. induction before as [| x before IH]; cbn [app lstrip].
  - rewrite Hc. now exists [].
  - destruct (py_isspace x); [ exact IH | now exists (x :: before) ].
Qed.

(** [strip] removes nothing between two characters that are not
    whitespace. *)
Lemma strip_keeps (c1 c2 : codepoint) (before mid after : pystr) :
  py_isspace c1 = false -> py_isspace c2 = false ->
  exists before' after',
    strip (before ++ c1 :: mid ++ c2 :: after) = before' ++ c1 :: mid ++ c2 :: after'.
Proof.
  intros H1 H2. unfold strip, rstrip.
  destruct (@lstrip_keeps c1 before (mid ++ c2 :: after) H1) as [before' ->].
  replace (before' ++ c1 :: mid ++ c2 :: after)
    with ((before' ++ c1 :: mid) ++ c2 :: after)
    by (rewrite <- app_assoc; reflexivity).
  rewrite rev_app_distr. cbn [rev]. rewrite <- app_assoc. cbn [app].
  destruct (@lstrip_keeps c2 (rev after) (rev (before' ++ c1 :: mid)) H2) as [q ->].
  exists before', (rev q).
  rewrite rev_app_distr. cbn [rev]. rewrite rev_involutive, <- !app_assoc.
  reflexivity.
Qed.
End ScoreFacts.

(** X17: the two ends of the character test of [calculate_quality_score].
    A text in which every character is alphanumeric or whitespace never
    loses the 30 points (unless it is empty), whatever its length; a text
    in which no character is, always loses them and scores 70 at most.
    A text whose tokens are all one character long always loses the 20
    points of the word test and scores 80 at most. *)
Theorem calculate_quality_score_extremes :
  forall (UDB : UnicodeDB) (text : pystr),
    (text <> [] ->
     Forall (fun c => py_isalnum c || py_isspace c = true) text ->
     low_alnum_ratio text = false
     /\ In (calculate_quality_score text) (map PyFloat.of_int [30; 50; 80; 100]))
    /\ (Forall (fun c => py_isalnum c || py_isspace c = false) text ->
        low_alnum_ratio text = true
        /\ In (calculate_quality_score text) (map PyFloat.of_int [0; 20; 50; 70]))
    /\ (split_ws text <> [] ->
        Forall (fun w => len w = 1) (split_ws text) ->
        odd_word_length text = true
        /\ In (calculate_quality_score text) (map PyFloat.of_int [0; 30; 50; 80])).
Proof.
  intros UDB text. split; [ | split ].
  - intros Hne Hall.
    assert (Hratio : low_alnum_ratio text = false).
    { unfold low_alnum_ratio. rewrite sum_alnum_or_space_all by exact Hall.
      assert (Hlen : 0 < len text)
        by (unfold len; destruct text; [ congruence | cbn [length]; lia ]).
      rewrite Z.max_l by lia. now rewrite int_true_div_same. }
    split; [ exact Hratio | ].
    rewrite quality_score_by_deductions, Hratio.
    destruct (too_short text), (odd_word_length text); vm_compute; tauto.
  - intros Hnone.
    assert (Hratio : low_alnum_ratio text = true).
    { unfold low_alnum_ratio. rewrite sum_alnum_or_space_none by exact Hnone.
      rewrite int_true_div_zero by lia. reflexivity. }
    split; [ exact Hratio | ].
    rewrite quality_score_by_deductions, Hratio.
    destruct (too_short text), (odd_word_length text); vm_compute; tauto.
  - intros Hne Hones.
    assert (Hwords : odd_word_length text = true).
    { unfold odd_word_length. rewrite sum_len_ones by exact Hones.
      assert (Hlen : 0 < len (split_ws text))
        by (unfold len; destruct (split_ws text); [ congruence | cbn [length]; lia ]).
      replace (0 <? len (split_ws text)) with true
        by (symmetry; now apply Z.ltb_lt).
      now rewrite int_true_div_same. }
    split; [ exact Hwords | ].
    rewrite quality_score_by_deductions, Hwords.
    destruct (too_short text), (low_alnum_ratio text); vm_compute; tauto.
Qed.

(** X18: the length test of [calculate_quality_score] never applies to
    what [extract_text_from_pdf] returns for a document with at least one
    page: the banner of the first page alone holds 60 equals signs in a
    row, so the trimmed text has at least 60 characters, and the score is
    50 at least even if recognition failed on every page. ([=] is not
    whitespace in any Unicode database.) *)
Theorem extracted_text_never_too_short :
  forall (UDB : UnicodeDB) (Image : Type) (PIL : ImageLib Image)
         (OCR : OcrEngine Image)
         (pdf_bytes : list Byte.byte) (ocr_lang : pystr) (dpi psm_mode : Z)
         (enhance denoise : bool) (images : list Image),
    py_isspace 61%N = false ->
    convert_from_bytes pdf_bytes dpi (u "jpeg") = Ok images ->
    images <> [] ->
    let text :=
      fst (fst (extract_text_from_pdf pdf_bytes ocr_lang dpi psm_mode
                                      enhance denoise)) in
    60 <= len (strip text)
    /\ too_short text = false
    /\ In (calculate_quality_score text) (map PyFloat.of_int [50; 70; 80; 100]).
Proof.
  intros UDB Image PIL OCR pdf_bytes ocr_lang dpi psm_mode enhance denoise images
         Hequals Hraster Hpages text.
  subst text. rewrite (extract_text_from_pdf_pages _ _ _ _ _ _ Hraster).
  cbn [fst]. destruct images as [| image images]; [ congruence | ].
  cbn [page_blocks].
  set (text := page_block ocr_lang psm_mode enhance denoise 1 image
                 ++ page_blocks ocr_lang psm_mode enhance denoise (1 + 1) images).
  assert (Hshape : exists after,
             text = [LF] ++ 61%N :: repeat 61%N 58 ++ 61%N :: after).
  { subst text. unfold page_block.
    destruct (image_to_string _ _ _); eexists;
      unfold page_banner, error_banner, rule, str_mul;
      change (repeat 61%N 60) with (61%N :: repeat 61%N 58 ++ [61%N]);
      cbn [app]; rewrite <- !app_assoc; cbn [app]; reflexivity. }
  destruct Hshape as [after Hshape].
  assert (Hlen : 60 <= len (strip text)).
  { clearbody text. subst text.
    destruct (@strip_keeps UDB 61%N 61%N [LF] (repeat 61%N 58) after Hequals Hequals)
      as (before' & after' & Hstrip).
    unfold pystr, codepoint in *. rewrite Hstrip.
    unfold len. rewrite !length_app. cbn [length]. rewrite !length_app.
    cbn [length]. rewrite repeat_length. lia. }
  assert (Hshort : too_short text = false).
  { unfold too_short. apply Z.ltb_ge. lia. }
  split; [ exact Hlen | ]. split; [ exact Hshort | ].
  rewrite quality_score_by_deductions, Hshort.
  destruct (low_alnum_ratio text), (odd_word_length text); vm_compute; tauto.
Qed.

Lemma extracted_text_never_too_short_witness :
  let text :=
    fst (fst (extract_text_from_pdf (UDB:=AsciiDB.db) (PIL:=Demo.pil)
                                    (OCR:=Demo.ocr) Demo.pdf (u "eng") 300 3
                                    true true)) in
  60 <= len (strip (UDB:=AsciiDB.db) text)
  /\ too_short (UDB:=AsciiDB.db) text = false
  /\ In (calculate_quality_score (UDB:=AsciiDB.db) text)
        (map PyFloat.of_int [50; 70; 80; 100]).
Proof.
  apply (@extracted_text_never_too_short
           AsciiDB.db Demo.Image Demo.pil Demo.ocr Demo.pdf (u "eng") 300 3
           true true [1%nat; 2%nat; 3%nat]);
    [ reflexivity | reflexivity | discriminate ].
Defined.

(** X19: a case-sensitive search for a query that holds a line feed
    finds nothing, whatever the text: the text is cut at the line feeds
    before the lines are searched, so no line can contain the query. *)
Theorem search_in_text_line_feed_query :
  forall (UDB : UnicodeDB) (text query : pystr),
    In LF query -> search_in_text text query true = [].
Proof.
  intros UDB text query Hlf.
  destruct query as [| c query]; [ reflexivity | ].
  rewrite search_in_text_filter.
  destruct (filter _ _) as [| [i line] found] eqn:E; [ reflexivity | ].
  assert (Hin : In (i, line)
                   (filter (keeps (c :: query) true)
                           (enumerate (split_on LF text) 1)))
    by (rewrite E; now left).
  apply filter_In in Hin. destruct Hin as [Hin Hkeeps].
  apply enumerate_In in Hin. destruct Hin as [_ Hnth].
  apply nth_error_In in Hnth.
  unfold keeps, fold_case in Hkeeps. cbn [snd] in Hkeeps.
  apply contains_substring in Hkeeps. destruct Hkeeps as (before & after & ->).
  pose proof (split_on_aux_no_sep text [] (fun H => H)) as Hlines.
  rewrite Forall_forall in Hlines. exfalso. apply (Hlines _ Hnth).
  rewrite !in_app_iff. tauto.
Qed.

Lemma search_in_text_line_feed_query_witness :
  search_in_text (UDB:=AsciiDB.db)
                 (u "first line" ++ LF :: u "second line")
                 (u "line" ++ LF :: u "second") true
  = [].
Proof.
  apply search_in_text_line_feed_query. rewrite in_app_iff. right. now left.
Defined.

Section DeleteFacts.
Lemma insert_desc_front (r : row) (rows : list row) :
  Forall (fun y => str_ltb (timestamp y) (timestamp r) = true) rows ->
  insert_desc r rows = r :: rows.
Proof.
  destruct 1 as [| y rows Hy _]; cbn [insert_desc]; [ reflexivity | ].
  now rewrite Hy.
Qed.

(** Leaving rows out of a sorted list and inserting a row commute. *)
Lemma filter_insert_desc (keep : row -> bool) (r : row) (sorted : list row) :
  StronglySorted newer_first sorted ->
  filter keep (insert_desc r sorted)
  = if keep r then insert_desc r (filter keep sorted) else filter keep sorted.
Proof.
  induction 1 as [| x sorted Hsorted IH Hx]; cbn [insert_desc filter].
  - destruct (keep r); reflexivity.
  - destruct (str_ltb (timestamp x) (timestamp r)) eqn:E; cbn [filter].
    + destruct (keep r) eqn:Hr; [ | reflexivity ].
      destruct (keep x); cbn [insert_desc]; [ now rewrite E | ].
      symmetry. apply insert_desc_front.
      apply Forall_forall. intros y Hy. apply filter_In in Hy.
      rewrite Forall_forall in Hx. specialize (Hx y (proj1 Hy)).
      unfold newer_first in Hx.
      destruct (str_ltb (timestamp y) (timestamp r)) eqn:Ey; [ reflexivity | ].
      now rewrite (str_geb_trans _ _ _ Hx Ey) in E.
    + rewrite IH. destruct (keep r), (keep x); cbn [insert_desc]; try rewrite E;
        reflexivity.
Qed.

Lemma order_by_filter (keep : row -> bool) (rows : list row) :
  order_by_timestamp_desc (filter keep rows)
  = filter keep (order_by_timestamp_desc rows).
Proof.
  induction rows as [| r rows IH]; cbn [filter]; [ reflexivity | ].
  change (order_by_timestamp_desc (r :: rows))
    with (insert_desc r (order_by_timestamp_desc rows)).
  rewrite filter_insert_desc by apply order_by_sorted.
  destruct (keep r); [ | exact IH ].
  change (order_by_timestamp_desc (r :: filter keep rows))
    with (insert_desc r (order_by_timestamp_desc (filter keep rows))).
  now rewrite IH.
Qed.

Lemma filter_all (A : Type) (keep : A -> bool) (l : list A) :
  Forall (fun x => keep x = true) l -> filter keep l = l.
Proof.
  induction 1 as [| x l Hx _ IH]; cbn [filter]; [ reflexivity | ].
  now rewrite Hx, IH.
Qed.
End DeleteFacts.

(** X20: deleting a record touches that record only. Every other id is
    found as before, the listing is the old listing without the rows of
    the deleted id, the others in the same order, and deleting an id
    that is not in the history changes nothing. *)
Theorem delete_one_leaves_others :
  forall (db : database) (i : Z),
    (forall j, j <> i -> get (delete_one db i) j = get db j)
    /\ list_all (delete_one db i)
       = filter (fun l => negb (listed_id l =? i)) (list_all db)
    /\ (get db i = None -> delete_one db i = db).
Proof.
  intros db i. split; [ | split ].
  - intros j Hj. unfold get, delete_one. cbn [extractions].
    induction (extractions db) as [| r rows IH]; cbn [filter find]; [ reflexivity | ].
    destruct (id r =? i) eqn:E; cbn [negb find].
    + apply Z.eqb_eq in E.
      replace (id r =? j) with false by (symmetry; apply Z.eqb_neq; lia).
      exact IH.
    + destruct (id r =? j); [ reflexivity | exact IH ].
  - unfold list_all, delete_one. cbn [extractions].
    rewrite order_by_filter.
    induction (order_by_timestamp_desc (extractions db)) as [| r rows IH];
      cbn [filter map]; [ reflexivity | ].
    change (listed_id (select_listed r)) with (id r).
    destruct (negb (id r =? i)); cbn [map]; now rewrite IH.
  - intros Hnone. unfold delete_one. destruct db as [rows seq].
    cbn [extractions sequence] in *. f_equal. apply filter_all.
    unfold get in Hnone. cbn [extractions] in Hnone.
    apply Forall_forall. intros r Hin.
    destruct (id r =? i) eqn:E; [ | reflexivity ].
    exfalso. revert Hnone. clear -Hin E.
    induction rows as [| x rows IH]; [ contradiction | ]. cbn [find].
    destruct Hin as [-> | Hin]; [ now rewrite E | ].
    destruct (id x =? i); [ discriminate | now apply IH ].
Qed.

Section AsciiFacts.
Context {FT : FloatText}.

Lemma safe_app (a b : pystr) : safe a -> safe b -> safe (a ++ b).
Proof. intros Ha Hb. apply Forall_app. now split. Qed.

Lemma safe_hex_digit (d : N) : (d < 16)%N -> json_safe (Json.hex_digit d) = true.
Proof.
  intros Hd. unfold Json.hex_digit, json_safe.
  destruct (d <? 10)%N eqn:E.
  - apply N.ltb_lt in E. apply orb_true_iff. right.
    apply andb_true_iff. split; apply N.leb_le; lia.
  - apply N.ltb_ge in E. apply orb_true_iff. right.
    apply andb_true_iff. split; apply N.leb_le; lia.
Qed.

Lemma safe_nibble (n k : N) :
  json_safe (Json.hex_digit (N.land (N.shiftr n k) 15)) = true.
Proof.
  apply safe_hex_digit. rewrite nibble. apply N.mod_upper_bound. discriminate.
Qed.

Lemma safe_u_escape (n : N) : safe (Json.u_escape n).
Proof.
  unfold Json.u_escape. repeat constructor; try apply safe_nibble.
  apply (safe_nibble n 0).
Qed.

Lemma safe_escape_char (c : codepoint) : safe (Json.escape_char c).
Proof.
  unfold Json.escape_char.
  repeat match goal with
         | |- safe (if ?b then _ else _) => destruct b eqn:?
         end;
    try (repeat constructor; fail);
    try apply safe_u_escape.
  - constructor; [ | constructor ]. unfold json_safe.
    apply orb_true_iff. now right.
  - apply safe_app; apply safe_u_escape.
Qed.

Lemma safe_encode_str (s : pystr) : safe (Json.encode_str s).
Proof.
  unfold Json.encode_str. apply safe_app; [ repeat constructor | ].
  apply safe_app; [ | repeat constructor ].
  induction s as [| c s IH]; cbn [flat_map]; [ constructor | ].
  apply safe_app; [ apply safe_escape_char | exact IH ].
Qed.

Lemma safe_digits (ds : pystr) : all_digits ds -> safe ds.
Proof.
  intros H. eapply Forall_impl; [ | exact H ]. cbn beta.
  unfold Json.is_digit, json_safe. intros c Hc.
  apply andb_true_iff in Hc. destruct Hc as [Hlo Hhi].
  apply N.leb_le in Hlo, Hhi. apply orb_true_iff. right.
  apply andb_true_iff. split; apply N.leb_le; lia.
Qed.

Lemma safe_str_of_int (n : Z) : safe (str_of_int n).
Proof.
  destruct (Z.lt_ge_cases n 0) as [Hneg | Hpos].
  - rewrite (str_of_int_neg Hneg).
    destruct (@str_of_int_nonneg (- n) ltac:(lia)) as (d & ds & -> & Hall & _).
    constructor; [ reflexivity | now apply safe_digits ].
  - destruct (str_of_int_nonneg Hpos) as (d & ds & -> & Hall & _).
    now apply safe_digits.
Qed.

Lemma safe_newline_indent (level : nat) : safe (Json.newline_indent level).
Proof.
  unfold Json.newline_indent. constructor; [ reflexivity | ].
  induction (2 * level)%nat as [| n IH]; cbn [repeat]; constructor;
    [ reflexivity | exact IH ].
Qed.

Lemma safe_floatstr (x : PyFloat.float) :
  forallb json_safe (float_repr x) = true -> safe (Json.floatstr x).
Proof.
  intros H. unfold Json.floatstr.
  destruct x as [s | [|] | | s m e]; try (repeat constructor; fail);
    apply Forall_forall; intros c Hc; rewrite forallb_forall in H; now apply H.
Qed.

Lemma Forall_flat_map_inv (A B : Type) (P : B -> Prop) (f : A -> list B)
      (l : list A) :
  Forall P (flat_map f l) -> Forall (fun x => Forall P (f x)) l.
Proof.
  induction l as [| x l IH]; cbn [flat_map]; intros H; [ constructor | ].
  apply Forall_app in H. destruct H as [Hx Hl]. constructor; [ exact Hx | now apply IH ].
Qed.

(** [json.dumps] writes printable ASCII and line feeds only, if
    [float.__repr__] does. *)
Lemma safe_encode (v : pyval) :
  forall level,
    Forall (fun x => forallb json_safe (float_repr x) = true) (floats_in v) ->
    safe (Json.encode level v).
Proof.
  induction v as [| b | n | x | s | items IH | entries IH] using pyval_ind;
    intros level Hfloats.
  - repeat constructor.
  - destruct b; repeat constructor.
  - apply safe_str_of_int.
  - cbn [Json.encode]. apply safe_floatstr. now inversion_clear Hfloats.
  - apply safe_encode_str.
  - cbn [floats_in] in Hfloats. apply Forall_flat_map_inv in Hfloats.
    destruct items as [| first others]; [ repeat constructor | ].
    rewrite encode_list.
    inversion_clear IH as [| ? ? IHfirst IHothers].
    inversion_clear Hfloats as [| ? ? Hfirst Hothers].
    apply safe_app; [ repeat constructor | ].
    apply safe_app; [ apply safe_newline_indent | ].
    apply safe_app; [ now apply IHfirst | ].
    apply safe_app;
      [ | apply safe_app; [ apply safe_newline_indent | repeat constructor ] ].
    clear first IHfirst Hfirst.
    induction others as [| item others IHo]; [ constructor | ].
    inversion_clear IHothers as [| ? ? IHitem IHrest].
    inversion_clear Hothers as [| ? ? Hitem Hrest].
    rewrite more_items_cons. constructor; [ reflexivity | ].
    apply safe_app; [ apply safe_newline_indent | ].
    apply safe_app; [ now apply IHitem | now apply IHo ].
  - cbn [floats_in] in Hfloats. apply Forall_flat_map_inv in Hfloats.
    destruct entries as [| [key value] others]; [ repeat constructor | ].
    rewrite encode_dict.
    inversion_clear IH as [| ? ? IHfirst IHothers].
    inversion_clear Hfloats as [| ? ? Hfirst Hothers].
    cbn [snd] in IHfirst, Hfirst.
    apply safe_app; [ repeat constructor | ].
    apply safe_app; [ apply safe_newline_indent | ].
    apply safe_app; [ apply safe_encode_str | ].
    apply safe_app; [ repeat constructor | ].
    apply safe_app; [ now apply IHfirst | ].
    apply safe_app;
      [ | apply safe_app; [ apply safe_newline_indent | repeat constructor ] ].
    clear key value IHfirst Hfirst.
    induction others as [| [k x] others IHo]; [ constructor | ].
    inversion_clear IHothers as [| ? ? IHitem IHrest].
    inversion_clear Hothers as [| ? ? Hitem Hrest].
    cbn [snd] in IHitem, Hitem.
    unfold Json.more_entries. cbn [flat_map fst snd].
    fold (Json.more_entries level others).
    apply safe_app; [ | now apply IHo ].
    apply safe_app; [ repeat constructor | ].
    apply safe_app; [ apply safe_newline_indent | ].
    apply safe_app; [ apply safe_encode_str | ].
    apply safe_app; [ repeat constructor | now apply IHitem ].
Qed.
End AsciiFacts.


